(** * DrawingApp: the editing-state engine of [DrawingComponent]

    A shallow embedding of the drawing component (command history, image
    overlays, path smoothing, snapping, handle hit-testing) and the
    properties of it that the specification states.

    Conventions of the embedding.
    - A JavaScript [number] is a type [num] with the arithmetic of the
      interface [Number].  Two instances are given: IEEE-754 binary64
      ([float]), which is what the program runs on, and the real numbers
      ([R]), the idealised arithmetic in which the geometric statements are
      made.
    - Image objects live in a store [heap] indexed by references; the
      [images] array, [selectedImage] and the [image] field of an action
      hold references, so that aliasing is as in the program.
    - An array is a list whose last element is the top of the stack
      ([push] appends, [pop] removes the last element).
    - Drawing on the 2D context has no effect on the component's fields;
      [redrawCanvas] and the other rendering calls are therefore left out.
    - [this.canvasRef.nativeElement] throws when the canvas is absent;
      functions that dereference it unguarded return [option]. *)

From Stdlib Require Import Reals Lra Lia List ZArith Bool String Permutation.
From Stdlib Require Import Floats.
From Stdlib Require Import FunctionalExtensionality.
Import ListNotations.

Set Implicit Arguments.

(** ** Numbers *)

Class Number (num : Type) : Type := {
  of_Z : Z -> num;
  nadd : num -> num -> num;
  nsub : num -> num -> num;
  nmul : num -> num -> num;
  ndiv : num -> num -> num;
  nopp : num -> num;
  nabs : num -> num;          (* Math.abs *)
  nltb : num -> num -> bool;  (* a < b *)
  nleb : num -> num -> bool   (* a <= b *)
}.

(** The part of the host's [Math] object, and the remainder operator, that
    only the snapping and hit-testing code uses. *)
Class Trig (num : Type) : Type := {
  Math_PI : num;
  Math_atan2 : num -> num -> num;
  Math_cos : num -> num;
  Math_sin : num -> num;
  nrem : num -> num -> num    (* a % b *)
}.

(** The conversion of a number to the Web IDL type [unsigned long], the
    type of the [width] and [height] attributes of a canvas: NaN and the
    infinities give 0, any other number its integer part (rounded towards
    zero) modulo 2^32. *)
Class WebIDL (num : Type) : Type := {
  toUnsignedLong : num -> Z
}.

Declare Scope js_scope.
Delimit Scope js_scope with js.
Notation "a + b" := (nadd a b) : js_scope.
Notation "a - b" := (nsub a b) : js_scope.
Notation "a * b" := (nmul a b) : js_scope.
Notation "a / b" := (ndiv a b) : js_scope.
Notation "- a" := (nopp a) : js_scope.
Notation "a <? b" := (nltb a b) : js_scope.
Notation "a <=? b" := (nleb a b) : js_scope.
Notation "a >? b" := (nltb b a) : js_scope.
Notation "a >=? b" := (nleb b a) : js_scope.
Notation "a % b" := (nrem a b) (at level 40, left associativity) : js_scope.
Notation "# z" := (of_Z z%Z) (at level 1, format "# z") : js_scope.

(** ** Data model *)

Definition ref := nat.

Module Point.
Record t (num : Type) : Type := mk { x : num; y : num }.
Arguments mk {num}.
Arguments x {num}.
Arguments y {num}.
End Point.

(** [HTMLCanvasElement]: its bounding client rectangle and its pixel size. *)
Module Canvas.
Record t (num : Type) : Type := mk {
  left : num; top : num; rect_width : num; rect_height : num;
  width : num; height : num }.
Arguments mk {num}.
Arguments left {num}.
Arguments top {num}.
Arguments rect_width {num}.
Arguments rect_height {num}.
Arguments width {num}.
Arguments height {num}.
End Canvas.

Module ImageElement.
Record t (num : Type) : Type := mk {
  img : nat;   (* the HTMLImageElement, an opaque handle *)
  x : num; y : num; width : num; height : num; rotation : num }.
Arguments mk {num}.
Arguments img {num}.
Arguments x {num}.
Arguments y {num}.
Arguments width {num}.
Arguments height {num}.
Arguments rotation {num}.
End ImageElement.

(** [Partial<ImageElement>]: every field may be absent. *)
Module PartialImage.
Record t (num : Type) : Type := mk {
  img : option nat;
  x : option num; y : option num; width : option num; height : option num;
  rotation : option num }.
Arguments mk {num}.
Arguments img {num}.
Arguments x {num}.
Arguments y {num}.
Arguments width {num}.
Arguments height {num}.
Arguments rotation {num}.
End PartialImage.

Module ActionType.
Inductive t : Set :=
  path | image | deleteImage | addImage | moveImage | resizeImage | rotateImage.
End ActionType.

Module DrawAction.
Record t (num : Type) : Type := mk {
  type : ActionType.t;
  path : option (list (Point.t num));
  color : option string;
  lineWidth : option num;
  isEraser : option bool;
  image : option ref;
  oldState : option (PartialImage.t num);
  newState : option (PartialImage.t num) }.
Arguments mk {num}.
Arguments type {num}.
Arguments path {num}.
Arguments color {num}.
Arguments lineWidth {num}.
Arguments isEraser {num}.
Arguments image {num}.
Arguments oldState {num}.
Arguments newState {num}.
End DrawAction.

Section Engine.

Context {num : Type} {N : Number num}.
Local Open Scope js_scope.

Local Abbreviation Point := (Point.t num).
Local Abbreviation ImageElement := (ImageElement.t num).
Local Abbreviation PartialImage := (PartialImage.t num).
Local Abbreviation DrawAction := (DrawAction.t num).

(** The fields of [DrawingComponent], with the object store. *)
Record State : Type := mkState {
  canvasRef : option (Canvas.t num);
  isDrawing : bool;
  actions : list DrawAction;
  redoActions : list DrawAction;
  currentPath : list Point;
  currentColor : string;
  isEraser : bool;
  brushSize : num;
  backgroundColor : string;
  isShiftPressed : bool;
  lineStartPoint : option Point;
  linePreview : option (Point * Point);
  isLineDrawingMode : bool;
  images : list ref;
  selectedImage : option ref;
  isDraggingImage : bool;
  isResizingImage : bool;
  isRotatingImage : bool;
  dragStartX : num;
  dragStartY : num;
  heap : ref -> ImageElement;
  nextRef : ref
}.

(** Assignment to a field: [set_f v s] is [s] after [this.f = v]. *)
Definition set_isDrawing (v : bool) (s : State) : State :=
  mkState (canvasRef s) v (actions s) (redoActions s) (currentPath s)
    (currentColor s) (isEraser s) (brushSize s) (backgroundColor s)
    (isShiftPressed s) (lineStartPoint s) (linePreview s)
    (isLineDrawingMode s) (images s) (selectedImage s) (isDraggingImage s)
    (isResizingImage s) (isRotatingImage s) (dragStartX s) (dragStartY s)
    (heap s) (nextRef s).
Definition set_actions (v : list DrawAction) (s : State) : State :=
  mkState (canvasRef s) (isDrawing s) v (redoActions s) (currentPath s)
    (currentColor s) (isEraser s) (brushSize s) (backgroundColor s)
    (isShiftPressed s) (lineStartPoint s) (linePreview s)
    (isLineDrawingMode s) (images s) (selectedImage s) (isDraggingImage s)
    (isResizingImage s) (isRotatingImage s) (dragStartX s) (dragStartY s)
    (heap s) (nextRef s).
Definition set_redoActions (v : list DrawAction) (s : State) : State :=
  mkState (canvasRef s) (isDrawing s) (actions s) v (currentPath s)
    (currentColor s) (isEraser s) (brushSize s) (backgroundColor s)
    (isShiftPressed s) (lineStartPoint s) (linePreview s)
    (isLineDrawingMode s) (images s) (selectedImage s) (isDraggingImage s)
    (isResizingImage s) (isRotatingImage s) (dragStartX s) (dragStartY s)
    (heap s) (nextRef s).
Definition set_currentPath (v : list Point) (s : State) : State :=
  mkState (canvasRef s) (isDrawing s) (actions s) (redoActions s) v
    (currentColor s) (isEraser s) (brushSize s) (backgroundColor s)
    (isShiftPressed s) (lineStartPoint s) (linePreview s)
    (isLineDrawingMode s) (images s) (selectedImage s) (isDraggingImage s)
    (isResizingImage s) (isRotatingImage s) (dragStartX s) (dragStartY s)
    (heap s) (nextRef s).
Definition set_lineStartPoint (v : option Point) (s : State) : State :=
  mkState (canvasRef s) (isDrawing s) (actions s) (redoActions s)
    (currentPath s) (currentColor s) (isEraser s) (brushSize s)
    (backgroundColor s) (isShiftPressed s) v (linePreview s)
    (isLineDrawingMode s) (images s) (selectedImage s) (isDraggingImage s)
    (isResizingImage s) (isRotatingImage s) (dragStartX s) (dragStartY s)
    (heap s) (nextRef s).
Definition set_linePreview (v : option (Point * Point)) (s : State) : State :=
  mkState (canvasRef s) (isDrawing s) (actions s) (redoActions s)
    (currentPath s) (currentColor s) (isEraser s) (brushSize s)
    (backgroundColor s) (isShiftPressed s) (lineStartPoint s) v
    (isLineDrawingMode s) (images s) (selectedImage s) (isDraggingImage s)
    (isResizingImage s) (isRotatingImage s) (dragStartX s) (dragStartY s)
    (heap s) (nextRef s).
Definition set_isLineDrawingMode (v : bool) (s : State) : State :=
  mkState (canvasRef s) (isDrawing s) (actions s) (redoActions s)
    (currentPath s) (currentColor s) (isEraser s) (brushSize s)
    (backgroundColor s) (isShiftPressed s) (lineStartPoint s) (linePreview s)
    v (images s) (selectedImage s) (isDraggingImage s) (isResizingImage s)
    (isRotatingImage s) (dragStartX s) (dragStartY s) (heap s) (nextRef s).
Definition set_images (v : list ref) (s : State) : State :=
  mkState (canvasRef s) (isDrawing s) (actions s) (redoActions s)
    (currentPath s) (currentColor s) (isEraser s) (brushSize s)
    (backgroundColor s) (isShiftPressed s) (lineStartPoint s) (linePreview s)
    (isLineDrawingMode s) v (selectedImage s) (isDraggingImage s)
    (isResizingImage s) (isRotatingImage s) (dragStartX s) (dragStartY s)
    (heap s) (nextRef s).
Definition set_selectedImage (v : option ref) (s : State) : State :=
  mkState (canvasRef s) (isDrawing s) (actions s) (redoActions s)
    (currentPath s) (currentColor s) (isEraser s) (brushSize s)
    (backgroundColor s) (isShiftPressed s) (lineStartPoint s) (linePreview s)
    (isLineDrawingMode s) (images s) v (isDraggingImage s)
    (isResizingImage s) (isRotatingImage s) (dragStartX s) (dragStartY s)
    (heap s) (nextRef s).
Definition set_isDraggingImage (v : bool) (s : State) : State :=
  mkState (canvasRef s) (isDrawing s) (actions s) (redoActions s)
    (currentPath s) (currentColor s) (isEraser s) (brushSize s)
    (backgroundColor s) (isShiftPressed s) (lineStartPoint s) (linePreview s)
    (isLineDrawingMode s) (images s) (selectedImage s) v (isResizingImage s)
    (isRotatingImage s) (dragStartX s) (dragStartY s) (heap s) (nextRef s).
Definition set_isResizingImage (v : bool) (s : State) : State :=
  mkState (canvasRef s) (isDrawing s) (actions s) (redoActions s)
    (currentPath s) (currentColor s) (isEraser s) (brushSize s)
    (backgroundColor s) (isShiftPressed s) (lineStartPoint s) (linePreview s)
    (isLineDrawingMode s) (images s) (selectedImage s) (isDraggingImage s) v
    (isRotatingImage s) (dragStartX s) (dragStartY s) (heap s) (nextRef s).
Definition set_isRotatingImage (v : bool) (s : State) : State :=
  mkState (canvasRef s) (isDrawing s) (actions s) (redoActions s)
    (currentPath s) (currentColor s) (isEraser s) (brushSize s)
    (backgroundColor s) (isShiftPressed s) (lineStartPoint s) (linePreview s)
    (isLineDrawingMode s) (images s) (selectedImage s) (isDraggingImage s)
    (isResizingImage s) v (dragStartX s) (dragStartY s) (heap s) (nextRef s)
    .
Definition set_heap (v : ref -> ImageElement) (s : State) : State :=
  mkState (canvasRef s) (isDrawing s) (actions s) (redoActions s)
    (currentPath s) (currentColor s) (isEraser s) (brushSize s)
    (backgroundColor s) (isShiftPressed s) (lineStartPoint s) (linePreview s)
    (isLineDrawingMode s) (images s) (selectedImage s) (isDraggingImage s)
    (isResizingImage s) (isRotatingImage s) (dragStartX s) (dragStartY s) v
    (nextRef s).
Definition set_nextRef (v : ref) (s : State) : State :=
  mkState (canvasRef s) (isDrawing s) (actions s) (redoActions s)
    (currentPath s) (currentColor s) (isEraser s) (brushSize s)
    (backgroundColor s) (isShiftPressed s) (lineStartPoint s) (linePreview s)
    (isLineDrawingMode s) (images s) (selectedImage s) (isDraggingImage s)
    (isResizingImage s) (isRotatingImage s) (dragStartX s) (dragStartY s)
    (heap s) v.

(** ** Arrays and objects *)

(** [a.pop()]: the last element and the remaining array. *)
Fixpoint pop {A : Type} (l : list A) : option (A * list A) :=
  match l with
  | [] => None
  | a :: t =>
      match pop t with
      | None => Some (a, [])
      | Some (b, t') => Some (b, a :: t')
      end
  end.

Fixpoint indexOf_from (r : ref) (l : list ref) (i : Z) : Z :=
  match l with
  | [] => (-1)%Z
  | h :: t => if Nat.eqb h r then i else indexOf_from r t (i + 1)%Z
  end.

(** [a.indexOf(r)]: the first index holding the reference, or -1. *)
Definition indexOf (r : ref) (l : list ref) : Z := indexOf_from r l 0.

(** [a.splice(index, 1)] for an index that is not negative. *)
Definition splice1 {A : Type} (index : Z) (l : list A) : list A :=
  firstn (Z.to_nat index) l ++ skipn (S (Z.to_nat index)) l.

Definition or_else {A : Type} (o : option A) (d : A) : A :=
  match o with Some v => v | None => d end.

(** [Object.assign(target, source)] for a partial image. *)
Definition Object_assign (target : ImageElement) (source : PartialImage)
  : ImageElement :=
  ImageElement.mk
    (or_else (PartialImage.img source) (ImageElement.img target))
    (or_else (PartialImage.x source) (ImageElement.x target))
    (or_else (PartialImage.y source) (ImageElement.y target))
    (or_else (PartialImage.width source) (ImageElement.width target))
    (or_else (PartialImage.height source) (ImageElement.height target))
    (or_else (PartialImage.rotation source) (ImageElement.rotation target)).

Definition heap_set (r : ref) (v : ImageElement) (h : ref -> ImageElement)
  : ref -> ImageElement :=
  fun r' => if Nat.eqb r' r then v else h r'.

(** The object literals of the program. *)
Definition pathAction (p : list Point) (c : string) (w : num) (e : bool)
  : DrawAction :=
  DrawAction.mk ActionType.path (Some p) (Some c) (Some w) (Some e)
    None None None.

Definition imageAction (ty : ActionType.t) (im : ref) : DrawAction :=
  DrawAction.mk ty None None None None (Some im) None None.

Definition transformAction (ty : ActionType.t) (im : ref)
  (old new : PartialImage) : DrawAction :=
  DrawAction.mk ty None None None None (Some im) (Some old) (Some new).

Definition sizeState (w h : num) : PartialImage :=
  PartialImage.mk None None None (Some w) (Some h) None.

Definition rotationState (a : num) : PartialImage :=
  PartialImage.mk None None None None None (Some a).

(** ** Overlay creation and deletion *)

(** [handleImageUpload]: the [img.onload] callback, run when the file has
    been decoded into the image [im] of size [w] by [h]. *)
Definition handleImageUpload (im : nat) (w h : num) (s : State) : State :=
  let imageElement := ImageElement.mk im #0 #0 w h #0 in
  let r := nextRef s in
  set_images (images s ++ [r])
    (set_heap (heap_set r imageElement (heap s))
       (set_nextRef (S r) s)).

Definition deleteImage (image : ref) (s : State) : State :=
  let index := indexOf image (images s) in
  if (-1 <? index)%Z then
    set_selectedImage None
      (set_redoActions []
         (set_actions (actions s ++ [imageAction ActionType.deleteImage image])
            (set_images (splice1 index (images s)) s)))
  else s.

Definition duplicateImage (s : State) : State :=
  match selectedImage s with
  | Some sel =>
      let o := heap s sel in
      let newImage :=
        ImageElement.mk (ImageElement.img o)
          (ImageElement.x o + #20) (ImageElement.y o + #20)
          (ImageElement.width o) (ImageElement.height o)
          (ImageElement.rotation o) in
      let r := nextRef s in
      set_redoActions []
        (set_actions (actions s ++ [imageAction ActionType.addImage r])
           (set_images (images s ++ [r])
              (set_heap (heap_set r newImage (heap s))
                 (set_nextRef (S r) s))))
  | None => s
  end.

(** ** History *)

Definition undo (s : State) : State :=
  match pop (actions s) with
  | None => s
  | Some (action, rest) =>
      let s1 := set_redoActions (redoActions s ++ [action])
                  (set_actions rest s) in
      match DrawAction.type action with
      | ActionType.path => s1
      | ActionType.addImage =>
          match DrawAction.image action with
          | Some im =>
              let index := indexOf im (images s1) in
              if (-1 <? index)%Z
              then set_images (splice1 index (images s1)) s1
              else s1
          | None => s1
          end
      | ActionType.deleteImage =>
          match DrawAction.image action with
          | Some im => set_images (images s1 ++ [im]) s1
          | None => s1
          end
      | ActionType.moveImage | ActionType.resizeImage
      | ActionType.rotateImage =>
          match DrawAction.image action, DrawAction.oldState action with
          | Some im, Some old =>
              set_heap (heap_set im (Object_assign (heap s1 im) old) (heap s1))
                s1
          | _, _ => s1
          end
      | ActionType.image => s1
      end
  end.

Definition redo (s : State) : State :=
  match pop (redoActions s) with
  | None => s
  | Some (action, rest) =>
      let s1 := set_actions (actions s ++ [action])
                  (set_redoActions rest s) in
      match DrawAction.type action with
      | ActionType.path => s1
      | ActionType.addImage =>
          match DrawAction.image action with
          | Some im => set_images (images s1 ++ [im]) s1
          | None => s1
          end
      | ActionType.deleteImage =>
          match DrawAction.image action with
          | Some im =>
              let index := indexOf im (images s1) in
              if (-1 <? index)%Z
              then set_images (splice1 index (images s1)) s1
              else s1
          | None => s1
          end
      | ActionType.moveImage | ActionType.resizeImage
      | ActionType.rotateImage =>
          match DrawAction.image action, DrawAction.newState action with
          | Some im, Some new =>
              set_heap (heap_set im (Object_assign (heap s1 im) new) (heap s1))
                s1
          | _, _ => s1
          end
      | ActionType.image => s1
      end
  end.

(** [clearCanvas]: the [forEach] pushes one delete action per image, and
    the assignments that follow replace all three arrays. *)
Definition clearCanvas (s : State) : State :=
  let s1 :=
    fold_left
      (fun st image =>
         set_actions (actions st ++ [imageAction ActionType.deleteImage image])
           st)
      (images s) s in
  set_selectedImage None
    (set_redoActions [] (set_actions [] (set_images [] s1))).

(** ** Coordinates and freehand strokes *)

Definition getCanvasCoordinates (clientX clientY : num) (s : State)
  : option Point :=
  match canvasRef s with
  | None => None
  | Some canvas =>
      Some
        (Point.mk
           ((clientX - Canvas.left canvas) / Canvas.rect_width canvas)
           ((clientY - Canvas.top canvas) / Canvas.rect_height canvas))
  end.

Definition capturePoint (clientX clientY : num) (s : State) : State :=
  match canvasRef s with
  | None => s
  | Some canvas =>
      let x := (clientX - Canvas.left canvas) / Canvas.rect_width canvas in
      let y := (clientY - Canvas.top canvas) / Canvas.rect_height canvas in
      set_currentPath (currentPath s ++ [Point.mk x y]) s
  end.

(** The rendering context is taken to be initialised, as it is once the
    view exists. *)
Definition startDrawing (x y : num) (s : State) : State :=
  capturePoint x y (set_currentPath [] (set_isDrawing true s)).

(** [Math.pow(a, 2)]. *)
Definition Math_pow2 (a : num) : num := a * a.

Definition bezier (ctrl1 p1 ctrl2 : Point) (t : num) : Point :=
  Point.mk
    (Math_pow2 (#1 - t) * Point.x ctrl1 + #2 * (#1 - t) * t * Point.x p1
     + Math_pow2 t * Point.x ctrl2)
    (Math_pow2 (#1 - t) * Point.y ctrl1 + #2 * (#1 - t) * t * Point.y p1
     + Math_pow2 t * Point.y ctrl2).

(** The literal [0.1]. *)
Definition tStep : num := #1 / #10.

(** [for (let t = 0; t <= 1; t += 0.1) smoothPath.push(...)], started at
    [t]; [fuel] bounds the number of iterations. *)
Fixpoint sampleLoop (fuel : nat) (t : num) (ctrl1 p1 ctrl2 : Point)
  : list Point :=
  match fuel with
  | O => []
  | S fuel' =>
      if t <=? #1
      then bezier ctrl1 p1 ctrl2 t
             :: sampleLoop fuel' (t + tStep) ctrl1 p1 ctrl2
      else []
  end.

Definition origin : Point := Point.mk #0 #0.

(** The body of the loop over the interior index [i]. *)
Definition smoothSegment (fuel : nat) (points : list Point) (i : nat)
  : list Point :=
  let p0 := nth (i - 1) points origin in
  let p1 := nth i points origin in
  let p2 := nth (i + 1) points origin in
  let ctrl1 :=
    Point.mk (Point.x p0 + (Point.x p1 - Point.x p0) / #2)
             (Point.y p0 + (Point.y p1 - Point.y p0) / #2) in
  let ctrl2 :=
    Point.mk (Point.x p1 + (Point.x p2 - Point.x p1) / #2)
             (Point.y p1 + (Point.y p2 - Point.y p1) / #2) in
  sampleLoop fuel #0 ctrl1 p1 ctrl2.

Definition createSmoothPath (fuel : nat) (points : list Point) : list Point :=
  if (List.length points <? 3)%nat then points
  else
    [nth 0 points origin]
      ++ flat_map (smoothSegment fuel points) (seq 1 (List.length points - 2))
      ++ [nth (List.length points - 1) points origin].

(** Iterations allowed to the sampling loop of [createSmoothPath] when it is
    called from the component; eleven are used (see [sampleLoop_R]). *)
Definition sampleFuel : nat := 64.

Definition stopDrawing (s : State) : State :=
  if isDrawing s then
    let s1 := set_isDrawing false s in
    let s2 :=
      if (1 <? List.length (currentPath s1))%nat then
        let smoothPath := createSmoothPath sampleFuel (currentPath s1) in
        set_redoActions []
          (set_actions
             (actions s1
                ++ [pathAction smoothPath
                      (if isEraser s1 then backgroundColor s1
                       else currentColor s1)
                      (brushSize s1) (isEraser s1)])
             s1)
      else s1 in
    set_currentPath [] s2
  else s.

(** ** Overlay transforms *)

Definition resizeSelectedImage (x y : num) (s : State) : option State :=
  match selectedImage s with
  | Some sel =>
      match canvasRef s with
      | None => None
      | Some canvas =>
          let o := heap s sel in
          let oldState :=
            sizeState (ImageElement.width o) (ImageElement.height o) in
          let newWidth := x * Canvas.width canvas - ImageElement.x o in
          let aspectRatio := ImageElement.width o / ImageElement.height o in
          let newHeight := newWidth / aspectRatio in
          if (newWidth >? #20) && (newHeight >? #20) then
            let o' :=
              ImageElement.mk (ImageElement.img o) (ImageElement.x o)
                (ImageElement.y o) newWidth newHeight
                (ImageElement.rotation o) in
            Some
              (set_redoActions []
                 (set_actions
                    (actions s
                       ++ [transformAction ActionType.resizeImage sel oldState
                             (sizeState newWidth newHeight)])
                    (set_heap (heap_set sel o' (heap s)) s)))
          else Some s
      end
  | None => Some s
  end.

Definition flipImage (horizontal : bool) (s : State) : State :=
  match selectedImage s with
  | Some sel =>
      let o := heap s sel in
      let oldState :=
        sizeState (ImageElement.width o) (ImageElement.height o) in
      let o' :=
        if horizontal then
          ImageElement.mk (ImageElement.img o) (ImageElement.x o)
            (ImageElement.y o) (- ImageElement.width o)
            (ImageElement.height o) (ImageElement.rotation o)
        else
          ImageElement.mk (ImageElement.img o) (ImageElement.x o)
            (ImageElement.y o) (ImageElement.width o)
            (- ImageElement.height o) (ImageElement.rotation o) in
      set_redoActions []
        (set_actions
           (actions s
              ++ [transformAction ActionType.resizeImage sel oldState
                    (sizeState (ImageElement.width o')
                       (ImageElement.height o'))])
           (set_heap (heap_set sel o' (heap s)) s))
  | None => s
  end.

(** ** Snapping, rotation and handle hit-testing *)

Context {T : Trig num}.

Definition HORIZONTAL_SNAP_THRESHOLD : num := #5.
Definition VERTICAL_SNAP_THRESHOLD : num := #2.
Definition HORIZONTAL_SNAP_DISTANCE_THRESHOLD : num := #2 / #100.
Definition VERTICAL_SNAP_DISTANCE_THRESHOLD : num := #2 / #100.

Definition getSnappedEndPoint (start end_ : Point) : Point :=
  let dx := Point.x end_ - Point.x start in
  let dy := Point.y end_ - Point.y start in
  let angle := (Math_atan2 dy dx * #180 / Math_PI + #360) % #360 in
  if ((angle <? HORIZONTAL_SNAP_THRESHOLD)
      || (nabs (angle - #180) <? HORIZONTAL_SNAP_THRESHOLD))
     && (nabs dy <? HORIZONTAL_SNAP_DISTANCE_THRESHOLD)
  then Point.mk (Point.x end_) (Point.y start)
  else if ((nabs (angle - #90) <? VERTICAL_SNAP_THRESHOLD)
           || (nabs (angle - #270) <? VERTICAL_SNAP_THRESHOLD))
          && (nabs dx <? VERTICAL_SNAP_DISTANCE_THRESHOLD)
  then Point.mk (Point.x start) (Point.y end_)
  else end_.

(** The pointer, turned back by the image's rotation about the image's
    centre: the [rotatedX], [rotatedY] of the three handle tests. *)
Definition rotatedX (canvas : Canvas.t num) (x y : num) (image : ImageElement)
  : num :=
  let centerX :=
    (ImageElement.x image + ImageElement.width image / #2)
    / Canvas.width canvas in
  let centerY :=
    (ImageElement.y image + ImageElement.height image / #2)
    / Canvas.height canvas in
  Math_cos (- ImageElement.rotation image * Math_PI / #180) * (x - centerX)
  - Math_sin (- ImageElement.rotation image * Math_PI / #180) * (y - centerY)
  + centerX.

Definition rotatedY (canvas : Canvas.t num) (x y : num) (image : ImageElement)
  : num :=
  let centerX :=
    (ImageElement.x image + ImageElement.width image / #2)
    / Canvas.width canvas in
  let centerY :=
    (ImageElement.y image + ImageElement.height image / #2)
    / Canvas.height canvas in
  Math_sin (- ImageElement.rotation image * Math_PI / #180) * (x - centerX)
  + Math_cos (- ImageElement.rotation image * Math_PI / #180) * (y - centerY)
  + centerY.

(** The handle tests read the canvas element and the image object; both
    are arguments here. *)
Definition isResizeHandle (canvas : Canvas.t num) (x y : num)
  (image : ImageElement) : bool :=
  let handleSize := #16 in
  let imageRight :=
    (ImageElement.x image + ImageElement.width image) / Canvas.width canvas in
  let imageBottom :=
    (ImageElement.y image + ImageElement.height image)
    / Canvas.height canvas in
  (rotatedX canvas x y image >=? imageRight - handleSize / Canvas.width canvas)
  && (rotatedX canvas x y image
      <=? imageRight + handleSize / Canvas.width canvas)
  && (rotatedY canvas x y image
      >=? imageBottom - handleSize / Canvas.height canvas)
  && (rotatedY canvas x y image
      <=? imageBottom + handleSize / Canvas.height canvas).

Definition isRotateHandle (canvas : Canvas.t num) (x y : num)
  (image : ImageElement) : bool :=
  let handleSize := #30 in
  let imageRight :=
    (ImageElement.x image + ImageElement.width image) / Canvas.width canvas in
  let imageTop := ImageElement.y image / Canvas.height canvas in
  (rotatedX canvas x y image >=? imageRight - handleSize / Canvas.width canvas)
  && (rotatedX canvas x y image
      <=? imageRight + handleSize / Canvas.width canvas)
  && (rotatedY canvas x y image
      >=? imageTop - handleSize / Canvas.height canvas)
  && (rotatedY canvas x y image
      <=? imageTop + handleSize / Canvas.height canvas).

Definition isDeleteHandle (canvas : Canvas.t num) (x y : num)
  (image : ImageElement) : bool :=
  let handleSize := #16 in
  let imageLeft := ImageElement.x image / Canvas.width canvas in
  let imageTop := ImageElement.y image / Canvas.height canvas in
  (rotatedX canvas x y image >=? imageLeft - handleSize / Canvas.width canvas)
  && (rotatedX canvas x y image
      <=? imageLeft + handleSize / Canvas.width canvas)
  && (rotatedY canvas x y image
      >=? imageTop - handleSize / Canvas.height canvas)
  && (rotatedY canvas x y image
      <=? imageTop + handleSize / Canvas.height canvas).

Definition rotateSelectedImage (x y : num) (s : State) : option State :=
  match selectedImage s with
  | Some sel =>
      match canvasRef s with
      | None => None
      | Some canvas =>
          let o := heap s sel in
          let centerX := ImageElement.x o + ImageElement.width o / #2 in
          let centerY := ImageElement.y o + ImageElement.height o / #2 in
          let oldRotation := ImageElement.rotation o in
          let angle :=
            Math_atan2 (y * Canvas.height canvas - centerY)
                       (x * Canvas.width canvas - centerX) in
          let newRotation := angle * (#180 / Math_PI) in
          let o' :=
            ImageElement.mk (ImageElement.img o) (ImageElement.x o)
              (ImageElement.y o) (ImageElement.width o)
              (ImageElement.height o) newRotation in
          Some
            (set_redoActions []
               (set_actions
                  (actions s
                     ++ [transformAction ActionType.rotateImage sel
                           (rotationState oldRotation)
                           (rotationState newRotation)])
                  (set_heap (heap_set sel o' (heap s)) s)))
      end
  | None => Some s
  end.

Definition onMouseUp (clientX clientY : num) (s : State) : option State :=
  let s1 :=
    set_isRotatingImage false
      (set_isResizingImage false (set_isDraggingImage false s)) in
  match isLineDrawingMode s1, lineStartPoint s1 with
  | true, Some start =>
      match getCanvasCoordinates clientX clientY s1 with
      | None => None
      | Some p =>
          let snappedEnd := getSnappedEndPoint start p in
          Some
            (set_isLineDrawingMode false
               (set_linePreview None
                  (set_lineStartPoint None
                     (set_actions
                        (actions s1
                           ++ [pathAction [start; snappedEnd]
                                 (currentColor s1) (brushSize s1) false])
                        s1))))
      end
  | _, _ => Some (stopDrawing s1)
  end.

(** ** Edits that commit a command *)

(** The handlers through which the user commits a command: releasing the
    pointer (which ends a line or a freehand stroke), deleting an image,
    resizing, rotating, flipping or duplicating the selected image.  The
    touch handlers run the same code as the mouse handlers. *)
Inductive Edit : Type :=
| EMouseUp (clientX clientY : num)
| EDelete (image : ref)
| EResize (x y : num)
| ERotate (x y : num)
| EFlip (horizontal : bool)
| EDuplicate.

Definition runEdit (e : Edit) (s : State) : option State :=
  match e with
  | EMouseUp clientX clientY => onMouseUp clientX clientY s
  | EDelete image => Some (deleteImage image s)
  | EResize x y => resizeSelectedImage x y s
  | ERotate x y => rotateSelectedImage x y s
  | EFlip horizontal => Some (flipImage horizontal s)
  | EDuplicate => Some (duplicateImage s)
  end.

(** Two states with the same document: the image list, the image objects
    and both history stacks.  Everything else (selection, stroke in
    progress, line mode, flags) is transient and changes between commits. *)
Definition sameDocument (s t : State) : Prop :=
  images s = images t /\ heap s = heap t /\ nextRef s = nextRef t
  /\ actions s = actions t /\ redoActions s = redoActions t.

(** [committed cmds s s']: from [s], a sequence of edits, each of which
    pushed exactly one command, led to [s'], and [cmds] are the commands
    pushed, in order. *)
Inductive committed : list DrawAction -> State -> State -> Prop :=
| committed_nil : forall s, committed [] s s
| committed_snoc : forall cmds a s t t' e s',
    committed cmds s t ->
    sameDocument t t' ->
    runEdit e t' = Some s' ->
    actions s' = actions t' ++ [a] ->
    committed (cmds ++ [a]) s s'.

(** [u] holds the document of [t] up to the order of the image list. *)
Definition agrees (t u : State) : Prop :=
  actions u = actions t
  /\ Permutation (images u) (images t)
  /\ (forall r, (r < nextRef t)%nat -> heap u r = heap t r).

(** [o'] differs from [o] in its width and height at most. *)
Definition sameButSize (o o' : ImageElement) : Prop :=
  ImageElement.img o' = ImageElement.img o
  /\ ImageElement.x o' = ImageElement.x o
  /\ ImageElement.y o' = ImageElement.y o
  /\ ImageElement.rotation o' = ImageElement.rotation o.

(** From store [h] to store [h'], only the size of image [im] may change. *)
Definition touchesSizeOnly (im : ref) (h h' : ref -> ImageElement) : Prop :=
  forall r, sameButSize (h r) (h' r) /\ (r <> im -> h' r = h r).

(** The component as constructed, with the canvas of the view. *)
Definition initialState (canvas : option (Canvas.t num)) : State :=
  mkState canvas false [] [] [] "#000000" false #2 "#FFFFFF" false None None
    false [] None false false false #0 #0
    (fun _ => ImageElement.mk 0%nat #0 #0 #0 #0 #0) 0%nat.

End Engine.

Arguments State : clear implicits.
Arguments Edit : clear implicits.

(** ** The two arithmetics *)

(** *** Real numbers *)

Definition Rltb (a b : R) : bool := if Rlt_dec a b then true else false.
Definition Rleb (a b : R) : bool := if Rle_dec a b then true else false.

#[export] Instance R_Number : Number R := {|
  of_Z := IZR;
  nadd := Rplus; nsub := Rminus; nmul := Rmult; ndiv := Rdiv;
  nopp := Ropp; nabs := Rabs;
  nltb := Rltb; nleb := Rleb
|}.

(** [Math.atan2(y, x)]: the angle of the point [(x, y)], in (-PI, PI]. *)
Definition R_atan2 (y x : R) : R :=
  if Rlt_dec 0 x then atan (y / x)
  else if Rlt_dec x 0 then
    if Rle_dec 0 y then atan (y / x) + PI else atan (y / x) - PI
  else if Rlt_dec 0 y then PI / 2
  else if Rlt_dec y 0 then - PI / 2
  else 0.

(** Rounding towards zero. *)
Definition Rtrunc (r : R) : Z :=
  if Rle_dec 0 r then Int_part r else (- Int_part (- r))%Z.

(** The remainder [a % b], with the sign of the dividend. *)
Definition R_rem (a b : R) : R := a - b * IZR (Rtrunc (a / b)).

#[export] Instance R_Trig : Trig R := {|
  Math_PI := PI;
  Math_atan2 := R_atan2;
  Math_cos := cos;
  Math_sin := sin;
  nrem := R_rem
|}.

#[export] Instance R_WebIDL : WebIDL R := {|
  toUnsignedLong := fun v => (Rtrunc v mod 2 ^ 32)%Z
|}.

(** *** IEEE-754 binary64 *)

Fixpoint float_of_pos (p : positive) : float :=
  match p with
  | xH => 1%float
  | xO q => PrimFloat.mul 2%float (float_of_pos q)
  | xI q => PrimFloat.add (PrimFloat.mul 2%float (float_of_pos q)) 1%float
  end.

Definition float_of_Z (z : Z) : float :=
  match z with
  | Z0 => 0%float
  | Zpos p => float_of_pos p
  | Zneg p => PrimFloat.opp (float_of_pos p)
  end.

#[export] Instance float_Number : Number float := {|
  of_Z := float_of_Z;
  nadd := PrimFloat.add; nsub := PrimFloat.sub;
  nmul := PrimFloat.mul; ndiv := PrimFloat.div;
  nopp := PrimFloat.opp; nabs := PrimFloat.abs;
  nltb := PrimFloat.ltb; nleb := PrimFloat.leb
|}.

(** A finite binary64 number is [m * 2^e], with the sign [sg]. *)
Definition float_toUnsignedLong (f : float) : Z :=
  match Prim2SF f with
  | S754_finite sg m e =>
      let a :=
        if (0 <=? e)%Z then Z.shiftl (Zpos m) e
        else Z.shiftr (Zpos m) (- e) in
      ((if sg then - a else a) mod 2 ^ 32)%Z
  | _ => 0%Z
  end.

#[export] Instance float_WebIDL : WebIDL float := {|
  toUnsignedLong := float_toUnsignedLong
|}.

(** ** The smoothed path in the specification's words

    Over the reals: for each interior point, eleven samples, at the
    parameters 0, 0.1, ..., 1, of the quadratic Bezier curve that runs
    from the midpoint of the segment before the point, through the point,
    to the midpoint of the segment after it; the first and the last input
    point close the path on either side. *)

Definition midpoint (p q : Point.t R) : Point.t R :=
  Point.mk ((Point.x p + Point.x q) / 2)%R ((Point.y p + Point.y q) / 2)%R.

Definition quadraticBezier (c1 p c2 : Point.t R) (t : R) : Point.t R :=
  Point.mk
    ((1 - t) ^ 2 * Point.x c1 + 2 * (1 - t) * t * Point.x p
     + t ^ 2 * Point.x c2)%R
    ((1 - t) ^ 2 * Point.y c1 + 2 * (1 - t) * t * Point.y p
     + t ^ 2 * Point.y c2)%R.

Definition segmentSamples (p0 p1 p2 : Point.t R) : list (Point.t R) :=
  map (fun k => quadraticBezier (midpoint p0 p1) p1 (midpoint p1 p2)
                  (INR k / 10)%R)
      (seq 0 11).

Definition smoothPathSpec (points : list (Point.t R)) : list (Point.t R) :=
  if (List.length points <? 3)%nat then points
  else
    [hd origin points]
      ++ flat_map
           (fun i => segmentSamples (nth (i - 1) points origin)
                       (nth i points origin) (nth (i + 1) points origin))
           (seq 1 (List.length points - 2))
      ++ [last points origin].

(** ** States used as examples *)

Definition exampleCanvas : Canvas.t R :=
  Canvas.mk 0%R 0%R 800%R 600%R 800%R 600%R.

(** Two images have been loaded. *)
Definition twoImages : State R :=
  handleImageUpload 1%nat 100%R 100%R
    (handleImageUpload 0%nat 100%R 100%R (initialState (Some exampleCanvas))).

(** An image of 200 by 100 pixels at (100, 100), not rotated. *)
Definition exampleImage : ImageElement.t R :=
  ImageElement.mk 0%nat 100%R 100%R 200%R 100%R 0%R.

(** The first of the two images is selected. *)
Definition firstSelected : State R := set_selectedImage (Some 0%nat) twoImages.

(** A freehand stroke of two points has been drawn and undone: it lies on
    the redo stack. *)
Definition strokeUndone : State R :=
  undo
    (stopDrawing
       (capturePoint 200%R 150%R
          (startDrawing 100%R 100%R (initialState (Some exampleCanvas))))).

(** The command of that stroke. *)
Definition undoneStroke : DrawAction.t R :=
  pathAction
    [Point.mk ((100 - 0) / 800)%R ((100 - 0) / 600)%R;
     Point.mk ((200 - 0) / 800)%R ((150 - 0) / 600)%R]
    "#000000" 2%R false.

(** Then, with Shift held, the pointer went down at (200, 150): the
    component is in line mode, the start of the line recorded. *)
Definition lineStarted : State R :=
  set_isLineDrawingMode true
    (set_lineStartPoint (Some (Point.mk (1 / 4)%R (1 / 4)%R)) strokeUndone).


(** In binary64: an image of 100 by 100 pixels has been loaded on a canvas
    of 800 by 600 pixels and is selected. *)
Definition floatSelected : State float :=
  set_selectedImage (Some 0%nat)
    (handleImageUpload 0%nat 100%float 100%float
       (initialState
          (Some (Canvas.mk 0%float 0%float 800%float 600%float
                   800%float 600%float)))).

(** ** The remaining handlers of the component *)

(** Calls on a [CanvasRenderingContext2D], in the order they are made. *)
Module CanvasCall.
Inductive t (num : Type) : Type :=
| beginPath
| moveTo (x y : num)
| quadraticCurveTo (cpx cpy x y : num)
| lineTo (x y : num)
| strokeStyle (color : string)
| lineWidth (w : num)
| lineCap (cap : string)
| lineJoin (join : string)
| globalCompositeOperation (op : string)
| stroke.
Arguments beginPath {num}.
Arguments moveTo {num}.
Arguments quadraticCurveTo {num}.
Arguments lineTo {num}.
Arguments strokeStyle {num}.
Arguments lineWidth {num}.
Arguments lineCap {num}.
Arguments lineJoin {num}.
Arguments globalCompositeOperation {num}.
Arguments stroke {num}.
End CanvasCall.

Module Direction.
Inductive t : Set := up | down.
End Direction.

Section Handlers.

Context {num : Type} {N : Number num} {T : Trig num} {W : WebIDL num}.
Local Open Scope js_scope.

Definition set_canvasRef (v : option (Canvas.t num)) (s : State num)
  : State num :=
  mkState v (isDrawing s) (actions s) (redoActions s) (currentPath s)
    (currentColor s) (isEraser s) (brushSize s) (backgroundColor s)
    (isShiftPressed s) (lineStartPoint s) (linePreview s)
    (isLineDrawingMode s) (images s) (selectedImage s) (isDraggingImage s)
    (isResizingImage s) (isRotatingImage s) (dragStartX s) (dragStartY s)
    (heap s) (nextRef s).
Definition set_currentColor (v : string) (s : State num) : State num :=
  mkState (canvasRef s) (isDrawing s) (actions s) (redoActions s)
    (currentPath s) v (isEraser s) (brushSize s) (backgroundColor s)
    (isShiftPressed s) (lineStartPoint s) (linePreview s)
    (isLineDrawingMode s) (images s) (selectedImage s) (isDraggingImage s)
    (isResizingImage s) (isRotatingImage s) (dragStartX s) (dragStartY s)
    (heap s) (nextRef s).
Definition set_isEraser (v : bool) (s : State num) : State num :=
  mkState (canvasRef s) (isDrawing s) (actions s) (redoActions s)
    (currentPath s) (currentColor s) v (brushSize s) (backgroundColor s)
    (isShiftPressed s) (lineStartPoint s) (linePreview s)
    (isLineDrawingMode s) (images s) (selectedImage s) (isDraggingImage s)
    (isResizingImage s) (isRotatingImage s) (dragStartX s) (dragStartY s)
    (heap s) (nextRef s).
Definition set_isShiftPressed (v : bool) (s : State num) : State num :=
  mkState (canvasRef s) (isDrawing s) (actions s) (redoActions s)
    (currentPath s) (currentColor s) (isEraser s) (brushSize s)
    (backgroundColor s) v (lineStartPoint s) (linePreview s)
    (isLineDrawingMode s) (images s) (selectedImage s) (isDraggingImage s)
    (isResizingImage s) (isRotatingImage s) (dragStartX s) (dragStartY s)
    (heap s) (nextRef s).
Definition set_dragStartX (v : num) (s : State num) : State num :=
  mkState (canvasRef s) (isDrawing s) (actions s) (redoActions s)
    (currentPath s) (currentColor s) (isEraser s) (brushSize s)
    (backgroundColor s) (isShiftPressed s) (lineStartPoint s) (linePreview s)
    (isLineDrawingMode s) (images s) (selectedImage s) (isDraggingImage s)
    (isResizingImage s) (isRotatingImage s) v (dragStartY s)
    (heap s) (nextRef s).
Definition set_dragStartY (v : num) (s : State num) : State num :=
  mkState (canvasRef s) (isDrawing s) (actions s) (redoActions s)
    (currentPath s) (currentColor s) (isEraser s) (brushSize s)
    (backgroundColor s) (isShiftPressed s) (lineStartPoint s) (linePreview s)
    (isLineDrawingMode s) (images s) (selectedImage s) (isDraggingImage s)
    (isResizingImage s) (isRotatingImage s) (dragStartX s) v
    (heap s) (nextRef s).

(** *** Tools *)

Definition selectColor (color : string) (s : State num) : State num :=
  set_isEraser false (set_currentColor color s).

Definition onColorPickerChange (s : State num) : State num :=
  set_isEraser false s.

Definition toggleEraser (s : State num) : State num :=
  set_isEraser (negb (isEraser s)) s.

(** The setter of [canvas.width] and of [canvas.height].  The attribute
    has the type [unsigned long] and reflects a content attribute: the
    number assigned is converted to an integer, and an integer above
    2147483647 is replaced by the default of the attribute (300 for the
    width, 150 for the height). *)
Definition setDimension (default : Z) (v : num) : num :=
  let n := toUnsignedLong v in
  if (n <=? 2147483647)%Z then #n else #default.

(** [resizeCanvas]: the canvas takes the size of its bounding rectangle
    (which the style sheet fixes, so that it stays as it is), in whole
    pixels. *)
Definition resizeCanvas (s : State num) : option (State num) :=
  match canvasRef s with
  | None => None
  | Some canvas =>
      Some
        (set_canvasRef
           (Some
              (Canvas.mk (Canvas.left canvas) (Canvas.top canvas)
                 (Canvas.rect_width canvas) (Canvas.rect_height canvas)
                 (setDimension 300 (Canvas.rect_width canvas))
                 (setDimension 150 (Canvas.rect_height canvas))))
           s)
  end.

(** *** Rendering a path *)

(** [drawPath]: the calls made on the context [ctx]. *)
Definition drawPath (canvas : Canvas.t num) (path : list (Point.t num))
  (color : string) (lineWidth : num) (isEraser : bool)
  : list (CanvasCall.t num) :=
  if (List.length path <? 2)%nat then []
  else
    [CanvasCall.beginPath;
     CanvasCall.moveTo (Point.x (nth 0 path origin) * Canvas.width canvas)
       (Point.y (nth 0 path origin) * Canvas.height canvas)]
      ++ map
           (fun i =>
              let xc :=
                (Point.x (nth i path origin)
                 + Point.x (nth (i - 1) path origin)) / #2
                * Canvas.width canvas in
              let yc :=
                (Point.y (nth i path origin)
                 + Point.y (nth (i - 1) path origin)) / #2
                * Canvas.height canvas in
              CanvasCall.quadraticCurveTo
                (Point.x (nth (i - 1) path origin) * Canvas.width canvas)
                (Point.y (nth (i - 1) path origin) * Canvas.height canvas)
                xc yc)
           (seq 1 (List.length path - 1))
      ++ (let last := nth (List.length path - 1) path origin in
          [CanvasCall.lineTo (Point.x last * Canvas.width canvas)
             (Point.y last * Canvas.height canvas);
           CanvasCall.strokeStyle color;
           CanvasCall.lineWidth lineWidth;
           CanvasCall.lineCap "round";
           CanvasCall.lineJoin "round"])
      ++ (if isEraser
          then [CanvasCall.globalCompositeOperation "destination-out"]
          else [])
      ++ [CanvasCall.stroke;
          CanvasCall.globalCompositeOperation "source-over"].

(** The compositing mode in force after a sequence of calls. *)
Definition compositeAfter (calls : list (CanvasCall.t num)) (mode : string)
  : string :=
  fold_left
    (fun m c =>
       match c with
       | CanvasCall.globalCompositeOperation op => op
       | _ => m
       end)
    calls mode.

(** The compositing modes under which the [stroke] calls are made. *)
Fixpoint strokeModes (calls : list (CanvasCall.t num)) (mode : string)
  : list string :=
  match calls with
  | [] => []
  | CanvasCall.globalCompositeOperation op :: rest => strokeModes rest op
  | CanvasCall.stroke :: rest => mode :: strokeModes rest mode
  | _ :: rest => strokeModes rest mode
  end.

(** *** Picking an image *)

(** The test in the loop of [getClickedImage]: the pointer, turned back by
    the image's rotation about its centre, lies within the image. *)
Definition containsPoint (canvas : Canvas.t num) (x y : num)
  (img : ImageElement.t num) : bool :=
  let centerX := ImageElement.x img + ImageElement.width img / #2 in
  let centerY := ImageElement.y img + ImageElement.height img / #2 in
  let rotatedX :=
    Math_cos (- ImageElement.rotation img * Math_PI / #180)
    * (x * Canvas.width canvas - centerX)
    - Math_sin (- ImageElement.rotation img * Math_PI / #180)
      * (y * Canvas.height canvas - centerY)
    + centerX in
  let rotatedY :=
    Math_sin (- ImageElement.rotation img * Math_PI / #180)
    * (x * Canvas.width canvas - centerX)
    + Math_cos (- ImageElement.rotation img * Math_PI / #180)
      * (y * Canvas.height canvas - centerY)
    + centerY in
  (rotatedX >=? ImageElement.x img)
  && (rotatedX <=? ImageElement.x img + ImageElement.width img)
  && (rotatedY >=? ImageElement.y img)
  && (rotatedY <=? ImageElement.y img + ImageElement.height img).

(** The pointer in the frame of the image, in pixels: the [rotatedX] and
    [rotatedY] of [getClickedImage], where the pointer is turned back
    about the centre of the image by the rotation of the image. *)
Definition frameX (canvas : Canvas.t num) (x y : num)
  (img : ImageElement.t num) : num :=
  let centerX := ImageElement.x img + ImageElement.width img / #2 in
  let centerY := ImageElement.y img + ImageElement.height img / #2 in
  Math_cos (- ImageElement.rotation img * Math_PI / #180)
  * (x * Canvas.width canvas - centerX)
  - Math_sin (- ImageElement.rotation img * Math_PI / #180)
    * (y * Canvas.height canvas - centerY)
  + centerX.

Definition frameY (canvas : Canvas.t num) (x y : num)
  (img : ImageElement.t num) : num :=
  let centerX := ImageElement.x img + ImageElement.width img / #2 in
  let centerY := ImageElement.y img + ImageElement.height img / #2 in
  Math_sin (- ImageElement.rotation img * Math_PI / #180)
  * (x * Canvas.width canvas - centerX)
  + Math_cos (- ImageElement.rotation img * Math_PI / #180)
    * (y * Canvas.height canvas - centerY)
  + centerY.

(** [for (let i = n - 1; i >= 0; i--)]: the indices [n - 1] down to 0. *)
Fixpoint clickedBelow (canvas : Canvas.t num) (x y : num)
  (h : ref -> ImageElement.t num) (imgs : list ref) (n : nat) : option ref :=
  match n with
  | O => None
  | S i =>
      let img := nth i imgs 0%nat in
      if containsPoint canvas x y (h img) then Some img
      else clickedBelow canvas x y h imgs i
  end.

(** [getClickedImage]; the inner [option] is the image or [null]. *)
Definition getClickedImage (x y : num) (s : State num)
  : option (option ref) :=
  match canvasRef s with
  | None => None
  | Some canvas =>
      Some (clickedBelow canvas x y (heap s) (images s)
              (List.length (images s)))
  end.

(** *** Pointer handlers *)

Definition onMouseDown (clientX clientY : num) (s : State num)
  : option (State num) :=
  match canvasRef s, getCanvasCoordinates clientX clientY s with
  | Some canvas, Some p =>
      let x := Point.x p in
      let y := Point.y p in
      match getClickedImage x y s with
      | None => None
      | Some (Some clickedImage) =>
          let s1 := set_selectedImage (Some clickedImage) s in
          let o := heap s1 clickedImage in
          if isResizeHandle canvas x y o then
            Some (set_isResizingImage true s1)
          else if isRotateHandle canvas x y o then
            Some (set_isRotatingImage true s1)
          else if isDeleteHandle canvas x y o then
            Some (deleteImage clickedImage s1)
          else
            Some
              (set_dragStartY (y - ImageElement.y o / Canvas.height canvas)
                 (set_dragStartX (x - ImageElement.x o / Canvas.width canvas)
                    (set_isDraggingImage true s1)))
      | Some None =>
          let s1 :=
            if negb (isResizingImage s) && negb (isRotatingImage s)
            then set_selectedImage None s else s in
          if isShiftPressed s1 || isLineDrawingMode s1 then
            Some
              (set_isLineDrawingMode true
                 (set_lineStartPoint (Some (Point.mk x y)) s1))
          else Some (startDrawing clientX clientY s1)
      end
  | _, _ => None
  end.

Definition onMouseMove (clientX clientY : num) (s : State num)
  : option (State num) :=
  match canvasRef s, getCanvasCoordinates clientX clientY s with
  | Some canvas, Some p =>
      let x := Point.x p in
      let y := Point.y p in
      match selectedImage s with
      | Some sel =>
          if isResizingImage s then resizeSelectedImage x y s
          else if isRotatingImage s then rotateSelectedImage x y s
          else if isDraggingImage s then
            let o := heap s sel in
            let o' :=
              ImageElement.mk (ImageElement.img o)
                ((x - dragStartX s) * Canvas.width canvas)
                ((y - dragStartY s) * Canvas.height canvas)
                (ImageElement.width o) (ImageElement.height o)
                (ImageElement.rotation o) in
            Some (set_heap (heap_set sel o' (heap s)) s)
          else Some s
      | None =>
          if isDrawing s then Some (capturePoint clientX clientY s)
          else
            match isLineDrawingMode s, lineStartPoint s with
            | true, Some start =>
                let snappedEnd := getSnappedEndPoint start (Point.mk x y) in
                Some (set_linePreview (Some (start, snappedEnd)) s)
            | _, _ => Some s
            end
      end
  | _, _ => None
  end.

(** *** Layers and keys *)

Fixpoint setAt {A : Type} (i : nat) (v : A) (l : list A) : list A :=
  match l, i with
  | [], _ => []
  | _ :: t, O => v :: t
  | a :: t, S j => a :: setAt j v t
  end.

(** [[a[i], a[j]] = [a[j], a[i]]] for two indices within the array. *)
Definition swap (i j : nat) (l : list ref) : list ref :=
  setAt j (nth i l 0%nat) (setAt i (nth j l 0%nat) l).

(** [moveImageLayer].  With the selected image absent from a non-empty
    array, [indexOf] is -1 and the move up stores [undefined] in
    [images[0]]: an array that is no list of images, for which the result
    is [None]. *)
Definition moveImageLayer (direction : Direction.t) (s : State num)
  : option (State num) :=
  match selectedImage s with
  | Some sel =>
      let index := indexOf sel (images s) in
      match direction with
      | Direction.up =>
          if (index <? Z.of_nat (List.length (images s)) - 1)%Z then
            if (index <? 0)%Z then None
            else
              Some
                (set_images
                   (swap (Z.to_nat index) (Z.to_nat (index + 1)) (images s))
                   s)
          else Some s
      | Direction.down =>
          if (0 <? index)%Z then
            Some
              (set_images
                 (swap (Z.to_nat index) (Z.to_nat (index - 1)) (images s))
                 s)
          else Some s
      end
  | None => Some s
  end.

Definition isSome {A : Type} (o : option A) : bool :=
  match o with Some _ => true | None => false end.

(** [handleKeyDown], from the key and the state of the Control key. *)
Definition handleKeyDown (key : string) (ctrlKey : bool) (s : State num)
  : option (State num) :=
  let s1 := if String.eqb key "Shift" then set_isShiftPressed true s else s in
  let s2 :=
    if ctrlKey && String.eqb key "z" then undo s1
    else if ctrlKey && String.eqb key "y" then redo s1
    else s1 in
  let s3 :=
    match selectedImage s2 with
    | Some sel => if String.eqb key "Delete" then deleteImage sel s2 else s2
    | None => s2
    end in
  if ctrlKey && String.eqb key "c" && isSome (selectedImage s3) then
    Some (duplicateImage s3)
  else if String.eqb key "ArrowUp" && ctrlKey then
    moveImageLayer Direction.up s3
  else if String.eqb key "ArrowDown" && ctrlKey then
    moveImageLayer Direction.down s3
  else Some s3.

Definition handleKeyUp (key : string) (s : State num) : State num :=
  if String.eqb key "Shift" then
    let s1 := set_isShiftPressed false s in
    if negb (isLineDrawingMode s1)
    then set_linePreview None (set_lineStartPoint None s1)
    else s1
  else s.

End Handlers.

(** ** Frames and store conditions used in the statements below *)

(** [o'] differs from [o] in its rotation at most. *)
Definition sameButRotation {num : Type} (o o' : ImageElement.t num) : Prop :=
  ImageElement.img o' = ImageElement.img o
  /\ ImageElement.x o' = ImageElement.x o
  /\ ImageElement.y o' = ImageElement.y o
  /\ ImageElement.width o' = ImageElement.width o
  /\ ImageElement.height o' = ImageElement.height o.

Definition touchesRotationOnly {num : Type} (im : ref)
  (h h' : ref -> ImageElement.t num) : Prop :=
  forall r, sameButRotation (h r) (h' r) /\ (r <> im -> h' r = h r).

(** The image list names no image twice and none that is yet to be
    created. *)
Definition wellFormedImages {num : Type} (s : State num) : Prop :=
  NoDup (images s) /\ ~ In (nextRef s) (images s).

(** Every image of the list has been created, and none is named twice:
    so it is in every state the program reaches, where an image enters the
    list as it is created or when its deletion is undone. *)
Definition allocatedImages {num : Type} (s : State num) : Prop :=
  NoDup (images s) /\ forall r, In r (images s) -> (r < nextRef s)%nat.

(** The images that the commands [cmds] deleted, in the order of the
    deletions. *)
Definition deletedImages {num : Type} (cmds : list (DrawAction.t num))
  : list ref :=
  flat_map
    (fun a =>
       match DrawAction.type a, DrawAction.image a with
       | ActionType.deleteImage, Some im => [im]
       | _, _ => []
       end)
    cmds.

Definition memb (r : ref) (l : list ref) : bool := existsb (Nat.eqb r) l.

(** The image list [l] once the commands [cmds], committed from it, have
    all been undone: the images of [l] that no command deleted keep their
    places, and those that a command deleted follow them, the one deleted
    last first. *)
Definition undoneList {num : Type} (cmds : list (DrawAction.t num))
  (l : list ref) : list ref :=
  filter (fun r => negb (memb r (deletedImages cmds))) l
  ++ rev (filter (fun r => memb r l) (deletedImages cmds)).

(** The images that the commands [later] delete are in the list of [s]
    or are yet to be created. *)
Definition deletesFrom {num : Type} (later : list (DrawAction.t num))
  (s : State num) : Prop :=
  forall d, In d (deletedImages later) ->
    In d (images s) \/ (nextRef s <= d)%nat.

(** What an edit that pushed the command [a] did to the document, from
    the state [t] before it to the state [s'] after it. *)
Inductive CommitShape {num : Type} (t s' : State num) (a : DrawAction.t num)
  : Prop :=
| ShapePath : forall p c w e,
    a = pathAction p c w e ->
    images s' = images t -> heap s' = heap t -> nextRef s' = nextRef t ->
    CommitShape t s' a
| ShapeDelete : forall im l1 l2,
    a = imageAction ActionType.deleteImage im ->
    images t = l1 ++ im :: l2 -> ~ In im l1 -> images s' = l1 ++ l2 ->
    heap s' = heap t -> nextRef s' = nextRef t ->
    CommitShape t s' a
| ShapeAdd : forall o,
    a = imageAction ActionType.addImage (nextRef t) ->
    images s' = images t ++ [nextRef t] ->
    heap s' = heap_set (nextRef t) o (heap t) ->
    nextRef s' = S (nextRef t) ->
    CommitShape t s' a
| ShapeTransform : forall ty sel old new o',
    ty = ActionType.resizeImage \/ ty = ActionType.rotateImage ->
    a = transformAction ty sel old new ->
    images s' = images t ->
    heap s' = heap_set sel o' (heap t) ->
    nextRef s' = nextRef t ->
    Object_assign o' old = heap t sel ->
    Object_assign (heap t sel) new = o' ->
    CommitShape t s' a.

(** ** Further example states *)

(** The component as constructed, on the example canvas. *)
Definition emptyPage : State R := initialState (Some exampleCanvas).

(** An image of 200 by 100 pixels has been loaded on the empty page and
    selected. *)
Definition wideImagePage : State R :=
  set_selectedImage (Some 0%nat)
    (handleImageUpload 0%nat 200%R 100%R emptyPage).

(** The component as constructed, on a canvas that is laid out over
    800.5 by 600.25 pixels and still has the pixel size of a new canvas. *)
Definition fractionalPage : State R :=
  initialState (Some (Canvas.mk 0 0 (1601 / 2) (2401 / 4) 300 150)%R).

(** The first image has been duplicated, the copy has been selected and
    its creation undone: the selection names an image that is no longer
    in the list. *)
Definition danglingSelection : State R :=
  undo (set_selectedImage (Some 2%nat) (duplicateImage firstSelected)).

(** The selected image has been flipped horizontally. *)
Definition flippedOnce : State R := flipImage true firstSelected.

(** The deletion of the first image has been undone: it lies on the redo
    stack. *)
Definition deletionUndone : State R := undo (deleteImage 0%nat twoImages).

(** A stroke of two captured points is in progress. *)
Definition strokeInProgress : State R :=
  capturePoint 200%R 150%R (startDrawing 100%R 100%R emptyPage).

(** * Properties *)

(** ** Arrays *)

Lemma pop_snoc : forall (A : Type) (l : list A) (a : A),
  pop (l ++ [a]) = Some (a, l).
Proof.
  induction l as [|h t IH]; intros a; simpl.
  - reflexivity.
  - rewrite IH. reflexivity.
Qed.

Lemma pop_nil_inv : forall (A : Type) (l : list A), pop l = None -> l = [].
Proof.
  destruct l as [|h t]; simpl; intros H.
  - reflexivity.
  - destruct (pop t) as [[b t']|]; discriminate.
Qed.

Lemma indexOf_from_found : forall r l i k,
  indexOf_from r l i = k -> (k <> -1)%Z -> (0 <= i)%Z ->
  exists l1 l2,
    l = l1 ++ r :: l2 /\ ~ In r l1 /\ Z.to_nat (k - i) = List.length l1.
Proof.
  induction l as [|h t IH]; simpl; intros i k Hk Hne Hi.
  - congruence.
  - destruct (Nat.eqb h r) eqn:E.
    + apply Nat.eqb_eq in E. subst h k.
      exists [], t. simpl. repeat split; auto.
      replace (i - i)%Z with 0%Z by lia. reflexivity.
    + apply Nat.eqb_neq in E.
      destruct (IH (i + 1)%Z k Hk Hne ltac:(lia)) as (l1 & l2 & -> & Hn & Hl).
      exists (h :: l1), l2. simpl. repeat split; auto.
      * intros [G|G]; [congruence | contradiction].
      * rewrite <- Hl.
        assert (i + 1 <= k)%Z.
        { clear - Hk Hne Hi. revert i k Hk Hne Hi.
          generalize (l1 ++ r :: l2) as l.
          induction l as [|a l IHl]; simpl; intros i k Hk Hne Hi.
          - congruence.
          - destruct (Nat.eqb a r).
            + lia.
            + specialize (IHl (i + 1)%Z k Hk Hne). lia. }
        lia.
Qed.

Lemma indexOf_from_absent : forall r l i,
  (0 <= i)%Z -> indexOf_from r l i = (-1)%Z -> ~ In r l.
Proof.
  induction l as [|h t IH]; simpl; intros i Hi Hk.
  - tauto.
  - destruct (Nat.eqb h r) eqn:E.
    + lia.
    + apply Nat.eqb_neq in E. intros [G|G]; [congruence|].
      exact (IH (i + 1)%Z ltac:(lia) Hk G).
Qed.

Lemma indexOf_from_lower : forall r l i,
  (0 <= i)%Z -> (-1 <= indexOf_from r l i)%Z.
Proof.
  induction l as [|h t IH]; simpl; intros i Hi.
  - lia.
  - destruct (Nat.eqb h r); [lia|]. apply IH. lia.
Qed.

(** What [indexOf] followed by [splice] does to an array. *)
Lemma splice_indexOf : forall r l,
  (-1 <? indexOf r l)%Z = true ->
  exists l1 l2,
    l = l1 ++ r :: l2 /\ ~ In r l1 /\ splice1 (indexOf r l) l = l1 ++ l2.
Proof.
  intros r l H. apply Z.ltb_lt in H.
  remember (indexOf r l) as k eqn:Ek. symmetry in Ek.
  destruct (@indexOf_from_found r l 0%Z k Ek) as (l1 & l2 & E & Hn & Hl);
    [lia | lia |].
  exists l1, l2. repeat split; auto.
  unfold splice1. rewrite Z.sub_0_r in Hl. rewrite Hl, E.
  rewrite firstn_app, Nat.sub_diag, firstn_all. simpl firstn.
  rewrite app_nil_r.
  rewrite <- (skipn_skipn 1 (List.length l1)).
  rewrite skipn_app, Nat.sub_diag, skipn_all.
  reflexivity.
Qed.

Lemma indexOf_In : forall r l, In r l -> (-1 <? indexOf r l)%Z = true.
Proof.
  intros r l H. apply Z.ltb_lt.
  destruct (Z.eq_dec (indexOf r l) (-1)) as [E|E].
  - exfalso. exact (@indexOf_from_absent r l 0%Z ltac:(lia) E H).
  - pose proof (@indexOf_from_lower r l 0%Z ltac:(lia)).
    unfold indexOf in *. lia.
Qed.

Lemma indexOf_not_In : forall r l, ~ In r l -> (-1 <? indexOf r l)%Z = false.
Proof.
  intros r l H. apply Z.ltb_ge.
  destruct (Z.eq_dec (indexOf r l) (-1)) as [E|E]; [lia|].
  exfalso. apply H.
  destruct (@indexOf_from_found r l 0%Z (indexOf r l) eq_refl E ltac:(lia))
    as (l1 & l2 & -> & _ & _).
  apply in_or_app. right. left. reflexivity.
Qed.

(** ** The command history *)

Section HistoryProperties.

Context {num : Type} {N : Number num}.

(** C1 (the program departs from it): [clearCanvas] pushes one delete
    command per image and then replaces the undo stack by an empty array,
    so the [undo] that follows finds nothing to undo: it leaves the state
    as it is, with no image in the active list. *)
Theorem clearCanvas_then_undo_restores_nothing : forall s : State num,
  actions (clearCanvas s) = []
  /\ undo (clearCanvas s) = clearCanvas s
  /\ images (undo (clearCanvas s)) = [].
Proof.
  intros s. unfold undo, clearCanvas. simpl. repeat split; reflexivity.
Qed.

(** C4 (the program departs from it): a loaded image is appended to the
    active list, but neither the undo stack nor the redo stack changes:
    no [addImage] command records the creation. *)
Theorem handleImageUpload_records_no_command :
  forall (im : nat) (w h : num) (s : State num),
    images (handleImageUpload im w h s) = images s ++ [nextRef s]
    /\ actions (handleImageUpload im w h s) = actions s
    /\ redoActions (handleImageUpload im w h s) = redoActions s.
Proof.
  intros. unfold handleImageUpload. simpl. repeat split; reflexivity.
Qed.

(** [undo] of a command on top of the stack: the stack loses it and the
    redo stack gains it. *)
Lemma undo_stacks : forall (u : State num) rest a,
  actions u = rest ++ [a] ->
  actions (undo u) = rest /\ redoActions (undo u) = redoActions u ++ [a].
Proof.
  intros u rest a H. unfold undo. rewrite H, pop_snoc.
  destruct (DrawAction.type a);
    repeat match goal with
           | |- context [match ?o with _ => _ end] =>
               destruct o; simpl
           end; split; reflexivity.
Qed.

Lemma snoc_self_absurd : forall (A : Type) (l : list A) (a : A),
  l = l ++ [a] -> False.
Proof.
  intros A l a H. apply (f_equal (@List.length A)) in H.
  rewrite length_app in H. simpl in H. lia.
Qed.

Lemma Object_assign_size_back : forall (o : ImageElement.t num) w h,
  Object_assign
    (ImageElement.mk (ImageElement.img o) (ImageElement.x o)
       (ImageElement.y o) w h (ImageElement.rotation o))
    (sizeState (ImageElement.width o) (ImageElement.height o)) = o.
Proof. intros [i a b c d e] w h. reflexivity. Qed.

Lemma Object_assign_rotation_back : forall (o : ImageElement.t num) a,
  Object_assign
    (ImageElement.mk (ImageElement.img o) (ImageElement.x o)
       (ImageElement.y o) (ImageElement.width o) (ImageElement.height o) a)
    (rotationState (ImageElement.rotation o)) = o.
Proof. intros [i a b c d e] a'. reflexivity. Qed.

Lemma heap_set_same : forall r v (h : ref -> ImageElement.t num),
  heap_set r v h r = v.
Proof. intros. unfold heap_set. rewrite Nat.eqb_refl. reflexivity. Qed.

Lemma heap_set_other : forall r r' v (h : ref -> ImageElement.t num),
  r' <> r -> heap_set r v h r' = h r'.
Proof.
  intros. unfold heap_set. destruct (Nat.eqb r' r) eqn:E; auto.
  apply Nat.eqb_eq in E. contradiction.
Qed.

(** [undo] of a path command touches neither the images nor the store. *)
Lemma undo_path : forall (t u : State num) p c w e im heap0 next0,
  actions u = actions t ++ [pathAction p c w e] ->
  Permutation (images u) im ->
  (forall r, (r < next0)%nat -> heap u r = heap0 r) ->
  actions (undo u) = actions t
  /\ Permutation (images (undo u)) im
  /\ (forall r, (r < next0)%nat -> heap (undo u) r = heap0 r).
Proof.
  intros t u p c w e im heap0 next0 Ha Hp Hh.
  unfold undo. rewrite Ha, pop_snoc. simpl. auto.
Qed.

(** A transform is undone by writing the old snapshot back. *)
Lemma undo_transform : forall (t u : State num) ty sel old new o',
  (ty = ActionType.resizeImage \/ ty = ActionType.rotateImage) ->
  actions u = actions t ++ [transformAction ty sel old new] ->
  Permutation (images u) (images t) ->
  (forall r, (r < nextRef t)%nat -> heap u r = heap_set sel o' (heap t) r) ->
  Object_assign o' old = heap t sel ->
  agrees t (undo u).
Proof.
  intros t u ty sel old new o' Hty Ha Hp Hh Hback.
  unfold agrees, undo. rewrite Ha, pop_snoc.
  destruct Hty; subst ty; simpl; (split; [reflexivity | split; [assumption|]]);
    intros r Hr; unfold heap_set at 1;
    (destruct (Nat.eqb r sel) eqn:E;
     [ apply Nat.eqb_eq in E; subst r;
       rewrite (Hh sel Hr), heap_set_same; exact Hback
     | apply Nat.eqb_neq in E; rewrite (Hh r Hr), heap_set_other; auto ]).
Qed.

(** One committed edit is inverted by one [undo], from any state that
    holds the document the edit produced. *)
Lemma undo_inverts_edit : forall {T : Trig num} (e : Edit num)
  (t s' u : State num) a,
  runEdit e t = Some s' ->
  actions s' = actions t ++ [a] ->
  agrees s' u ->
  agrees t (undo u).
Proof.
  intros T e t s' u a Hrun Hpush (Hua & Hup & Huh).
  rewrite Hpush in Hua.
  destruct e as [cx cy | im | x y | x y | hz | ]; simpl in Hrun.
  - (* onMouseUp *)
    unfold onMouseUp in Hrun. simpl in Hrun.
    destruct (isLineDrawingMode t) eqn:Hmode;
      [destruct (lineStartPoint t) as [start|] eqn:Hstart|].
    + unfold getCanvasCoordinates in Hrun. simpl in Hrun.
      destruct (canvasRef t) as [cv|]; [|discriminate].
      injection Hrun as <-. simpl in *.
      apply app_inj_tail in Hpush. destruct Hpush as [_ <-].
      unfold agrees; eapply undo_path; eassumption.
    + injection Hrun as <-. unfold stopDrawing in *. simpl in *.
      destruct (isDrawing t); simpl in *;
        [|exfalso; eapply snoc_self_absurd; exact Hpush].
      destruct (1 <? List.length (currentPath t))%nat; simpl in *;
        [|exfalso; eapply snoc_self_absurd; exact Hpush].
      apply app_inj_tail in Hpush. destruct Hpush as [_ <-].
      unfold agrees; eapply undo_path; eassumption.
    + injection Hrun as <-. unfold stopDrawing in *. simpl in *.
      destruct (isDrawing t); simpl in *;
        [|exfalso; eapply snoc_self_absurd; exact Hpush].
      destruct (1 <? List.length (currentPath t))%nat; simpl in *;
        [|exfalso; eapply snoc_self_absurd; exact Hpush].
      apply app_inj_tail in Hpush. destruct Hpush as [_ <-].
      unfold agrees; eapply undo_path; eassumption.
  - (* deleteImage *)
    injection Hrun as <-. unfold deleteImage in *.
    destruct (-1 <? indexOf im (images t))%Z eqn:Hidx;
      [|exfalso; eapply snoc_self_absurd; exact Hpush].
    simpl in *.
    apply app_inj_tail in Hpush. destruct Hpush as [_ <-].
    destruct (splice_indexOf _ _ Hidx) as (l1 & l2 & El & _ & Es).
    rewrite Es in Hup.
    unfold agrees, undo. rewrite Hua, pop_snoc. simpl.
    split; [reflexivity | split; [|assumption]].
    rewrite El. rewrite Hup.
    rewrite <- app_assoc. apply Permutation_app_head.
    apply Permutation_sym, Permutation_cons_append.
  - (* resizeSelectedImage *)
    unfold resizeSelectedImage in Hrun.
    destruct (selectedImage t) as [sel|];
      [|injection Hrun as <-; exfalso; eapply snoc_self_absurd; exact Hpush].
    destruct (canvasRef t) as [cv|]; [|discriminate].
    match type of Hrun with (if ?c then _ else _) = _ => destruct c end;
      [|injection Hrun as <-; exfalso; eapply snoc_self_absurd; exact Hpush].
    injection Hrun as <-. simpl in *.
    apply app_inj_tail in Hpush. destruct Hpush as [_ <-].
    eapply undo_transform;
      [left; reflexivity | exact Hua | exact Hup | exact Huh
      | apply Object_assign_size_back].
  - (* rotateSelectedImage *)
    unfold rotateSelectedImage in Hrun.
    destruct (selectedImage t) as [sel|];
      [|injection Hrun as <-; exfalso; eapply snoc_self_absurd; exact Hpush].
    destruct (canvasRef t) as [cv|]; [|discriminate].
    injection Hrun as <-. simpl in *.
    apply app_inj_tail in Hpush. destruct Hpush as [_ <-].
    eapply undo_transform;
      [right; reflexivity | exact Hua | exact Hup | exact Huh
      | apply Object_assign_rotation_back].
  - (* flipImage *)
    injection Hrun as <-. unfold flipImage in *.
    destruct (selectedImage t) as [sel|];
      [|exfalso; eapply snoc_self_absurd; exact Hpush].
    simpl in *.
    apply app_inj_tail in Hpush. destruct Hpush as [_ <-].
    eapply undo_transform;
      [left; reflexivity | exact Hua | exact Hup | exact Huh |].
    destruct hz; destruct (heap t sel); reflexivity.
  - (* duplicateImage *)
    injection Hrun as <-. unfold duplicateImage in *.
    destruct (selectedImage t) as [sel|];
      [|exfalso; eapply snoc_self_absurd; exact Hpush].
    simpl in *.
    apply app_inj_tail in Hpush. destruct Hpush as [_ <-].
    assert (Hin : In (nextRef t) (images u)).
    { eapply Permutation_in; [apply Permutation_sym; exact Hup|].
      apply in_or_app. right. left. reflexivity. }
    pose proof (indexOf_In _ _ Hin) as Hidx.
    destruct (splice_indexOf _ _ Hidx) as (l1 & l2 & El & _ & Es).
    unfold agrees, undo. rewrite Hua, pop_snoc. simpl.
    rewrite Hidx. simpl. rewrite Es.
    split; [reflexivity | split].
    + rewrite El in Hup.
      apply Permutation_cons_inv with (a := nextRef t).
      eapply Permutation_trans; [apply Permutation_middle|].
      eapply Permutation_trans; [exact Hup|].
      apply Permutation_sym, Permutation_cons_append.
    + intros r Hr. rewrite (Huh r ltac:(lia)).
      apply heap_set_other. lia.
Qed.

Lemma agrees_sameDocument : forall (t t' u : State num),
  sameDocument t t' -> agrees t' u -> agrees t u.
Proof.
  intros t t' u (Hi & Hh & Hn & Ha & _) (Ua & Up & Uh).
  unfold agrees. rewrite Hi, Hh, Hn, Ha. auto.
Qed.

Lemma committed_undone : forall {T : Trig num} cmds (s t : State num),
  committed cmds s t ->
  forall u, agrees t u ->
    agrees s (Nat.iter (List.length cmds) undo u)
    /\ redoActions (Nat.iter (List.length cmds) undo u)
       = redoActions u ++ rev cmds.
Proof.
  intros T cmds s t H.
  induction H as [s | cmds a s t t' e s' Hc IH Hdoc Hrun Hpush]; intros u Hu.
  - simpl. rewrite app_nil_r. auto.
  - rewrite length_app, Nat.add_comm. simpl List.length.
    rewrite Nat.iter_succ_r.
    assert (Hstep : agrees t' (undo u))
      by (eapply undo_inverts_edit; eassumption).
    destruct Hu as (Hua & _).
    rewrite Hpush in Hua.
    destruct (@undo_stacks u _ _ Hua) as [_ Hredo].
    destruct (IH (undo u) (agrees_sameDocument Hdoc Hstep)) as [IH1 IH2].
    split; [exact IH1|].
    rewrite IH2, Hredo, rev_app_distr, <- app_assoc. reflexivity.
Qed.

Lemma Object_assign_sizeState : forall (o : ImageElement.t num) w h,
  sameButSize o (Object_assign o (sizeState w h)).
Proof. intros. unfold sameButSize. simpl. auto. Qed.

Lemma heap_set_size_only : forall im (h : ref -> ImageElement.t num) w0 h0,
  touchesSizeOnly im h (heap_set im (Object_assign (h im) (sizeState w0 h0)) h).
Proof.
  intros im h w0 h0 r. unfold heap_set.
  destruct (Nat.eqb r im) eqn:E.
  - apply Nat.eqb_eq in E. subst r. split.
    + apply Object_assign_sizeState.
    + intros C. contradiction.
  - split; [unfold sameButSize|]; auto.
Qed.

(** C10: the command pushed by a resize or by a flip names the image and
    carries two snapshots that hold a width and a height and nothing
    else; undoing it, or redoing it, from any state changes at most the
    width and the height of that image: its x, y and rotation, and every
    other image, stay as they are. *)
Theorem size_command_touches_size_only :
  forall (s s' : State num) (x y : num) (horizontal : bool)
         (a : DrawAction.t num),
    resizeSelectedImage x y s = Some s' \/ flipImage horizontal s = s' ->
    actions s' = actions s ++ [a] ->
    exists im w0 h0 w1 h1,
      DrawAction.image a = Some im
      /\ DrawAction.oldState a = Some (sizeState w0 h0)
      /\ DrawAction.newState a = Some (sizeState w1 h1)
      /\ (forall u rest, actions u = rest ++ [a] ->
            touchesSizeOnly im (heap u) (heap (undo u)))
      /\ (forall u rest, redoActions u = rest ++ [a] ->
            touchesSizeOnly im (heap u) (heap (redo u))).
Proof.
  intros s s' x y hz a Hrun Hpush.
  assert (Hshape : exists im w0 h0 w1 h1,
            a = transformAction ActionType.resizeImage im
                  (sizeState w0 h0) (sizeState w1 h1)).
  { destruct Hrun as [Hrun | Hrun].
    - unfold resizeSelectedImage in Hrun.
      destruct (selectedImage s) as [sel|];
        [|injection Hrun as <-; exfalso; eapply snoc_self_absurd;
          exact Hpush].
      destruct (canvasRef s) as [cv|]; [|discriminate].
      match type of Hrun with (if ?c then _ else _) = _ => destruct c end;
        [|injection Hrun as <-; exfalso; eapply snoc_self_absurd;
          exact Hpush].
      injection Hrun as <-. simpl in Hpush.
      apply app_inj_tail in Hpush. destruct Hpush as [_ <-].
      do 5 eexists. reflexivity.
    - subst s'. unfold flipImage in Hpush.
      destruct (selectedImage s) as [sel|];
        [|exfalso; eapply snoc_self_absurd; exact Hpush].
      simpl in Hpush.
      apply app_inj_tail in Hpush. destruct Hpush as [_ <-].
      do 5 eexists. reflexivity. }
  destruct Hshape as (im & w0 & h0 & w1 & h1 & ->).
  exists im, w0, h0, w1, h1.
  split; [reflexivity | split; [reflexivity | split; [reflexivity | split]]].
  - intros u rest H. unfold undo. rewrite H, pop_snoc. simpl.
    apply heap_set_size_only.
  - intros u rest H. unfold redo. rewrite H, pop_snoc. simpl.
    apply heap_set_size_only.
Qed.

(** Every commit but that of a line empties the redo stack. *)
Lemma other_commits_clear_redo : forall {T : Trig num} (e : Edit num)
  (s s' : State num) a,
  runEdit e s = Some s' ->
  actions s' = actions s ++ [a] ->
  match e with
  | EMouseUp _ _ => isLineDrawingMode s = false \/ lineStartPoint s = None
  | _ => True
  end ->
  redoActions s' = [].
Proof.
  intros T e s s' a Hrun Hpush Hline.
  destruct e as [cx cy | im | x y | x y | hz | ]; simpl in Hrun.
  - unfold onMouseUp in Hrun. simpl in Hrun.
    assert (Hstop : Some (stopDrawing
              (set_isRotatingImage false
                 (set_isResizingImage false (set_isDraggingImage false s))))
            = Some s').
    { destruct Hline as [Hl | Hl]; rewrite Hl in Hrun;
        [|destruct (isLineDrawingMode s)]; exact Hrun. }
    injection Hstop as <-. unfold stopDrawing in *. simpl in *.
    destruct (isDrawing s); simpl in *;
      [|exfalso; eapply snoc_self_absurd; exact Hpush].
    destruct (1 <? List.length (currentPath s))%nat; simpl in *;
      [reflexivity | exfalso; eapply snoc_self_absurd; exact Hpush].
  - injection Hrun as <-. unfold deleteImage in *.
    destruct (-1 <? indexOf im (images s))%Z;
      [reflexivity | exfalso; eapply snoc_self_absurd; exact Hpush].
  - unfold resizeSelectedImage in Hrun.
    destruct (selectedImage s) as [sel|];
      [|injection Hrun as <-; exfalso; eapply snoc_self_absurd; exact Hpush].
    destruct (canvasRef s) as [cv|]; [|discriminate].
    match type of Hrun with (if ?c then _ else _) = _ => destruct c end;
      [|injection Hrun as <-; exfalso; eapply snoc_self_absurd; exact Hpush].
    injection Hrun as <-. reflexivity.
  - unfold rotateSelectedImage in Hrun.
    destruct (selectedImage s) as [sel|];
      [|injection Hrun as <-; exfalso; eapply snoc_self_absurd; exact Hpush].
    destruct (canvasRef s) as [cv|]; [|discriminate].
    injection Hrun as <-. reflexivity.
  - injection Hrun as <-. unfold flipImage in *.
    destruct (selectedImage s) as [sel|];
      [reflexivity | exfalso; eapply snoc_self_absurd; exact Hpush].
  - injection Hrun as <-. unfold duplicateImage in *.
    destruct (selectedImage s) as [sel|];
      [reflexivity | exfalso; eapply snoc_self_absurd; exact Hpush].
Qed.

(** Releasing the pointer in line mode pushes the line and leaves the
    redo stack as it was. *)
Lemma onMouseUp_line : forall {T : Trig num} (clientX clientY : num)
  (s : State num) (start : Point.t num) (canvas : Canvas.t num),
  isLineDrawingMode s = true ->
  lineStartPoint s = Some start ->
  canvasRef s = Some canvas ->
  exists s' a,
    onMouseUp clientX clientY s = Some s'
    /\ actions s' = actions s ++ [a]
    /\ DrawAction.type a = ActionType.path
    /\ redoActions s' = redoActions s.
Proof.
  intros T cx cy s start cv Hm Hs Hc.
  unfold onMouseUp, getCanvasCoordinates. simpl. rewrite Hm, Hs, Hc.
  eexists. eexists. split; [reflexivity|]. simpl. auto.
Qed.

(** [redo] of a path command on top of the redo stack puts it back on
    the undo stack. *)
Lemma redo_path : forall (s : State num) rest p c w e,
  redoActions s = rest ++ [pathAction p c w e] ->
  actions (redo s) = actions s ++ [pathAction p c w e]
  /\ redoActions (redo s) = rest.
Proof.
  intros s rest p c w e H. unfold redo. rewrite H, pop_snoc. simpl. auto.
Qed.


(** C6: when the width or the height that the resize computes is at most
    20, the state is returned as it is: the image keeps its fields and no
    command is pushed.  The arithmetic enters through one law of its
    order, that [a <= b] excludes [b < a]. *)
Theorem resize_below_minimum_rejected :
  (forall a b : num, (a <=? b)%js = true -> (b <? a)%js = false) ->
  forall (x y : num) (s : State num) (sel : ref) (canvas : Canvas.t num),
    selectedImage s = Some sel ->
    canvasRef s = Some canvas ->
    let o := heap s sel in
    let newWidth := (x * Canvas.width canvas - ImageElement.x o)%js in
    let newHeight :=
      (newWidth / (ImageElement.width o / ImageElement.height o))%js in
    (newWidth <=? #20)%js = true \/ (newHeight <=? #20)%js = true ->
    resizeSelectedImage x y s = Some s.
Proof.
  intros law x y s sel cv Hsel Hcv o newWidth newHeight Hsmall.
  unfold resizeSelectedImage. rewrite Hsel, Hcv.
  fold o. fold newWidth. fold newHeight.
  destruct Hsmall as [H | H]; apply law in H; rewrite H.
  - reflexivity.
  - rewrite andb_false_r. reflexivity.
Qed.

End HistoryProperties.

(** ** Path smoothing, over the reals *)

Section SmoothPath.

Local Open Scope R_scope.

Lemma Rleb_true : forall a b : R, a <= b -> Rleb a b = true.
Proof.
  intros a b H. unfold Rleb.
  destruct (Rle_dec a b); [reflexivity | contradiction].
Qed.

Lemma Rleb_false : forall a b : R, b < a -> Rleb a b = false.
Proof.
  intros a b H. unfold Rleb.
  destruct (Rle_dec a b); [lra | reflexivity].
Qed.

Lemma Rltb_true : forall a b : R, a < b -> Rltb a b = true.
Proof.
  intros a b H. unfold Rltb.
  destruct (Rlt_dec a b); [reflexivity | contradiction].
Qed.

Lemma Rltb_false : forall a b : R, b <= a -> Rltb a b = false.
Proof.
  intros a b H. unfold Rltb.
  destruct (Rlt_dec a b); [lra | reflexivity].
Qed.

(** The sampling loop, entered at [t = k / 10] with [n] samples to go,
    takes them and stops by its own test. *)
Lemma sampleLoop_steps : forall (n k fuel : nat) (c1 p c2 : Point.t R),
  (k + n = 11)%nat -> (n <= fuel)%nat ->
  sampleLoop fuel (INR k / 10) c1 p c2
  = map (fun j => bezier c1 p c2 (INR j / 10)) (seq k n).
Proof.
  induction n as [|n IH]; intros k fuel c1 p c2 Hk Hf.
  - simpl. destruct fuel as [|fuel]; [reflexivity|]. simpl.
    assert (Hk' : k = 11%nat) by lia. subst k.
    rewrite Rleb_false; [reflexivity|].
    simpl. lra.
  - destruct fuel as [|fuel]; [lia|]. simpl.
    assert (Hle : INR k <= 10).
    { replace 10 with (INR 10) by (simpl; lra). apply le_INR. lia. }
    rewrite Rleb_true by lra.
    f_equal.
    match goal with
    | |- sampleLoop fuel ?t _ _ _ = _ =>
        replace t with (INR (S k) / 10)
          by (rewrite S_INR; unfold tStep; simpl; lra)
    end.
    apply IH; lia.
Qed.

Lemma smoothSegment_samples : forall (fuel : nat) (points : list (Point.t R))
  (i : nat),
  (11 <= fuel)%nat ->
  smoothSegment fuel points i
  = segmentSamples (nth (i - 1) points origin) (nth i points origin)
      (nth (i + 1) points origin).
Proof.
  intros fuel points i Hf. unfold smoothSegment, segmentSamples.
  replace (@of_Z R R_Number 0) with (INR 0 / 10) by (simpl; lra).
  rewrite (@sampleLoop_steps 11 0 fuel) by lia.
  apply map_ext. intros j.
  unfold bezier, quadraticBezier, midpoint, Math_pow2. simpl.
  f_equal; field.
Qed.

Lemma nth_length_last : forall (A : Type) (l : list A) (d : A),
  nth (List.length l - 1) l d = last l d.
Proof.
  induction l as [|a l IH]; intros d; [reflexivity|].
  destruct l as [|b l]; [reflexivity|].
  change (last (a :: b :: l) d) with (last (b :: l) d).
  rewrite <- (IH d).
  replace (List.length (a :: b :: l) - 1)%nat
    with (S (List.length (b :: l) - 1)) by (simpl; lia).
  reflexivity.
Qed.

(** On the reals, the program's smoothing is the specification's, as soon
    as the sampling loop is allowed its eleven iterations. *)
Lemma createSmoothPath_refines : forall (fuel : nat)
  (points : list (Point.t R)),
  (11 <= fuel)%nat -> createSmoothPath fuel points = smoothPathSpec points.
Proof.
  intros fuel points Hf. unfold createSmoothPath, smoothPathSpec.
  destruct (List.length points <? 3)%nat; [reflexivity|].
  rewrite nth_length_last.
  f_equal; [destruct points; reflexivity|].
  f_equal. apply flat_map_ext. intros i.
  apply smoothSegment_samples. exact Hf.
Qed.


End SmoothPath.

(** ** Handle regions, over the reals *)

Section HandleGeometry.

Local Open Scope R_scope.

Lemma Rabs_le_between : forall a b : R, Rabs a <= b -> - b <= a <= b.
Proof.
  intros a b H. unfold Rabs in H. destruct (Rcase_abs a); lra.
Qed.

(** A test of the form [c/w - h/w <= X <= c/w + h/w], in pixels. *)
Lemma band_in_pixels : forall X c h w : R,
  0 < w ->
  (Rleb (c / w - h / w) X && Rleb X (c / w + h / w) = true
   <-> Rabs (X * w - c) <= h).
Proof.
  intros X c h w Hw.
  assert (Ec : c / w * w = c) by (field; lra).
  assert (Eh : h / w * w = h) by (field; lra).
  rewrite andb_true_iff. unfold Rleb.
  split.
  - intros [H1 H2].
    destruct (Rle_dec (c / w - h / w) X) as [L1|]; [|discriminate].
    destruct (Rle_dec X (c / w + h / w)) as [L2|]; [|discriminate].
    apply Rabs_le. split.
    + apply (Rmult_le_compat_r w) in L1; [|lra].
      rewrite Rmult_minus_distr_r, Ec, Eh in L1. lra.
    + apply (Rmult_le_compat_r w) in L2; [|lra].
      rewrite Rmult_plus_distr_r, Ec, Eh in L2. lra.
  - intros H.
    destruct (@Rabs_le_between _ _ H) as [L1 L2].
    split.
    + destruct (Rle_dec (c / w - h / w) X) as [|Hn]; [reflexivity|].
      exfalso. apply Hn. apply (Rmult_le_reg_r w); [lra|].
      rewrite Rmult_minus_distr_r, Ec, Eh. lra.
    + destruct (Rle_dec X (c / w + h / w)) as [|Hn]; [reflexivity|].
      exfalso. apply Hn. apply (Rmult_le_reg_r w); [lra|].
      rewrite Rmult_plus_distr_r, Ec, Eh. lra.
Qed.

Lemma resize_region : forall (cv : Canvas.t R) (x y : R)
  (im : ImageElement.t R),
  0 < Canvas.width cv -> 0 < Canvas.height cv ->
  (isResizeHandle cv x y im = true
   <-> Rabs (rotatedX cv x y im * Canvas.width cv
             - (ImageElement.x im + ImageElement.width im)) <= 16
       /\ Rabs (rotatedY cv x y im * Canvas.height cv
                - (ImageElement.y im + ImageElement.height im)) <= 16).
Proof.
  intros cv x y im Hw Hh. unfold isResizeHandle.
  rewrite <- (band_in_pixels _ _ _ Hw), <- (band_in_pixels _ _ _ Hh).
  cbn [nleb nadd nsub ndiv of_Z R_Number].
  rewrite <- andb_assoc, andb_true_iff. reflexivity.
Qed.

Lemma rotate_region : forall (cv : Canvas.t R) (x y : R)
  (im : ImageElement.t R),
  0 < Canvas.width cv -> 0 < Canvas.height cv ->
  (isRotateHandle cv x y im = true
   <-> Rabs (rotatedX cv x y im * Canvas.width cv
             - (ImageElement.x im + ImageElement.width im)) <= 30
       /\ Rabs (rotatedY cv x y im * Canvas.height cv
                - ImageElement.y im) <= 30).
Proof.
  intros cv x y im Hw Hh. unfold isRotateHandle.
  rewrite <- (band_in_pixels _ _ _ Hw), <- (band_in_pixels _ _ _ Hh).
  cbn [nleb nadd nsub ndiv of_Z R_Number].
  rewrite <- andb_assoc, andb_true_iff. reflexivity.
Qed.

Lemma delete_region : forall (cv : Canvas.t R) (x y : R)
  (im : ImageElement.t R),
  0 < Canvas.width cv -> 0 < Canvas.height cv ->
  (isDeleteHandle cv x y im = true
   <-> Rabs (rotatedX cv x y im * Canvas.width cv - ImageElement.x im) <= 16
       /\ Rabs (rotatedY cv x y im * Canvas.height cv
                - ImageElement.y im) <= 16).
Proof.
  intros cv x y im Hw Hh. unfold isDeleteHandle.
  rewrite <- (band_in_pixels _ _ _ Hw), <- (band_in_pixels _ _ _ Hh).
  cbn [nleb nadd nsub ndiv of_Z R_Number].
  rewrite <- andb_assoc, andb_true_iff. reflexivity.
Qed.

(** Without rotation the pointer is tested where it is. *)
Lemma rotated_at_zero : forall (cv : Canvas.t R) (x y : R)
  (im : ImageElement.t R),
  ImageElement.rotation im = 0 ->
  rotatedX cv x y im = x /\ rotatedY cv x y im = y.
Proof.
  intros cv x y im H. unfold rotatedX, rotatedY.
  cbn [nadd nsub nmul ndiv nopp of_Z R_Number Math_cos Math_sin Math_PI
       R_Trig].
  rewrite H.
  replace (- 0 * PI / 180) with 0 by (field).
  rewrite cos_0, sin_0. split; ring.
Qed.

End HandleGeometry.

(** ** Snapping, over the reals *)

Section Snapping.

Local Open Scope R_scope.

(** Two bounds of the arctangent on the non-negative reals, from the sign
    of a derivative. *)
Lemma atan_le_id : forall x : R, 0 <= x -> atan x <= x.
Proof.
  intros x Hx.
  set (f := fun t => t - atan t).
  assert (D : forall t, derivable_pt_lim f t (1 - / (1 + t ^ 2))).
  { intros t. unfold f.
    apply (derivable_pt_lim_minus id atan).
    - apply derivable_pt_lim_id.
    - apply derivable_pt_lim_atan. }
  assert (pr : derivable f).
  { intros t. exists (1 - / (1 + t ^ 2)). apply D. }
  assert (Hinc : increasing f).
  { apply (nonneg_derivative_1 f pr). intros t.
    rewrite (derive_pt_eq_0 _ _ _ (pr t) (D t)).
    assert (0 < 1 + t ^ 2) by nra.
    assert (/ (1 + t ^ 2) <= 1).
    { rewrite <- Rinv_1 at 2. apply Rinv_le_contravar; nra. }
    lra. }
  specialize (Hinc 0 x Hx). unfold f in Hinc. rewrite atan_0 in Hinc. lra.
Qed.

Lemma atan_ge_cubic : forall x : R, 0 <= x -> x - x ^ 3 / 3 <= atan x.
Proof.
  intros x Hx.
  set (f := fun t => atan t - (t - t ^ 3 * / 3)).
  assert (D : forall t,
             derivable_pt_lim f t (/ (1 + t ^ 2) - (1 - t ^ 2))).
  { intros t. unfold f.
    apply (derivable_pt_lim_minus atan (fun t => t - t ^ 3 * / 3)).
    - apply derivable_pt_lim_atan.
    - apply (derivable_pt_lim_minus id (fun t => t ^ 3 * / 3)).
      + apply derivable_pt_lim_id.
      + replace (t ^ 2) with (INR 3 * t ^ Nat.pred 3 * / 3 + t ^ 3 * 0)
          by (simpl; field).
        apply (derivable_pt_lim_mult (fun t => t ^ 3) (fun _ => / 3)).
        * apply derivable_pt_lim_pow.
        * apply derivable_pt_lim_const. }
  assert (pr : derivable f).
  { intros t. exists (/ (1 + t ^ 2) - (1 - t ^ 2)). apply D. }
  assert (Hinc : increasing f).
  { apply (nonneg_derivative_1 f pr). intros t.
    rewrite (derive_pt_eq_0 _ _ _ (pr t) (D t)).
    assert (P : 0 < 1 + t ^ 2) by nra.
    replace (/ (1 + t ^ 2) - (1 - t ^ 2)) with (t ^ 4 * / (1 + t ^ 2))
      by (field; lra).
    apply Rmult_le_pos.
    - replace (t ^ 4) with ((t ^ 2) ^ 2) by ring. apply pow2_ge_0.
    - left. apply Rinv_0_lt_compat. exact P. }
  specialize (Hinc 0 x Hx). unfold f in Hinc. rewrite atan_0 in Hinc. lra.
Qed.

Lemma PI_gt_3 : 3 < PI.
Proof. pose proof PI2_3_2. lra. Qed.

(** Radians to degrees, with bounds. *)
Lemma degrees_between : forall a lo hi : R,
  lo * PI / 180 <= a -> a < hi * PI / 180 ->
  lo <= a * 180 / PI < hi.
Proof.
  intros a lo hi Hlo Hhi.
  pose proof PI_gt_3 as HPI.
  assert (K : 0 < 180 / PI).
  { apply Rdiv_lt_0_compat; lra. }
  replace (a * 180 / PI) with (a * (180 / PI)) by (field; lra).
  assert (E1 : lo = lo * PI / 180 * (180 / PI)) by (field; lra).
  assert (E2 : hi = hi * PI / 180 * (180 / PI)) by (field; lra).
  split.
  - rewrite E1. apply Rmult_le_compat_r; lra.
  - rewrite E2. apply Rmult_lt_compat_r; lra.
Qed.

(** The slope 1/20 makes an angle of at least 2 and less than 5 degrees. *)
Lemma angle_of_slope_20th : 2 <= atan (1 / 20) * 180 / PI < 5.
Proof.
  pose proof PI_gt_3 as HPI. pose proof PI_4 as HPI4.
  apply degrees_between.
  - pose proof (@atan_ge_cubic (1 / 20)) as H.
    assert (1 / 20 - (1 / 20) ^ 3 / 3 <= atan (1 / 20)) by (apply H; lra).
    lra.
  - pose proof (@atan_le_id (1 / 20)) as H.
    assert (atan (1 / 20) <= 1 / 20) by (apply H; lra).
    lra.
Qed.

Lemma R_rem_360 : forall a : R, 0 <= a < 360 -> R_rem (a + 360) 360 = a.
Proof.
  intros a [H0 H1]. unfold R_rem, Rtrunc.
  destruct (Rle_dec 0 ((a + 360) / 360)) as [_|Hn]; [|exfalso; lra].
  rewrite <- (Int_part_spec ((a + 360) / 360) 1).
  - lra.
  - lra.
Qed.

(** The angle that [getSnappedEndPoint] computes for a segment pointing
    into the first quadrant. *)
Lemma snap_angle : forall dx dy : R,
  0 < dx -> 0 <= dy ->
  R_rem (R_atan2 dy dx * 180 / PI + 360) 360 = atan (dy / dx) * 180 / PI.
Proof.
  intros dx dy Hdx Hdy.
  unfold R_atan2. destruct (Rlt_dec 0 dx) as [_|]; [|contradiction].
  apply R_rem_360.
  assert (Hq : 0 <= dy / dx).
  { apply Rmult_le_pos; [lra|]. left. apply Rinv_0_lt_compat. exact Hdx. }
  assert (Ha : 0 <= atan (dy / dx)).
  { destruct Hq as [Hq|Hq].
    - left. rewrite <- atan_0. apply atan_increasing. exact Hq.
    - rewrite <- Hq, atan_0. lra. }
  pose proof (atan_bound (dy / dx)) as [_ Hb].
  pose proof PI_gt_3 as HPI.
  destruct (@degrees_between (atan (dy / dx)) 0 90) as [L U]; lra.
Qed.

Lemma Rltb_Rabs_false : forall a b : R,
  b <= a \/ a <= - b -> Rltb (Rabs a) b = false.
Proof.
  intros a b H. apply Rltb_false. unfold Rabs.
  destruct (Rcase_abs a); lra.
Qed.

Lemma Rltb_Rabs_true : forall a b : R,
  - b < a < b -> Rltb (Rabs a) b = true.
Proof.
  intros a b H. apply Rltb_true. unfold Rabs.
  destruct (Rcase_abs a); lra.
Qed.

(** [getSnappedEndPoint] from the origin to a point of the first
    quadrant, in terms of the angle [A] of the segment in degrees. *)
Lemma snap_from_origin : forall ex ey : R,
  0 < ex -> 0 <= ey ->
  let A := atan (ey / ex) * 180 / PI in
  getSnappedEndPoint (Point.mk 0 0) (Point.mk ex ey)
  = if (Rltb A 5 || Rltb (Rabs (A - 180)) 5) && Rltb (Rabs ey) (2 / 100)
    then Point.mk ex 0
    else if (Rltb (Rabs (A - 90)) 2 || Rltb (Rabs (A - 270)) 2)
            && Rltb (Rabs ex) (2 / 100)
    then Point.mk 0 ey
    else Point.mk ex ey.
Proof.
  intros ex ey Hx Hy A. unfold getSnappedEndPoint.
  unfold HORIZONTAL_SNAP_THRESHOLD, VERTICAL_SNAP_THRESHOLD,
    HORIZONTAL_SNAP_DISTANCE_THRESHOLD, VERTICAL_SNAP_DISTANCE_THRESHOLD.
  cbn [nltb nabs nadd nsub nmul ndiv of_Z R_Number Math_atan2 Math_PI nrem
       R_Trig Point.x Point.y].
  rewrite !Rminus_0_r.
  rewrite snap_angle by assumption.
  reflexivity.
Qed.

(** The second case of C5 as the program computes it: the segment to
    (0.005, 0.1) is 2.86 degrees off the vertical, beyond the tolerance
    of 2 degrees, and the candidate is returned. *)
Lemma snap_near_vertical :
  getSnappedEndPoint (Point.mk 0 0) (Point.mk (5 / 1000) (1 / 10))
  = Point.mk (5 / 1000) (1 / 10).
Proof.
  rewrite snap_from_origin by lra. cbv zeta.
  replace (1 / 10 / (5 / 1000)) with (/ (1 / 20)) by field.
  rewrite atan_inv by lra.
  pose proof angle_of_slope_20th as [L U].
  pose proof PI_gt_3 as HPI.
  replace ((PI / 2 - atan (1 / 20)) * 180 / PI)
    with (90 - atan (1 / 20) * 180 / PI) by (field; lra).
  rewrite (@Rltb_false (90 - atan (1 / 20) * 180 / PI) 5) by lra.
  rewrite (@Rltb_Rabs_false (90 - atan (1 / 20) * 180 / PI - 180) 5) by lra.
  rewrite (@Rltb_Rabs_false (90 - atan (1 / 20) * 180 / PI - 90) 2) by lra.
  rewrite (@Rltb_Rabs_false (90 - atan (1 / 20) * 180 / PI - 270) 2) by lra.
  reflexivity.
Qed.

(** C5 as stated fails in its second case: the candidate (0.005, 0.1) is
    not snapped to (0, 0.1). *)
Lemma near_vertical_is_not_snapped :
  getSnappedEndPoint (Point.mk 0 0) (Point.mk (5 / 1000) (1 / 10))
  <> Point.mk 0 (1 / 10).
Proof.
  rewrite snap_near_vertical. intros H.
  apply (f_equal (@Point.x R)) in H. simpl in H. lra.
Qed.

(** C5, as amended: from the start (0, 0), the candidate (0.1, 0.005)
    is snapped to the horizontal, (0.1, 0); the candidate (0.005, 0.1),
    which is more than 2 degrees off the vertical, is returned as it is,
    and so is the candidate (0.1, 0.1). *)
Theorem snapping_cases :
  getSnappedEndPoint (Point.mk 0 0) (Point.mk (1 / 10) (5 / 1000))
  = Point.mk (1 / 10) 0
  /\ getSnappedEndPoint (Point.mk 0 0) (Point.mk (5 / 1000) (1 / 10))
     = Point.mk (5 / 1000) (1 / 10)
  /\ getSnappedEndPoint (Point.mk 0 0) (Point.mk (1 / 10) (1 / 10))
     = Point.mk (1 / 10) (1 / 10).
Proof.
  split; [|split].
  - rewrite snap_from_origin by lra. cbv zeta.
    replace (5 / 1000 / (1 / 10)) with (1 / 20) by field.
    pose proof angle_of_slope_20th as [L U].
    rewrite (@Rltb_true (atan (1 / 20) * 180 / PI) 5) by lra.
    rewrite (@Rltb_Rabs_true (5 / 1000) (2 / 100)) by lra.
    reflexivity.
  - exact snap_near_vertical.
  - rewrite snap_from_origin by lra. cbv zeta.
    replace (1 / 10 / (1 / 10)) with 1 by field.
    rewrite atan_1.
    pose proof PI_gt_3 as HPI.
    replace (PI / 4 * 180 / PI) with 45 by (field; lra).
    rewrite (@Rltb_false 45 5) by lra.
    rewrite (@Rltb_Rabs_false (45 - 180) 5) by lra.
    rewrite (@Rltb_Rabs_false (45 - 90) 2) by lra.
    rewrite (@Rltb_Rabs_false (45 - 270) 2) by lra.
    reflexivity.
Qed.

End Snapping.

(** ** The properties at concrete states *)

Section Examples.

Local Open Scope R_scope.

(** C3 (the program departs from it): releasing the pointer in line mode
    commits the line without clearing the redo stack.  In [lineStarted]
    the redo stack holds an undone stroke; after the line is committed it
    still does, and [redo] puts the stroke back on the undo stack, above
    the line. *)
Theorem line_commit_keeps_redo_stack :
  redoActions lineStarted = [undoneStroke]
  /\ exists s' line,
       onMouseUp 400 300 lineStarted = Some s'
       /\ actions s' = [line]
       /\ redoActions s' = [undoneStroke]
       /\ actions (redo s') = [line; undoneStroke].
Proof.
  assert (Hr0 : redoActions lineStarted = [undoneStroke]) by reflexivity.
  assert (Ha0 : actions lineStarted = []) by reflexivity.
  split; [exact Hr0|].
  destruct (@onMouseUp_line R R_Number R_Trig 400 300 lineStarted
              (Point.mk (1 / 4) (1 / 4)) exampleCanvas
              eq_refl eq_refl eq_refl)
    as (s' & line & Hrun & Hact & _ & Hredo).
  rewrite Ha0 in Hact. rewrite Hr0 in Hredo. simpl app in Hact.
  exists s', line.
  split; [exact Hrun|].
  split; [exact Hact|].
  split; [exact Hredo|].
  destruct (@redo_path R s' [] _ _ _ _ Hredo) as [Ha _].
  rewrite Ha, Hact. reflexivity.
Qed.

Lemma deleteFirst_committed :
  committed [imageAction ActionType.deleteImage 0%nat] twoImages
    (deleteImage 0%nat twoImages).
Proof.
  apply (@committed_snoc R R_Number R_Trig [] _ twoImages twoImages twoImages
           (EDelete 0%nat)).
  - apply committed_nil.
  - repeat split.
  - reflexivity.
  - reflexivity.
Defined.

(** C2 as stated fails: deleting the first of two images and undoing the
    deletion leaves the images in the other order. *)
Lemma delete_then_undo_reorders :
  ~ (forall (cmds : list (DrawAction.t R)) (s s' : State R),
       committed cmds s s' ->
       let u := Nat.iter (List.length cmds) undo s' in
       images u = images s
       /\ actions u = actions s
       /\ redoActions u = redoActions s).
Proof.
  intros H.
  destruct (H _ _ _ deleteFirst_committed) as [Hi _].
  change ([1; 0]%nat = [0; 1]%nat) in Hi.
  discriminate Hi.
Qed.

(** The law of the order that C6 rests on, on the reals. *)
Lemma R_le_excludes_gt : forall a b : R, Rleb a b = true -> Rltb b a = false.
Proof.
  intros a b H. unfold Rleb in H. destruct (Rle_dec a b); [|discriminate].
  apply Rltb_false. assumption.
Qed.

(** The same law in binary64, from the specification of the primitive
    comparisons. *)
Lemma SFleb_excludes_gt : forall x y : spec_float,
  SFleb x y = true -> SFltb y x = false.
Proof.
  intros x y. unfold SFleb, SFltb, SFcompare.
  destruct x as [s1|s1| |s1 m1 e1], y as [s2|s2| |s2 m2 e2];
    try destruct s1; try destruct s2; simpl; try congruence.
  all: rewrite (Z.compare_antisym e1 e2).
  all: change (Pos.compare_cont Eq m2 m1) with (Pos.compare m2 m1).
  all: change (Pos.compare_cont Eq m1 m2) with (Pos.compare m1 m2).
  all: rewrite (Pos.compare_antisym m1 m2).
  all: destruct (e1 ?= e2)%Z; simpl; try congruence;
    destruct (m1 ?= m2)%positive; simpl; congruence.
Qed.

Lemma float_le_excludes_gt : forall a b : float,
  PrimFloat.leb a b = true -> PrimFloat.ltb b a = false.
Proof.
  intros a b. rewrite leb_spec, ltb_spec. apply SFleb_excludes_gt.
Qed.

(** C6 in binary64, at an image of 100 by 100 pixels and a pointer that
    asks for a width of 15. *)
Lemma resize_below_minimum_rejected_witness :
  resizeSelectedImage (PrimFloat.div 15 800) 0%float floatSelected
  = Some floatSelected.
Proof.
  apply (@resize_below_minimum_rejected float float_Number
           float_le_excludes_gt (PrimFloat.div 15 800) 0%float floatSelected
           0%nat
           (Canvas.mk 0%float 0%float 800%float 600%float
              800%float 600%float)
           eq_refl eq_refl).
  left. vm_compute. reflexivity.
Defined.


(** C10 at a horizontal flip of the selected image. *)
Lemma size_command_touches_size_only_witness :
  exists im w0 h0 w1 h1,
    let a :=
      transformAction ActionType.resizeImage 0%nat (sizeState 100 100)
        (sizeState (- 100) 100) in
    DrawAction.image a = Some im
    /\ DrawAction.oldState a = Some (sizeState w0 h0)
    /\ DrawAction.newState a = Some (sizeState w1 h1)
    /\ (forall (u : State R) rest, actions u = rest ++ [a] ->
          touchesSizeOnly im (heap u) (heap (undo u)))
    /\ (forall (u : State R) rest, redoActions u = rest ++ [a] ->
          touchesSizeOnly im (heap u) (heap (redo u))).
Proof.
  apply (@size_command_touches_size_only R R_Number firstSelected
           (flipImage true firstSelected) 0 0 true).
  - right. reflexivity.
  - reflexivity.
Defined.


(** In binary64 as on the reals, the sampling loop of [createSmoothPath]
    takes eleven samples and stops by its own test (the parameter of the
    last sample is the sum of ten times 0.1, the double just below 1). *)
Lemma sampleLoop_float_samples : forall c1 p c2 : Point.t float,
  List.length (sampleLoop sampleFuel 0%float c1 p c2) = 11%nat.
Proof. intros c1 p c2. vm_compute. reflexivity. Qed.

(** Hence the shape of the smoothed path is the same in binary64. *)
Lemma createSmoothPath_float_shape : forall points : list (Point.t float),
  (3 <= List.length points)%nat ->
  hd origin (createSmoothPath sampleFuel points) = hd origin points
  /\ last (createSmoothPath sampleFuel points) origin = last points origin
  /\ List.length (createSmoothPath sampleFuel points)
     = (2 + 11 * (List.length points - 2))%nat.
Proof.
  intros points Hlen. unfold createSmoothPath.
  assert (E : (List.length points <? 3)%nat = false)
    by (apply Nat.ltb_ge; exact Hlen).
  rewrite E, nth_length_last.
  split; [destruct points; reflexivity | split].
  - rewrite app_assoc. apply last_last.
  - rewrite !length_app.
    rewrite (@flat_map_constant_length _ _ 11%nat).
    + rewrite length_seq. simpl. lia.
    + intros i _. unfold smoothSegment. apply sampleLoop_float_samples.
Qed.

End Examples.

(** * Further properties of the component *)

Unset Implicit Arguments.

(** ** The two stacks *)

Section Stacks.

Context {num : Type} {N : Number num}.

Lemma pop_Some : forall (A : Type) (l : list A) (a : A) (rest : list A),
  pop l = Some (a, rest) -> l = rest ++ [a].
Proof.
  induction l as [|h t IH]; intros a rest H; simpl in H; [discriminate|].
  destruct (pop t) as [[b t']|] eqn:E.
  - injection H as <- <-. rewrite (IH b t' eq_refl). reflexivity.
  - injection H as <- <-. apply pop_nil_inv in E. subst t. reflexivity.
Qed.

Lemma redo_stacks : forall (u : State num) rest a,
  redoActions u = rest ++ [a] ->
  redoActions (redo u) = rest /\ actions (redo u) = actions u ++ [a].
Proof.
  intros u rest a H. unfold redo. rewrite H, pop_snoc.
  destruct (DrawAction.type a);
    repeat match goal with
           | |- context [match ?o with _ => _ end] =>
               destruct o; simpl
           end; split; reflexivity.
Qed.

(** X1: [undo] and [redo] only move the command at the junction of the
    two stacks: the undo stack followed by the redo stack read from its
    top is the same sequence of commands before and after either. *)
Theorem undo_redo_keep_the_timeline : forall s : State num,
  actions (undo s) ++ rev (redoActions (undo s))
  = actions s ++ rev (redoActions s)
  /\ actions (redo s) ++ rev (redoActions (redo s))
     = actions s ++ rev (redoActions s).
Proof.
  intros s. split.
  - destruct (pop (actions s)) as [[a rest]|] eqn:E.
    + apply pop_Some in E.
      destruct (@undo_stacks _ s rest a E) as [Ha Hr].
      rewrite Ha, Hr, E, rev_app_distr, <- app_assoc. reflexivity.
    + unfold undo. rewrite E. reflexivity.
  - destruct (pop (redoActions s)) as [[a rest]|] eqn:E.
    + apply pop_Some in E.
      destruct (@redo_stacks s rest a E) as [Hr Ha].
      rewrite Ha, Hr, E, rev_app_distr, <- app_assoc. reflexivity.
    + unfold redo. rewrite E. reflexivity.
Qed.

End Stacks.

(** ** Commits, undone and redone *)

Section CommitRoundTrips.

Context {num : Type} {N : Number num} {T : Trig num}.

Lemma Object_assign_size_forth : forall (o : ImageElement.t num) w h,
  Object_assign o (sizeState w h)
  = ImageElement.mk (ImageElement.img o) (ImageElement.x o)
      (ImageElement.y o) w h (ImageElement.rotation o).
Proof. intros. reflexivity. Qed.

(** The four shapes of a commit. *)
Lemma commit_shape : forall (e : Edit num) (t s' : State num) a,
  runEdit e t = Some s' ->
  actions s' = actions t ++ [a] ->
  CommitShape t s' a.
Proof.
  intros e t s' a Hrun Hpush.
  destruct e as [cx cy | im | x y | x y | hz | ]; simpl in Hrun.
  - unfold onMouseUp in Hrun. simpl in Hrun.
    destruct (isLineDrawingMode t) eqn:Hmode;
      [destruct (lineStartPoint t) as [start|] eqn:Hstart|].
    + unfold getCanvasCoordinates in Hrun. simpl in Hrun.
      destruct (canvasRef t) as [cv|]; [|discriminate].
      injection Hrun as <-. simpl in *.
      apply app_inj_tail in Hpush. destruct Hpush as [_ <-].
      eapply ShapePath; reflexivity.
    + injection Hrun as <-. unfold stopDrawing in *. simpl in *.
      destruct (isDrawing t); simpl in *;
        [|exfalso; eapply snoc_self_absurd; exact Hpush].
      destruct (1 <? List.length (currentPath t))%nat; simpl in *;
        [|exfalso; eapply snoc_self_absurd; exact Hpush].
      apply app_inj_tail in Hpush. destruct Hpush as [_ <-].
      eapply ShapePath; reflexivity.
    + injection Hrun as <-. unfold stopDrawing in *. simpl in *.
      destruct (isDrawing t); simpl in *;
        [|exfalso; eapply snoc_self_absurd; exact Hpush].
      destruct (1 <? List.length (currentPath t))%nat; simpl in *;
        [|exfalso; eapply snoc_self_absurd; exact Hpush].
      apply app_inj_tail in Hpush. destruct Hpush as [_ <-].
      eapply ShapePath; reflexivity.
  - injection Hrun as <-. unfold deleteImage in *.
    destruct (-1 <? indexOf im (images t))%Z eqn:Hidx;
      [|exfalso; eapply snoc_self_absurd; exact Hpush].
    simpl in *.
    apply app_inj_tail in Hpush. destruct Hpush as [_ <-].
    destruct (splice_indexOf _ _ Hidx) as (l1 & l2 & El & Hn & Es).
    eapply (@ShapeDelete _ _ _ _ im l1 l2);
      [reflexivity | exact El | exact Hn | exact Es | reflexivity
      | reflexivity].
  - unfold resizeSelectedImage in Hrun.
    destruct (selectedImage t) as [sel|];
      [|injection Hrun as <-; exfalso; eapply snoc_self_absurd; exact Hpush].
    destruct (canvasRef t) as [cv|]; [|discriminate].
    match type of Hrun with (if ?c then _ else _) = _ => destruct c end;
      [|injection Hrun as <-; exfalso; eapply snoc_self_absurd; exact Hpush].
    injection Hrun as <-. simpl in *.
    apply app_inj_tail in Hpush. destruct Hpush as [_ <-].
    eapply ShapeTransform;
      [left; reflexivity | reflexivity | reflexivity | reflexivity
      | reflexivity | apply Object_assign_size_back | reflexivity].
  - unfold rotateSelectedImage in Hrun.
    destruct (selectedImage t) as [sel|];
      [|injection Hrun as <-; exfalso; eapply snoc_self_absurd; exact Hpush].
    destruct (canvasRef t) as [cv|]; [|discriminate].
    injection Hrun as <-. simpl in *.
    apply app_inj_tail in Hpush. destruct Hpush as [_ <-].
    eapply ShapeTransform;
      [right; reflexivity | reflexivity | reflexivity | reflexivity
      | reflexivity | apply Object_assign_rotation_back | reflexivity].
  - injection Hrun as <-. unfold flipImage in *.
    destruct (selectedImage t) as [sel|];
      [|exfalso; eapply snoc_self_absurd; exact Hpush].
    simpl in *.
    apply app_inj_tail in Hpush. destruct Hpush as [_ <-].
    eapply ShapeTransform;
      [left; reflexivity | reflexivity | reflexivity | reflexivity
      | reflexivity | | ].
    + destruct hz; destruct (heap t sel); reflexivity.
    + destruct hz; destruct (heap t sel); reflexivity.
  - injection Hrun as <-. unfold duplicateImage in *.
    destruct (selectedImage t) as [sel|];
      [|exfalso; eapply snoc_self_absurd; exact Hpush].
    simpl in *.
    apply app_inj_tail in Hpush. destruct Hpush as [_ <-].
    eapply ShapeAdd; reflexivity.
Qed.

Lemma first_occurrence_unique : forall (r : ref) (l1 l1' l2 l2' : list ref),
  l1 ++ r :: l2 = l1' ++ r :: l2' -> ~ In r l1 -> ~ In r l1' ->
  l1 = l1' /\ l2 = l2'.
Proof.
  induction l1 as [|a l1 IH]; intros l1' l2 l2' E H1 H2.
  - destruct l1' as [|b l1']; simpl in E.
    + injection E as <-. auto.
    + injection E as <- _. exfalso. apply H2. left. reflexivity.
  - destruct l1' as [|b l1']; simpl in E.
    + injection E as -> _. exfalso. apply H1. left. reflexivity.
    + injection E as <- E.
      destruct (IH l1' l2 l2' E) as [-> ->].
      * intros G. apply H1. right. exact G.
      * intros G. apply H2. right. exact G.
      * auto.
Qed.

(** [indexOf] and [splice] at a known first occurrence. *)
Lemma splice_first : forall (r : ref) (l1 l2 : list ref),
  ~ In r l1 ->
  (-1 <? indexOf r (l1 ++ r :: l2))%Z = true
  /\ splice1 (indexOf r (l1 ++ r :: l2)) (l1 ++ r :: l2) = l1 ++ l2.
Proof.
  intros r l1 l2 Hn.
  assert (Hin : In r (l1 ++ r :: l2))
    by (apply in_or_app; right; left; reflexivity).
  pose proof (indexOf_In _ _ Hin) as Hidx. split; [exact Hidx|].
  destruct (splice_indexOf _ _ Hidx) as (l1' & l2' & E & Hn' & Es).
  destruct (@first_occurrence_unique r l1 l1' l2 l2' E Hn Hn') as [-> ->].
  exact Es.
Qed.

(** X2: right after an edit has committed a command, [undo] followed by
    [redo] gives back the document the edit produced: the same image
    list (order included), the same image objects and the same two
    stacks, provided the image list names no image twice. *)
Theorem redo_after_undo_restores_commit :
  forall (e : Edit num) (t s' : State num) a,
    runEdit e t = Some s' ->
    actions s' = actions t ++ [a] ->
    wellFormedImages t ->
    sameDocument (redo (undo s')) s'.
Proof.
  intros e t s' a Hrun Hpush [Hnd Hfresh].
  destruct (@commit_shape e t s' a Hrun Hpush)
    as [p c w e0 -> Hi Hh Hn
       | im l1 l2 -> El Hn1 Es Hh Hn
       | o -> Hi Hh Hn
       | ty sel old new o' Hty -> Hi Hh Hn Hback Hforth].
  - unfold undo. rewrite Hpush, pop_snoc. simpl.
    unfold redo. simpl. rewrite pop_snoc. simpl.
    unfold sameDocument. simpl. rewrite Hpush. auto.
  - unfold undo. rewrite Hpush, pop_snoc. simpl.
    unfold redo. simpl. rewrite pop_snoc. simpl.
    assert (Hnot : ~ In im (images s')).
    { rewrite Es. rewrite El in Hnd. apply NoDup_remove_2 in Hnd.
      exact Hnd. }
    destruct (@splice_first im (images s') [] Hnot) as [Hidx Hsp].
    rewrite Hidx. rewrite Hsp, app_nil_r.
    unfold sameDocument. simpl. rewrite Hpush. auto.
  - unfold undo. rewrite Hpush, pop_snoc. simpl.
    rewrite Hi.
    destruct (@splice_first (nextRef t) (images t) [] Hfresh) as [Hidx Hsp].
    rewrite Hidx. rewrite Hsp, app_nil_r.
    unfold redo. simpl. rewrite pop_snoc. simpl.
    unfold sameDocument. simpl. rewrite Hpush, Hi. auto.
  - assert (Hheap :
      heap_set sel
        (Object_assign
           (heap_set sel (Object_assign (heap s' sel) old) (heap s') sel)
           new)
        (heap_set sel (Object_assign (heap s' sel) old) (heap s'))
      = heap s').
    { apply functional_extensionality. intros r.
      unfold heap_set at 1. destruct (Nat.eqb r sel) eqn:E.
      - apply Nat.eqb_eq in E. subst r.
        rewrite heap_set_same, Hh, !heap_set_same, Hback, Hforth.
        reflexivity.
      - apply Nat.eqb_neq in E. rewrite heap_set_other by exact E.
        reflexivity. }
    unfold undo. rewrite Hpush, pop_snoc.
    destruct Hty; subst ty; simpl;
      unfold redo; simpl; rewrite pop_snoc; simpl;
      unfold sameDocument; simpl; rewrite Hpush, Hheap; auto.
Qed.

(** X3: one [undo] right after an edit has committed a command gives back
    the image list as it was before the edit, order included, and every
    image object that existed then, unless the edit deleted an image
    that was not the last of the list. *)
Theorem undo_restores_the_list_exactly :
  forall (e : Edit num) (t s' : State num) a,
    runEdit e t = Some s' ->
    actions s' = actions t ++ [a] ->
    wellFormedImages t ->
    (forall im, a = imageAction ActionType.deleteImage im ->
                exists l, images t = l ++ [im]) ->
    images (undo s') = images t
    /\ actions (undo s') = actions t
    /\ (forall r, r <> nextRef t -> heap (undo s') r = heap t r).
Proof.
  intros e t s' a Hrun Hpush [Hnd Hfresh] Hlast.
  destruct (@commit_shape e t s' a Hrun Hpush)
    as [p c w e0 -> Hi Hh Hn
       | im l1 l2 -> El Hn1 Es Hh Hn
       | o -> Hi Hh Hn
       | ty sel old new o' Hty -> Hi Hh Hn Hback Hforth].
  - unfold undo. rewrite Hpush, pop_snoc. simpl.
    rewrite Hi, Hh. auto.
  - destruct (Hlast im eq_refl) as [l El'].
    assert (Hnl : ~ In im l).
    { rewrite El' in Hnd. apply NoDup_remove_2 in Hnd.
      rewrite app_nil_r in Hnd. exact Hnd. }
    rewrite El' in El.
    destruct (@first_occurrence_unique im l l1 [] l2 El Hnl Hn1) as [-> <-].
    unfold undo. rewrite Hpush, pop_snoc. simpl.
    rewrite Es, Hh, app_nil_r, El'. auto.
  - unfold undo. rewrite Hpush, pop_snoc. simpl.
    rewrite Hi.
    destruct (@splice_first (nextRef t) (images t) [] Hfresh) as [Hidx Hsp].
    rewrite Hidx. rewrite Hsp, app_nil_r. simpl.
    split; [reflexivity | split; [reflexivity|]].
    intros r Hr. rewrite Hh. apply heap_set_other. exact Hr.
  - unfold undo. rewrite Hpush, pop_snoc.
    destruct Hty; subst ty; simpl;
      (split; [exact Hi | split; [reflexivity|]]);
      intros r _; unfold heap_set at 1;
      (destruct (Nat.eqb r sel) eqn:E;
       [ apply Nat.eqb_eq in E; subst r;
         rewrite Hh, heap_set_same; exact Hback
       | apply Nat.eqb_neq in E; rewrite Hh, heap_set_other; auto ]).
Qed.

End CommitRoundTrips.

(** ** A sequence of commits, undone *)

Section CommitsAndUndos.

Context {num : Type} {N : Number num} {T : Trig num}.

Lemma memb_In : forall r l, memb r l = true <-> In r l.
Proof.
  intros r l. unfold memb. rewrite existsb_exists. split.
  - intros (x & Hx & E). apply Nat.eqb_eq in E. subst x. exact Hx.
  - intros H. exists r. split; [exact H | apply Nat.eqb_refl].
Qed.

Lemma memb_not_In : forall r l, ~ In r l -> memb r l = false.
Proof.
  intros r l H. destruct (memb r l) eqn:E; [|reflexivity].
  apply memb_In in E. contradiction.
Qed.

Lemma memb_app : forall r l1 l2,
  memb r (l1 ++ l2) = memb r l1 || memb r l2.
Proof. intros. apply existsb_app. Qed.

Lemma memb_cons : forall r a l, memb r (a :: l) = Nat.eqb r a || memb r l.
Proof. reflexivity. Qed.

Lemma filter_keeps : forall (f : ref -> bool) l,
  (forall x, In x l -> f x = true) -> filter f l = l.
Proof.
  intros f l. induction l as [|a l IH]; simpl; intros H; [reflexivity|].
  rewrite (H a) by (left; reflexivity). f_equal.
  apply IH. intros x Hx. apply H. right. exact Hx.
Qed.

Lemma filter_twice : forall (f g : ref -> bool) l,
  filter f (filter g l) = filter (fun x => g x && f x) l.
Proof.
  intros f g l. induction l as [|a l IH]; simpl; [reflexivity|].
  destruct (g a); simpl; [destruct (f a)|]; rewrite IH; reflexivity.
Qed.

(** Filtering a list from which [im] has been taken out. *)
Lemma filter_without : forall (f g : ref -> bool) im l1 l2,
  f im = false ->
  (forall x, x <> im -> f x = g x) ->
  ~ In im (l1 ++ l2) ->
  filter f (l1 ++ im :: l2) = filter g (l1 ++ l2).
Proof.
  intros f g im l1 l2 Him Hfg Hn.
  rewrite !filter_app. simpl. rewrite Him.
  f_equal; apply filter_ext_in; intros x Hx; apply Hfg; intros ->;
    apply Hn; apply in_or_app; auto.
Qed.

(** In a list without repetition, to remove the first occurrence of an
    image is to remove the image. *)
Lemma splice_is_filter : forall (o : ref) (l : list ref),
  NoDup l ->
  (if (-1 <? indexOf o l)%Z then splice1 (indexOf o l) l else l)
  = filter (fun r => negb (Nat.eqb r o)) l.
Proof.
  intros o l Hnd. destruct (-1 <? indexOf o l)%Z eqn:E.
  - destruct (splice_indexOf _ _ E) as (l1 & l2 & El & Hn1 & Es).
    rewrite Es, El. rewrite El in Hnd. apply NoDup_remove_2 in Hnd.
    symmetry.
    transitivity (filter (fun _ : ref => true) (l1 ++ l2));
      [|apply filter_true].
    apply filter_without.
    + rewrite Nat.eqb_refl. reflexivity.
    + intros x Hx. apply Nat.eqb_neq in Hx. rewrite Hx. reflexivity.
    + exact Hnd.
  - symmetry. apply filter_keeps. intros x Hx.
    destruct (Nat.eqb x o) eqn:Ex; [|reflexivity].
    apply Nat.eqb_eq in Ex. subst x.
    pose proof (indexOf_In _ _ Hx). congruence.
Qed.

Lemma commit_keeps_allocated : forall (t s' : State num) a,
  CommitShape t s' a -> allocatedImages t -> allocatedImages s'.
Proof.
  intros t s' a Hshape [Hnd Hlt]. unfold allocatedImages.
  destruct Hshape
    as [p c w e _ Hi Hh Hn
       | im l1 l2 _ El Hn1 Es Hh Hn
       | o _ Hi Hh Hn
       | ty sel old new o' Hty _ Hi Hh Hn Hback Hforth].
  - rewrite Hi, Hn. auto.
  - rewrite Es, Hn. split.
    + rewrite El in Hnd. apply NoDup_remove_1 in Hnd. exact Hnd.
    + intros r Hr. apply Hlt. rewrite El.
      apply in_app_or in Hr. apply in_or_app.
      destruct Hr; [left | right; right]; assumption.
  - rewrite Hi, Hn. split.
    + apply (Permutation_NoDup (Permutation_cons_append (images t) (nextRef t))).
      constructor; [|exact Hnd].
      intros H. apply Hlt in H. lia.
    + intros r Hr. apply in_app_or in Hr.
      destruct Hr as [Hr | [<- | []]]; [apply Hlt in Hr|]; lia.
  - rewrite Hi, Hn. auto.
Qed.

(** What one [undo] does to the list, from a state [u] that holds the
    list as the undoing of the commands [later] has left it. *)
Lemma undo_list_step : forall (t s' u : State num) (a : DrawAction.t num)
  (later : list (DrawAction.t num)),
  CommitShape t s' a ->
  allocatedImages t ->
  actions u = actions t ++ [a] ->
  NoDup (images u) ->
  deletesFrom later s' ->
  images u = undoneList later (images s') ->
  images (undo u) = undoneList (a :: later) (images t)
  /\ deletesFrom (a :: later) t.
Proof.
  intros t s' u a later Hshape [Hnd Hlt] Ha Hu HP Hi.
  destruct Hshape
    as [p c w e -> Hi' Hh Hn
       | im l1 l2 -> El Hn1 Es Hh Hn
       | o -> Hi' Hh Hn
       | ty sel old new o' Hty -> Hi' Hh Hn Hback Hforth].
  - split.
    + unfold undo. rewrite Ha, pop_snoc. simpl.
      rewrite Hi, Hi'. reflexivity.
    + intros d Hd.
      change (In d (deletedImages later)) in Hd.
      destruct (HP d Hd) as [H | H];
        [left; rewrite <- Hi' | right; rewrite <- Hn]; exact H.
  - assert (Him : ~ In im (l1 ++ l2)).
    { rewrite El in Hnd. apply NoDup_remove_2 in Hnd. exact Hnd. }
    assert (HimD : ~ In im (deletedImages later)).
    { intros Hd. destruct (HP im Hd) as [H | H].
      - rewrite Es in H. contradiction.
      - rewrite Hn in H.
        assert (im < nextRef t)%nat; [|lia].
        apply Hlt. rewrite El. apply in_or_app. right. left. reflexivity. }
    split.
    + unfold undo. rewrite Ha, pop_snoc. simpl.
      rewrite Hi, Es, El. unfold undoneList.
      change (deletedImages
                (imageAction ActionType.deleteImage im :: later))
        with (im :: deletedImages later).
      set (D := deletedImages later) in *.
      rewrite (filter_without
                 (fun r => negb (memb r (im :: D)))
                 (fun r => negb (memb r D)) im l1 l2).
      * simpl filter.
        rewrite (proj2 (memb_In im (l1 ++ im :: l2)))
          by (apply in_or_app; right; left; reflexivity).
        simpl rev. rewrite app_assoc. do 3 f_equal.
        apply filter_ext_in. intros x Hx.
        rewrite !memb_app, memb_cons.
        replace (Nat.eqb x im) with false; [reflexivity|].
        symmetry. apply Nat.eqb_neq. intros ->. contradiction.
      * rewrite memb_cons, Nat.eqb_refl. reflexivity.
      * intros x Hx. rewrite memb_cons.
        apply Nat.eqb_neq in Hx. rewrite Hx. reflexivity.
      * exact Him.
    + intros d Hd.
      change (In d (im :: deletedImages later)) in Hd.
      destruct Hd as [<- | Hd].
      * left. rewrite El. apply in_or_app. right. left. reflexivity.
      * destruct (HP d Hd) as [H | H].
        -- left. rewrite Es in H. rewrite El.
           apply in_app_or in H. apply in_or_app.
           destruct H; [left | right; right]; assumption.
        -- right. rewrite <- Hn. exact H.
  - assert (Hfresh : ~ In (nextRef t) (images t)).
    { intros H. apply Hlt in H. lia. }
    split.
    + assert (Eu : images (undo u)
                   = filter (fun r => negb (Nat.eqb r (nextRef t)))
                       (images u)).
      { rewrite <- (splice_is_filter (nextRef t) (images u) Hu).
        unfold undo. rewrite Ha, pop_snoc. simpl.
        destruct (-1 <? indexOf (nextRef t) (images u))%Z; reflexivity. }
      rewrite Eu, Hi, Hi'. unfold undoneList.
      change (deletedImages
                (imageAction ActionType.addImage (nextRef t) :: later))
        with (deletedImages later).
      set (D := deletedImages later) in *.
      rewrite filter_app, filter_rev, !filter_twice. f_equal.
      * rewrite filter_app. simpl.
        rewrite Nat.eqb_refl, andb_false_r, app_nil_r.
        apply filter_ext_in. intros x Hx.
        replace (Nat.eqb x (nextRef t)) with false;
          [apply andb_true_r|].
        symmetry. apply Nat.eqb_neq. intros ->. contradiction.
      * f_equal. apply filter_ext. intros x.
        rewrite memb_app, memb_cons. simpl.
        destruct (Nat.eqb x (nextRef t)) eqn:E.
        -- apply Nat.eqb_eq in E. subst x.
           rewrite (memb_not_In _ _ Hfresh). reflexivity.
        -- rewrite !orb_false_r. apply andb_true_r.
    + intros d Hd.
      change (In d (deletedImages later)) in Hd.
      destruct (HP d Hd) as [H | H].
      * rewrite Hi' in H. apply in_app_or in H.
        destruct H as [H | [<- | []]]; [left; exact H | right; lia].
      * right. rewrite Hn in H. lia.
  - split.
    + unfold undo. rewrite Ha, pop_snoc.
      destruct Hty; subst ty; simpl; rewrite Hi, Hi'; reflexivity.
    + intros d Hd.
      assert (Hd' : In d (deletedImages later))
        by (destruct Hty; subst ty; exact Hd).
      destruct (HP d Hd') as [H | H];
        [left; rewrite <- Hi' | right; rewrite <- Hn]; exact H.
Qed.

(** The commands of a sequence, undone one after the other from its
    end. *)
Lemma committed_undone_list : forall cmds (s t : State num),
  committed cmds s t ->
  allocatedImages s ->
  allocatedImages t
  /\ forall later u,
       agrees t u ->
       deletesFrom later t ->
       images u = undoneList later (images t) ->
       images (Nat.iter (List.length cmds) undo u)
       = undoneList (cmds ++ later) (images s).
Proof.
  intros cmds s t H Hs.
  induction H as [s | cmds a s t t' e s' Hc IH Hdoc Hrun Hpush].
  - split; [exact Hs|]. intros later u _ _ Hi. exact Hi.
  - destruct (IH Hs) as [Ht IHl].
    pose proof Hdoc as (Di & Dh & Dn & Da & Dr).
    assert (Ht' : allocatedImages t')
      by (unfold allocatedImages; rewrite <- Di, <- Dn; exact Ht).
    pose proof (commit_shape e t' s' a Hrun Hpush) as Hshape.
    pose proof (commit_keeps_allocated _ _ _ Hshape Ht') as Hs'.
    split; [exact Hs'|].
    intros later u Hu HP Hi.
    rewrite length_app, Nat.add_comm. simpl List.length.
    rewrite Nat.iter_succ_r.
    assert (Hstep : agrees t' (undo u))
      by (eapply undo_inverts_edit; eassumption).
    destruct Hu as (Hua & Hup & Huh).
    assert (Hnd : NoDup (images u)).
    { apply (Permutation_NoDup (Permutation_sym Hup)). apply Hs'. }
    rewrite Hpush in Hua.
    destruct (undo_list_step t' s' u a later Hshape Ht' Hua Hnd HP Hi)
      as [Hl HP'].
    rewrite <- app_assoc. simpl app.
    apply IHl.
    + eapply agrees_sameDocument; eassumption.
    + unfold deletesFrom. rewrite Di, Dn. exact HP'.
    + rewrite Di. exact Hl.
Qed.

(** C2, as amended: after N edits that each committed a command and N
    calls of [undo], the undo stack is what it was before the edits and
    every image object that existed then has its fields back.  The image
    list is the list of before with its order, but for the images of it
    that a command of the sequence deleted: these lie at its end, the one
    deleted last first (undoing a deletion appends the image).  The list
    is therefore restored, order included, when no command deleted an
    image of it.  The N commands lie on top of the redo stack, the one
    committed last undermost. *)
Theorem commits_then_undos : forall cmds (s s' : State num),
  committed cmds s s' ->
  let u := Nat.iter (List.length cmds) undo s' in
  actions u = actions s
  /\ Permutation (images u) (images s)
  /\ (allocatedImages s -> images u = undoneList cmds (images s))
  /\ (allocatedImages s ->
      (forall im, In im (deletedImages cmds) -> ~ In im (images s)) ->
      images u = images s)
  /\ (forall r, (r < nextRef s)%nat -> heap u r = heap s r)
  /\ redoActions u = redoActions s' ++ rev cmds.
Proof.
  intros cmds s s' H u.
  assert (Hs : agrees s' s').
  { unfold agrees. auto using Permutation_refl. }
  destruct (committed_undone H Hs) as [(Ha & Hp & Hh) Hr].
  assert (Hlist : allocatedImages s -> images u = undoneList cmds (images s)).
  { intros Hal.
    destruct (committed_undone_list cmds s s' H Hal) as [_ Hl].
    assert (Hi : images s' = undoneList (@nil (DrawAction.t num)) (images s')).
    { unfold undoneList. simpl. rewrite app_nil_r.
      symmetry. apply filter_keeps. reflexivity. }
    pose proof (Hl [] s' Hs (fun d (Hd : In d []) => match Hd with end) Hi)
      as Hu.
    rewrite app_nil_r in Hu. exact Hu. }
  split; [exact Ha | split; [exact Hp | split; [exact Hlist|]]].
  split; [|split; assumption].
  intros Hal Hnone. rewrite (Hlist Hal). unfold undoneList.
  rewrite filter_keeps.
  - replace (filter (fun r => memb r (images s)) (deletedImages cmds))
      with (@nil ref); [apply app_nil_r|].
    symmetry.
    destruct (filter (fun r => memb r (images s)) (deletedImages cmds))
      as [|d l] eqn:E; [reflexivity|].
    assert (Hd : In d (filter (fun r => memb r (images s))
                         (deletedImages cmds)))
      by (rewrite E; left; reflexivity).
    apply filter_In in Hd. destruct Hd as [Hd1 Hd2].
    apply memb_In in Hd2. exfalso. exact (Hnone d Hd1 Hd2).
  - intros x Hx. destruct (memb x (deletedImages cmds)) eqn:E;
      [|reflexivity].
    apply memb_In in E. exfalso. exact (Hnone x E Hx).
Qed.

End CommitsAndUndos.

(** ** Picking, deleting and rotating images *)

Section Overlays.

Context {num : Type} {N : Number num} {T : Trig num}.

Lemma Object_assign_rotationState : forall (o : ImageElement.t num) a,
  sameButRotation o (Object_assign o (rotationState a)).
Proof. intros. unfold sameButRotation. simpl. auto. Qed.

Lemma heap_set_rotation_only : forall im (h : ref -> ImageElement.t num) a,
  touchesRotationOnly im h
    (heap_set im (Object_assign (h im) (rotationState a)) h).
Proof.
  intros im h a r. unfold heap_set.
  destruct (Nat.eqb r im) eqn:E.
  - apply Nat.eqb_eq in E. subst r. split.
    + apply Object_assign_rotationState.
    + intros C. contradiction.
  - split; [unfold sameButRotation|]; auto.
Qed.

(** X4: rotating the selected image always pushes a command; its two
    snapshots hold a rotation and nothing else, so that undoing or
    redoing it, from any state, changes the rotation of that image at
    most. *)
Theorem rotate_command_touches_rotation_only :
  forall (s s' : State num) (x y : num) (sel : ref),
    selectedImage s = Some sel ->
    rotateSelectedImage x y s = Some s' ->
    exists a r0 r1,
      actions s' = actions s ++ [a]
      /\ a = transformAction ActionType.rotateImage sel (rotationState r0)
               (rotationState r1)
      /\ r0 = ImageElement.rotation (heap s sel)
      /\ r1 = ImageElement.rotation (heap s' sel)
      /\ (forall (u : State num) rest, actions u = rest ++ [a] ->
            touchesRotationOnly sel (heap u) (heap (undo u)))
      /\ (forall (u : State num) rest, redoActions u = rest ++ [a] ->
            touchesRotationOnly sel (heap u) (heap (redo u))).
Proof.
  intros s s' x y sel Hsel Hrun.
  unfold rotateSelectedImage in Hrun. rewrite Hsel in Hrun.
  destruct (canvasRef s) as [cv|]; [|discriminate].
  injection Hrun as <-.
  eexists. eexists. eexists.
  split; [reflexivity|]. split; [reflexivity|].
  split; [reflexivity|].
  split; [simpl; rewrite heap_set_same; reflexivity|].
  split.
  - intros u rest H. unfold undo. rewrite H, pop_snoc. simpl.
    apply heap_set_rotation_only.
  - intros u rest H. unfold redo. rewrite H, pop_snoc. simpl.
    apply heap_set_rotation_only.
Qed.

Lemma skipn_nth : forall (l : list ref) (i : nat),
  (i < List.length l)%nat -> skipn i l = nth i l 0%nat :: skipn (S i) l.
Proof.
  induction l as [|a l IH]; intros i Hi; simpl in Hi; [lia|].
  destruct i as [|i]; [reflexivity|].
  simpl. apply IH. lia.
Qed.

(** The loop of [getClickedImage], from index [n - 1] down, when nothing
    from index [n] up contains the pointer. *)
Lemma clickedBelow_topmost : forall (canvas : Canvas.t num) (x y : num)
  (h : ref -> ImageElement.t num) (imgs : list ref) (n : nat),
  (n <= List.length imgs)%nat ->
  (forall r, In r (skipn n imgs) -> containsPoint canvas x y (h r) = false) ->
  match clickedBelow canvas x y h imgs n with
  | Some r =>
      exists l1 l2,
        imgs = l1 ++ r :: l2
        /\ containsPoint canvas x y (h r) = true
        /\ (forall r', In r' l2 -> containsPoint canvas x y (h r') = false)
  | None => forall r, In r imgs -> containsPoint canvas x y (h r) = false
  end.
Proof.
  intros canvas x y h imgs n. induction n as [|i IH]; intros Hn Habove.
  - simpl. exact Habove.
  - simpl.
    assert (Hsk : skipn i imgs = nth i imgs 0%nat :: skipn (S i) imgs)
      by (apply skipn_nth; lia).
    destruct (containsPoint canvas x y (h (nth i imgs 0%nat))) eqn:Hhit.
    + exists (firstn i imgs), (skipn (S i) imgs).
      split; [|split; [exact Hhit | exact Habove]].
      rewrite <- Hsk. symmetry. apply firstn_skipn.
    + apply IH; [lia|].
      intros r Hr. rewrite Hsk in Hr. destruct Hr as [<- | Hr].
      * exact Hhit.
      * apply Habove. exact Hr.
Qed.

(** X5: with a canvas, [getClickedImage] returns the topmost image that
    contains the pointer, the one nearest the end of the list, and
    [null] exactly when no image of the list contains it. *)
Theorem getClickedImage_topmost : forall (x y : num) (s : State num)
  (canvas : Canvas.t num),
  canvasRef s = Some canvas ->
  exists picked,
    getClickedImage x y s = Some picked
    /\ match picked with
       | Some r =>
           exists l1 l2,
             images s = l1 ++ r :: l2
             /\ containsPoint canvas x y (heap s r) = true
             /\ (forall r', In r' l2 ->
                   containsPoint canvas x y (heap s r') = false)
       | None =>
           forall r, In r (images s) ->
             containsPoint canvas x y (heap s r) = false
       end.
Proof.
  intros x y s canvas Hc. unfold getClickedImage. rewrite Hc.
  eexists. split; [reflexivity|].
  apply clickedBelow_topmost; [lia|].
  intros r Hr. rewrite skipn_all in Hr. contradiction.
Qed.

(** X6: [deleteImage] of an image that is not in the list changes
    nothing; otherwise it removes the first occurrence of the image and
    keeps the others in their order, pushes one [deleteImage] command for
    it, empties the redo stack and clears the selection. *)
Theorem deleteImage_effect : forall (image : ref) (s : State num),
  (~ In image (images s) -> deleteImage image s = s)
  /\ (In image (images s) ->
      exists l1 l2,
        images s = l1 ++ image :: l2
        /\ ~ In image l1
        /\ images (deleteImage image s) = l1 ++ l2
        /\ actions (deleteImage image s)
           = actions s ++ [imageAction ActionType.deleteImage image]
        /\ redoActions (deleteImage image s) = []
        /\ selectedImage (deleteImage image s) = None
        /\ heap (deleteImage image s) = heap s).
Proof.
  intros image s. unfold deleteImage. split.
  - intros Hn. rewrite (indexOf_not_In _ _ Hn). reflexivity.
  - intros Hin. pose proof (indexOf_In _ _ Hin) as Hidx. rewrite Hidx.
    destruct (splice_indexOf _ _ Hidx) as (l1 & l2 & El & Hn & Es).
    exists l1, l2. simpl. rewrite Es. auto 10.
Qed.

End Overlays.

(** ** Layers *)

Section Layers.

Context {num : Type} {N : Number num}.

Lemma indexOf_from_first : forall (r : ref) (l1 l2 : list ref) (i : Z),
  ~ In r l1 ->
  indexOf_from r (l1 ++ r :: l2) i = (i + Z.of_nat (List.length l1))%Z.
Proof.
  induction l1 as [|a l1 IH]; intros l2 i Hn; simpl.
  - rewrite Nat.eqb_refl. lia.
  - destruct (Nat.eqb a r) eqn:E.
    + apply Nat.eqb_eq in E. exfalso. apply Hn. left. exact E.
    + rewrite IH; [lia|]. intros G. apply Hn. right. exact G.
Qed.

Lemma indexOf_first : forall (r : ref) (l1 l2 : list ref),
  ~ In r l1 -> indexOf r (l1 ++ r :: l2) = Z.of_nat (List.length l1).
Proof.
  intros r l1 l2 Hn. unfold indexOf. rewrite indexOf_from_first by exact Hn.
  lia.
Qed.

Lemma swap_up : forall (l1 l2 : list ref) (a b : ref),
  swap (List.length l1) (S (List.length l1)) (l1 ++ a :: b :: l2)
  = l1 ++ b :: a :: l2.
Proof.
  unfold swap. induction l1 as [|c l1 IH]; intros l2 a b.
  - reflexivity.
  - simpl. simpl in IH. rewrite IH. reflexivity.
Qed.

Lemma swap_down : forall (l1 l2 : list ref) (a b : ref),
  swap (S (List.length l1)) (List.length l1) (l1 ++ a :: b :: l2)
  = l1 ++ b :: a :: l2.
Proof.
  unfold swap. induction l1 as [|c l1 IH]; intros l2 a b.
  - reflexivity.
  - simpl. simpl in IH. rewrite IH. reflexivity.
Qed.

Lemma first_split : forall (r : ref) (l : list ref),
  In r l -> exists l1 l2, l = l1 ++ r :: l2 /\ ~ In r l1.
Proof.
  intros r l H.
  destruct (splice_indexOf _ _ (indexOf_In _ _ H)) as (l1 & l2 & E & Hn & _).
  exists l1, l2. auto.
Qed.

(** What [moveImageLayer] does to a list in which the selected image
    occurs first at the end of [l1]. *)
Lemma moveImageLayer_up_at : forall (s : State num) (sel : ref)
  (l1 l2 : list ref),
  selectedImage s = Some sel ->
  images s = l1 ++ sel :: l2 -> ~ In sel l1 ->
  moveImageLayer Direction.up s
  = match l2 with
    | [] => Some s
    | b :: l2' => Some (set_images (l1 ++ b :: sel :: l2') s)
    end.
Proof.
  intros s sel l1 l2 Hsel El Hn. unfold moveImageLayer.
  rewrite Hsel, El, (indexOf_first _ _ _ Hn).
  rewrite length_app.
  destruct l2 as [|b l2']; simpl List.length;
    match goal with
    | |- context [(?a <? ?b)%Z] => destruct (Z.ltb_spec a b) as [H | H]
    end; try (exfalso; lia).
  - reflexivity.
  - destruct (Z.ltb_spec (Z.of_nat (List.length l1)) 0) as [H0 | H0];
      [exfalso; lia|].
    replace (Z.to_nat (Z.of_nat (List.length l1) + 1))
      with (S (List.length l1)) by lia.
    rewrite Nat2Z.id, swap_up. reflexivity.
Qed.

Lemma moveImageLayer_down_at : forall (s : State num) (sel : ref)
  (l1 l2 : list ref),
  selectedImage s = Some sel ->
  images s = l1 ++ sel :: l2 -> ~ In sel l1 ->
  moveImageLayer Direction.down s
  = match rev l1 with
    | [] => Some s
    | p :: rl1 => Some (set_images (rev rl1 ++ sel :: p :: l2) s)
    end.
Proof.
  intros s sel l1 l2 Hsel El Hn. unfold moveImageLayer.
  rewrite Hsel, El, (indexOf_first _ _ _ Hn).
  destruct (rev l1) as [|p rl1] eqn:Er.
  - assert (l1 = []) by (rewrite <- (rev_involutive l1), Er; reflexivity).
    subst l1. reflexivity.
  - assert (E1 : l1 = rev rl1 ++ [p])
      by (rewrite <- (rev_involutive l1), Er; reflexivity).
    subst l1. rewrite length_app. simpl List.length.
    destruct (Z.ltb_spec 0 (Z.of_nat (List.length (rev rl1) + 1)))
      as [H | H]; [|exfalso; lia].
    replace (Z.to_nat (Z.of_nat (List.length (rev rl1) + 1)))
      with (S (List.length (rev rl1))) by lia.
    replace (Z.to_nat (Z.of_nat (List.length (rev rl1) + 1) - 1))
      with (List.length (rev rl1)) by lia.
    rewrite <- app_assoc. simpl app. rewrite swap_down. reflexivity.
Qed.

(** X7: with the selected image in the list, [moveImageLayer] only
    reorders the list: the images are the same, and the two stacks, the
    image objects and the selection are untouched (no command records the
    move). *)
Theorem moveImageLayer_reorders : forall (direction : Direction.t)
  (s : State num) (sel : ref),
  selectedImage s = Some sel ->
  In sel (images s) ->
  exists s',
    moveImageLayer direction s = Some s'
    /\ Permutation (images s') (images s)
    /\ actions s' = actions s
    /\ redoActions s' = redoActions s
    /\ heap s' = heap s
    /\ selectedImage s' = Some sel.
Proof.
  intros direction s sel Hsel Hin.
  destruct (first_split _ _ Hin) as (l1 & l2 & El & Hn).
  destruct direction.
  - rewrite (moveImageLayer_up_at s sel l1 l2 Hsel El Hn).
    destruct l2 as [|b l2'].
    + exists s. auto 10.
    + eexists. split; [reflexivity|]. simpl.
      rewrite El. repeat split; auto.
      apply Permutation_app_head. apply perm_swap.
  - rewrite (moveImageLayer_down_at s sel l1 l2 Hsel El Hn).
    destruct (rev l1) as [|p rl1] eqn:Er.
    + exists s. auto 10.
    + assert (E1 : l1 = rev rl1 ++ [p])
        by (rewrite <- (rev_involutive l1), Er; reflexivity).
      eexists. split; [reflexivity|]. simpl.
      rewrite El, E1, <- app_assoc. repeat split; auto.
      apply Permutation_app_head. simpl. apply perm_swap.
Qed.

(** X8: when the list names no image twice and the selected image is not
    the topmost, moving it up exchanges it with the image above it, and
    moving it down again gives back the state. *)
Theorem moveImageLayer_up_then_down : forall (s : State num) (sel b : ref)
  (l1 l2 : list ref),
  NoDup (images s) ->
  selectedImage s = Some sel ->
  images s = l1 ++ sel :: b :: l2 ->
  exists s1,
    moveImageLayer Direction.up s = Some s1
    /\ images s1 = l1 ++ b :: sel :: l2
    /\ moveImageLayer Direction.down s1 = Some s.
Proof.
  intros s sel b l1 l2 Hnd Hsel El.
  assert (Hn : ~ In sel l1).
  { rewrite El in Hnd. apply NoDup_remove_2 in Hnd.
    intros G. apply Hnd. apply in_or_app. left. exact G. }
  assert (Hb : b <> sel).
  { rewrite El in Hnd. apply NoDup_remove_2 in Hnd.
    intros ->. apply Hnd. apply in_or_app. right. left. reflexivity. }
  rewrite (moveImageLayer_up_at s sel l1 (b :: l2) Hsel El Hn).
  eexists. split; [reflexivity|]. split; [reflexivity|].
  assert (Hn' : ~ In sel (l1 ++ [b])).
  { intros G. apply in_app_or in G. destruct G as [G | [G | []]]; auto. }
  rewrite (@moveImageLayer_down_at (set_images (l1 ++ b :: sel :: l2) s)
             sel (l1 ++ [b]) l2 Hsel).
  - rewrite rev_app_distr. simpl. rewrite rev_involutive.
    f_equal. destruct s. simpl in *. rewrite El. reflexivity.
  - simpl. rewrite <- app_assoc. reflexivity.
  - exact Hn'.
Qed.

(** X9: when the selected image is no longer in the list (its creation
    has been undone, say) and the list is not empty, moving it up writes
    outside the array and puts [undefined] in its first slot; moving it
    down does nothing. *)
Theorem moveImageLayer_of_absent_image : forall (s : State num) (sel : ref),
  selectedImage s = Some sel ->
  ~ In sel (images s) ->
  images s <> [] ->
  moveImageLayer Direction.up s = None
  /\ moveImageLayer Direction.down s = Some s.
Proof.
  intros s sel Hsel Hn Hne. unfold moveImageLayer. rewrite Hsel.
  pose proof (indexOf_not_In _ _ Hn) as Hidx. apply Z.ltb_ge in Hidx.
  pose proof (@indexOf_from_lower sel (images s) 0%Z ltac:(lia)) as Hlow.
  fold (indexOf sel (images s)) in Hlow.
  assert (E : indexOf sel (images s) = (-1)%Z) by lia.
  rewrite E.
  destruct (images s) as [|a l]; [contradiction|].
  simpl List.length.
  destruct (Z.ltb_spec (-1) (Z.of_nat (S (List.length l)) - 1)) as [H | H];
    [|exfalso; lia].
  split; reflexivity.
Qed.

End Layers.

(** ** Gestures and keys *)

Section Gestures.

Context {num : Type} {N : Number num} {T : Trig num}.
Local Open Scope js_scope.

(** [onMouseDown] where no image lies under the pointer. *)
Lemma onMouseDown_on_background : forall (clientX clientY : num)
  (s : State num) (canvas : Canvas.t num),
  canvasRef s = Some canvas ->
  let x := (clientX - Canvas.left canvas) / Canvas.rect_width canvas in
  let y := (clientY - Canvas.top canvas) / Canvas.rect_height canvas in
  getClickedImage x y s = Some None ->
  onMouseDown clientX clientY s
  = let s1 :=
      if negb (isResizingImage s) && negb (isRotatingImage s)
      then set_selectedImage None s else s in
    if isShiftPressed s1 || isLineDrawingMode s1 then
      Some
        (set_isLineDrawingMode true
           (set_lineStartPoint (Some (Point.mk x y)) s1))
    else Some (startDrawing clientX clientY s1).
Proof.
  intros cx cy s canvas Hc x y Hclick.
  unfold onMouseDown, getCanvasCoordinates. rewrite Hc.
  cbv beta iota zeta. cbn [Point.x Point.y].
  fold x. fold y. rewrite Hclick. reflexivity.
Qed.

Lemma background_flags : forall (s : State num),
  let s1 :=
    if negb (isResizingImage s) && negb (isRotatingImage s)
    then set_selectedImage None s else s in
  canvasRef s1 = canvasRef s /\ isShiftPressed s1 = isShiftPressed s
  /\ isLineDrawingMode s1 = isLineDrawingMode s
  /\ actions s1 = actions s /\ redoActions s1 = redoActions s
  /\ images s1 = images s /\ currentColor s1 = currentColor s
  /\ brushSize s1 = brushSize s.
Proof.
  intros s.
  destruct (negb (isResizingImage s) && negb (isRotatingImage s));
    simpl; auto 10.
Qed.

(** X10: a press where no image lies, outside line mode and without
    Shift, starts a stroke of one point; a release that follows without
    a move in between ends it and commits nothing: the two stacks and the
    image list are as before the press. *)
Theorem click_commits_nothing : forall (clientX clientY upX upY : num)
  (s : State num) (canvas : Canvas.t num),
  canvasRef s = Some canvas ->
  isShiftPressed s = false ->
  isLineDrawingMode s = false ->
  let p :=
    Point.mk ((clientX - Canvas.left canvas) / Canvas.rect_width canvas)
      ((clientY - Canvas.top canvas) / Canvas.rect_height canvas) in
  getClickedImage (Point.x p) (Point.y p) s = Some None ->
  exists s1 s2,
    onMouseDown clientX clientY s = Some s1
    /\ isDrawing s1 = true
    /\ currentPath s1 = [p]
    /\ onMouseUp upX upY s1 = Some s2
    /\ actions s2 = actions s
    /\ redoActions s2 = redoActions s
    /\ images s2 = images s
    /\ isDrawing s2 = false
    /\ currentPath s2 = [].
Proof.
  intros cx cy ux uy s canvas Hc Hshift Hline p Hclick.
  rewrite (onMouseDown_on_background cx cy s canvas Hc Hclick).
  destruct (background_flags s) as (B1 & B2 & B3 & B4 & B5 & B6 & _).
  cbv zeta in *.
  set (s1 := if negb (isResizingImage s) && negb (isRotatingImage s)
             then set_selectedImage None s else s) in *.
  rewrite B2, B3, Hshift, Hline. simpl orb. cbv iota.
  eexists. eexists. split; [reflexivity|].
  unfold startDrawing, capturePoint. simpl. rewrite B1, Hc. simpl.
  split; [reflexivity|]. split; [reflexivity|].
  unfold onMouseUp. simpl. rewrite B3, Hline.
  split; [reflexivity|].
  unfold stopDrawing. simpl. auto 10.
Qed.

(** X11: Shift held, a press where no image lies, Shift released, then a
    release of the pointer: one command is pushed, a path of two points
    from the point of the press to the snapped point of the release, in
    the current colour and never as an eraser stroke; the redo stack is
    left as it was and line mode ends. *)
Theorem shift_line_gesture : forall (clientX clientY upX upY : num)
  (s : State num) (canvas : Canvas.t num),
  canvasRef s = Some canvas ->
  let p :=
    Point.mk ((clientX - Canvas.left canvas) / Canvas.rect_width canvas)
      ((clientY - Canvas.top canvas) / Canvas.rect_height canvas) in
  let q :=
    Point.mk ((upX - Canvas.left canvas) / Canvas.rect_width canvas)
      ((upY - Canvas.top canvas) / Canvas.rect_height canvas) in
  getClickedImage (Point.x p) (Point.y p) s = Some None ->
  exists s1 s2 s4,
    handleKeyDown "Shift" false s = Some s1
    /\ onMouseDown clientX clientY s1 = Some s2
    /\ onMouseUp upX upY (handleKeyUp "Shift" s2) = Some s4
    /\ actions s4
       = actions s
         ++ [pathAction [p; getSnappedEndPoint p q] (currentColor s)
               (brushSize s) false]
    /\ redoActions s4 = redoActions s
    /\ isLineDrawingMode s4 = false
    /\ lineStartPoint s4 = None.
Proof.
  intros cx cy ux uy s canvas Hc p q Hclick.
  assert (Hkey : handleKeyDown "Shift" false s
                 = Some (set_isShiftPressed true s)).
  { unfold handleKeyDown. simpl.
    destruct (selectedImage s); reflexivity. }
  exists (set_isShiftPressed true s).
  assert (Hc' : canvasRef (set_isShiftPressed true s) = Some canvas)
    by exact Hc.
  assert (Hclick' : getClickedImage (Point.x p) (Point.y p)
                      (set_isShiftPressed true s) = Some None)
    by exact Hclick.
  rewrite (onMouseDown_on_background cx cy _ canvas Hc' Hclick').
  destruct (background_flags (set_isShiftPressed true s))
    as (B1 & B2 & B3 & B4 & B5 & B6 & B7 & B8).
  cbv zeta in *.
  set (s1 := if negb (isResizingImage (set_isShiftPressed true s))
                && negb (isRotatingImage (set_isShiftPressed true s))
             then set_selectedImage None (set_isShiftPressed true s)
             else set_isShiftPressed true s) in *.
  rewrite B2. simpl orb. cbv iota.
  eexists. eexists.
  split; [exact Hkey|]. split; [reflexivity|].
  unfold handleKeyUp, onMouseUp, getCanvasCoordinates. simpl.
  rewrite B1. simpl. rewrite Hc.
  split; [reflexivity|]. simpl.
  rewrite B4, B5, B7, B8. auto.
Qed.

(** X12: the Delete key acts once: pressing it a second time changes
    nothing, whether the first press deleted the selected image (the
    selection is then cleared) or found nothing to delete. *)
Theorem delete_key_acts_once : forall s : State num,
  exists s1,
    handleKeyDown "Delete" false s = Some s1
    /\ handleKeyDown "Delete" false s1 = Some s1.
Proof.
  intros s. unfold handleKeyDown. simpl.
  destruct (selectedImage s) as [sel|] eqn:Hsel.
  - unfold deleteImage.
    destruct (-1 <? indexOf sel (images s))%Z eqn:Hidx; simpl.
    + eexists. split; [reflexivity|]. reflexivity.
    + exists s. split; [reflexivity|]. rewrite Hsel, Hidx. reflexivity.
  - exists s. split; [reflexivity|]. rewrite Hsel. reflexivity.
Qed.

Lemma compositeAfter_app : forall (l1 l2 : list (CanvasCall.t num))
  (m : string),
  compositeAfter (l1 ++ l2) m = compositeAfter l2 (compositeAfter l1 m).
Proof. intros. unfold compositeAfter. apply fold_left_app. Qed.

Lemma strokeModes_app : forall (l1 l2 : list (CanvasCall.t num))
  (m : string),
  strokeModes (l1 ++ l2) m
  = strokeModes l1 m ++ strokeModes l2 (compositeAfter l1 m).
Proof.
  induction l1 as [|c l1 IH]; intros l2 m; [reflexivity|].
  destruct c; simpl; try apply IH.
  rewrite IH. reflexivity.
Qed.

Lemma curves_keep_mode : forall (g : nat -> CanvasCall.t num),
  (forall i, exists a b c d, g i = CanvasCall.quadraticCurveTo a b c d) ->
  forall (l : list nat) (m : string),
    compositeAfter (map g l) m = m /\ strokeModes (map g l) m = [].
Proof.
  intros g Hg l. induction l as [|i l IH]; intros m; [split; reflexivity|].
  destruct (Hg i) as (a & b & c & d & E).
  destruct (IH m) as [IH1 IH2].
  unfold compositeAfter in *. simpl. rewrite E. simpl.
  split; assumption.
Qed.

(** X13: [drawPath] makes no call for a path of fewer than two points.
    For a longer path it strokes once, under [destination-out] for an
    eraser stroke and under the mode found otherwise, and whatever the
    stroke and the mode found, it leaves the context in [source-over]. *)
Theorem drawPath_compositing : forall (canvas : Canvas.t num)
  (path : list (Point.t num)) (color : string) (lineWidth : num)
  (isEraser : bool) (mode : string),
  ((List.length path < 2)%nat ->
   drawPath canvas path color lineWidth isEraser = [])
  /\ ((2 <= List.length path)%nat ->
      strokeModes (drawPath canvas path color lineWidth isEraser) mode
      = [if isEraser then "destination-out"%string else mode]
      /\ compositeAfter (drawPath canvas path color lineWidth isEraser) mode
         = "source-over"%string
      /\ List.length (drawPath canvas path color lineWidth isEraser)
         = (List.length path + (if isEraser then 9 else 8))%nat).
Proof.
  intros canvas path color lineWidth isEraser mode.
  unfold drawPath. split.
  - intros H. apply Nat.ltb_lt in H. rewrite H. reflexivity.
  - intros H.
    assert (E : (List.length path <? 2)%nat = false)
      by (apply Nat.ltb_ge; exact H).
    rewrite E.
    match goal with
    | |- context [map ?g (seq 1 ?n)] =>
        assert (K : forall m,
                  compositeAfter (map g (seq 1 n)) m = m
                  /\ strokeModes (map g (seq 1 n)) m = [])
          by (apply curves_keep_mode; intros i; do 4 eexists; reflexivity)
    end.
    split; [|split].
    + rewrite !strokeModes_app.
      rewrite (proj2 (K _)), (proj1 (K _)).
      destruct isEraser; reflexivity.
    + rewrite !compositeAfter_app. destruct isEraser; reflexivity.
    + rewrite !length_app, length_map, length_seq.
      destruct isEraser; simpl; lia.
Qed.

End Gestures.

(** ** Picking and transforming images, over the reals *)

Section OverlayGeometry.

Local Open Scope R_scope.

Ltac real_ops :=
  cbn [nleb nltb nadd nsub nmul ndiv nopp nabs of_Z R_Number
       Math_cos Math_sin Math_PI Math_atan2 nrem R_Trig] in *.

Lemma Rleb_true_iff : forall a b : R, Rleb a b = true <-> a <= b.
Proof.
  intros a b. unfold Rleb. destruct (Rle_dec a b); split; intros H;
    try reflexivity; try assumption; try discriminate; contradiction.
Qed.

Lemma Rltb_true_iff : forall a b : R, Rltb a b = true <-> a < b.
Proof.
  intros a b. unfold Rltb. destruct (Rlt_dec a b); split; intros H;
    try reflexivity; try assumption; try discriminate; contradiction.
Qed.

Lemma clickedBelow_hit : forall (canvas : Canvas.t R) (x y : R)
  (h : ref -> ImageElement.t R) (imgs : list ref) (n : nat) (r : ref),
  clickedBelow canvas x y h imgs n = Some r ->
  containsPoint canvas x y (h r) = true.
Proof.
  intros canvas x y h imgs n r. induction n as [|i IH]; simpl.
  - discriminate.
  - destruct (containsPoint canvas x y (h (nth i imgs 0%nat))) eqn:E.
    + intros H. injection H as <-. exact E.
    + exact IH.
Qed.

Lemma containsPoint_size : forall (canvas : Canvas.t R) (x y : R)
  (img : ImageElement.t R),
  containsPoint canvas x y img = true ->
  0 <= ImageElement.width img /\ 0 <= ImageElement.height img.
Proof.
  intros canvas x y img H. unfold containsPoint in H. real_ops.
  repeat rewrite andb_true_iff in H.
  destruct H as [[[H1 H2] H3] H4].
  apply Rleb_true_iff in H1, H2, H3, H4. lra.
Qed.

(** X14: an image of negative width or height is never picked, wherever
    the pointer is; in particular the selected image can no longer be
    picked once [flipImage] has turned a positive width (or height)
    into its opposite. *)
Theorem flipped_image_is_never_picked :
  (forall (s : State R) (r : ref) (x y : R),
     ImageElement.width (heap s r) < 0 \/ ImageElement.height (heap s r) < 0 ->
     getClickedImage x y s <> Some (Some r))
  /\ (forall (horizontal : bool) (s : State R) (sel : ref) (x y : R),
        selectedImage s = Some sel ->
        (if horizontal then 0 < ImageElement.width (heap s sel)
         else 0 < ImageElement.height (heap s sel)) ->
        getClickedImage x y (flipImage horizontal s) <> Some (Some sel)).
Proof.
  assert (G : forall (s : State R) (r : ref) (x y : R),
     ImageElement.width (heap s r) < 0 \/ ImageElement.height (heap s r) < 0 ->
     getClickedImage x y s <> Some (Some r)).
  { intros s r x y Hneg H. unfold getClickedImage in H.
    destruct (canvasRef s) as [canvas|]; [|discriminate].
    injection H as H. apply clickedBelow_hit in H.
    apply containsPoint_size in H. lra. }
  split; [exact G|].
  intros horizontal s sel x y Hsel Hpos. apply G.
  unfold flipImage. rewrite Hsel. simpl. rewrite heap_set_same.
  destruct horizontal; simpl; real_ops; [left | right]; lra.
Qed.

(** X15: whatever its rotation, the topmost image is picked by a pointer
    at its centre, if its width and height are not negative. *)
Theorem centre_of_topmost_image_is_picked : forall (s : State R)
  (canvas : Canvas.t R) (l : list ref) (r : ref) (x y : R),
  canvasRef s = Some canvas ->
  images s = l ++ [r] ->
  0 <= ImageElement.width (heap s r) ->
  0 <= ImageElement.height (heap s r) ->
  x * Canvas.width canvas
  = ImageElement.x (heap s r) + ImageElement.width (heap s r) / 2 ->
  y * Canvas.height canvas
  = ImageElement.y (heap s r) + ImageElement.height (heap s r) / 2 ->
  getClickedImage x y s = Some (Some r).
Proof.
  intros s canvas l r x y Hc El Hw Hh Hx Hy.
  unfold getClickedImage. rewrite Hc, El, length_app, Nat.add_comm.
  simpl. rewrite nth_middle.
  assert (E : containsPoint canvas x y (heap s r) = true).
  { unfold containsPoint. real_ops. rewrite Hx, Hy.
    repeat rewrite andb_true_iff. repeat split; apply Rleb_true_iff.
    - ring_simplify. lra.
    - ring_simplify. lra.
    - ring_simplify. lra.
    - ring_simplify. lra. }
  rewrite E. reflexivity.
Qed.

(** The test of [getClickedImage] for an image that is not rotated: the
    pointer, in device pixels, lies in the rectangle of the image. *)
Lemma containsPoint_unrotated : forall (canvas : Canvas.t R) (x y : R)
  (img : ImageElement.t R),
  ImageElement.rotation img = 0 ->
  (containsPoint canvas x y img = true
   <-> ImageElement.x img <= x * Canvas.width canvas
                          <= ImageElement.x img + ImageElement.width img
       /\ ImageElement.y img <= y * Canvas.height canvas
                             <= ImageElement.y img + ImageElement.height img).
Proof.
  intros canvas x y img Hrot. unfold containsPoint. real_ops.
  rewrite Hrot.
  replace (- 0 * PI / 180) with 0 by field.
  rewrite cos_0, sin_0.
  repeat rewrite andb_true_iff. repeat rewrite Rleb_true_iff.
  split; intros H; lra.
Qed.

(** X16: an image that has just been loaded lies on top of the others,
    at the origin and unrotated: a pointer within its rectangle picks
    it. *)
Theorem loaded_image_is_picked : forall (im : nat) (w h : R) (s : State R)
  (canvas : Canvas.t R) (x y : R),
  canvasRef s = Some canvas ->
  0 <= x * Canvas.width canvas <= w ->
  0 <= y * Canvas.height canvas <= h ->
  getClickedImage x y (handleImageUpload im w h s) = Some (Some (nextRef s)).
Proof.
  intros im w h s canvas x y Hc Hx Hy.
  unfold getClickedImage, handleImageUpload. simpl. rewrite Hc.
  rewrite length_app, Nat.add_comm. simpl. rewrite nth_middle.
  rewrite heap_set_same.
  assert (E : containsPoint canvas x y
                (ImageElement.mk im 0 0 w h 0) = true).
  { apply containsPoint_unrotated; [reflexivity|]. simpl. lra. }
  rewrite E. reflexivity.
Qed.

(** X17: an accepted resize keeps the top-left corner and the rotation
    of the image, puts its right edge under the pointer, keeps the ratio
    of width to height, and leaves both above 20 pixels. *)
Theorem accepted_resize_geometry : forall (x y : R) (s s' : State R)
  (sel : ref) (canvas : Canvas.t R) (a : DrawAction.t R),
  selectedImage s = Some sel ->
  canvasRef s = Some canvas ->
  ImageElement.width (heap s sel) <> 0 ->
  ImageElement.height (heap s sel) <> 0 ->
  resizeSelectedImage x y s = Some s' ->
  actions s' = actions s ++ [a] ->
  let o := heap s sel in
  let o' := heap s' sel in
  ImageElement.x o' = ImageElement.x o
  /\ ImageElement.y o' = ImageElement.y o
  /\ ImageElement.rotation o' = ImageElement.rotation o
  /\ ImageElement.x o' + ImageElement.width o' = x * Canvas.width canvas
  /\ ImageElement.width o' * ImageElement.height o
     = ImageElement.height o' * ImageElement.width o
  /\ 20 < ImageElement.width o' /\ 20 < ImageElement.height o'.
Proof.
  intros x y s s' sel canvas a Hsel Hc Hw Hh Hrun Hpush o o'.
  unfold resizeSelectedImage in Hrun. rewrite Hsel, Hc in Hrun.
  match type of Hrun with (if ?c then _ else _) = _ =>
    destruct c eqn:Hcond end.
  - injection Hrun as Hs'. subst o'. rewrite <- Hs'. simpl.
    rewrite heap_set_same. simpl. fold o.
    apply andb_true_iff in Hcond. destruct Hcond as [H1 H2].
    real_ops. fold o in H1, H2.
    apply Rltb_true_iff in H1, H2.
    repeat split; try reflexivity; try assumption.
    + ring.
    + fold o in Hw, Hh. field. split; assumption.
  - injection Hrun as <-. exfalso.
    exact (@snoc_self_absurd _ (actions s) a Hpush).
Qed.

(** X18: an image flipped along one axis only, whose width and height
    have opposite signs, cannot be resized: every resize is rejected. *)
Theorem once_flipped_image_cannot_be_resized : forall (x y : R)
  (s : State R) (sel : ref) (canvas : Canvas.t R),
  selectedImage s = Some sel ->
  canvasRef s = Some canvas ->
  ImageElement.width (heap s sel) * ImageElement.height (heap s sel) < 0 ->
  resizeSelectedImage x y s = Some s.
Proof.
  intros x y s sel canvas Hsel Hc Hneg.
  unfold resizeSelectedImage. rewrite Hsel, Hc.
  set (o := heap s sel) in *.
  set (w := ImageElement.width o) in *.
  set (h := ImageElement.height o) in *.
  real_ops.
  set (nw := x * Canvas.width canvas - ImageElement.x o).
  assert (Hh : h <> 0) by (intros E; rewrite E in Hneg; lra).
  assert (Hratio : w / h < 0).
  { replace (w / h) with (w * h * (/ h * / h)) by (field; exact Hh).
    assert (0 < / h * / h).
    { apply (Rsqr_pos_lt (/ h)). apply Rinv_neq_0_compat. exact Hh. }
    nra. }
  destruct (Rlt_dec 20 nw) as [Hnw | Hnw].
  - assert (Hinv : / (w / h) < 0) by (apply Rinv_lt_0_compat; exact Hratio).
    assert (Hnh : nw / (w / h) <= 20).
    { unfold Rdiv at 1. nra. }
    rewrite (@Rltb_false 20 (nw / (w / h)) Hnh), andb_false_r.
    reflexivity.
  - rewrite (@Rltb_false 20 nw) by lra. reflexivity.
Qed.

(** X19: flipping twice along the same axis gives every image object its
    fields back; the two flips stay on the undo stack as two commands. *)
Theorem flip_twice_restores_the_image : forall (horizontal : bool)
  (s : State R) (sel : ref),
  selectedImage s = Some sel ->
  let s2 := flipImage horizontal (flipImage horizontal s) in
  heap s2 = heap s
  /\ images s2 = images s
  /\ selectedImage s2 = Some sel
  /\ List.length (actions s2) = (List.length (actions s) + 2)%nat.
Proof.
  intros horizontal s sel Hsel s2. subst s2.
  unfold flipImage. rewrite Hsel. simpl. rewrite Hsel. simpl.
  split; [|split; [reflexivity | split; [exact Hsel|]]].
  - apply functional_extensionality. intros r.
    unfold heap_set. destruct (Nat.eqb r sel) eqn:E; [|reflexivity].
    apply Nat.eqb_eq in E. subst r. rewrite Nat.eqb_refl.
    destruct horizontal; destruct (heap s sel); simpl; real_ops;
      rewrite Ropp_involutive; reflexivity.
  - rewrite !length_app. simpl. lia.
Qed.

End OverlayGeometry.

(** ** Pressing on an image and dragging it *)

Section PressAndDrag.

Context {num : Type} {N : Number num} {T : Trig num}.
Local Open Scope js_scope.

(** [onMouseDown] where the image [r] lies under the pointer. *)
Lemma onMouseDown_on_image : forall (clientX clientY : num) (s : State num)
  (canvas : Canvas.t num) (r : ref),
  canvasRef s = Some canvas ->
  let x := (clientX - Canvas.left canvas) / Canvas.rect_width canvas in
  let y := (clientY - Canvas.top canvas) / Canvas.rect_height canvas in
  getClickedImage x y s = Some (Some r) ->
  onMouseDown clientX clientY s
  = let s1 := set_selectedImage (Some r) s in
    let o := heap s r in
    if isResizeHandle canvas x y o then Some (set_isResizingImage true s1)
    else if isRotateHandle canvas x y o then
      Some (set_isRotatingImage true s1)
    else if isDeleteHandle canvas x y o then Some (deleteImage r s1)
    else
      Some
        (set_dragStartY (y - ImageElement.y o / Canvas.height canvas)
           (set_dragStartX (x - ImageElement.x o / Canvas.width canvas)
              (set_isDraggingImage true s1))).
Proof.
  intros cx cy s canvas r Hc x y Hclick.
  unfold onMouseDown, getCanvasCoordinates. rewrite Hc.
  cbv beta iota zeta. cbn [Point.x Point.y].
  fold x. fold y. rewrite Hclick. reflexivity.
Qed.

Lemma clickedBelow_In : forall (canvas : Canvas.t num) (x y : num)
  (h : ref -> ImageElement.t num) (imgs : list ref) (n : nat) (r : ref),
  (n <= List.length imgs)%nat ->
  clickedBelow canvas x y h imgs n = Some r -> In r imgs.
Proof.
  intros canvas x y h imgs n r. induction n as [|i IH]; simpl; intros Hn H.
  - discriminate.
  - destruct (containsPoint canvas x y (h (nth i imgs 0%nat))).
    + injection H as <-. apply nth_In. lia.
    + apply IH; [lia | exact H].
Qed.

(** X20: a press on an image never starts a stroke or a line.  Either it
    selects the image and leaves the list and the undo stack alone
    (starting a resize, a rotation or a drag), or, on the delete handle,
    it removes the image, pushes one [deleteImage] command for it and
    clears the selection. *)
Theorem press_on_image : forall (clientX clientY : num) (s : State num)
  (canvas : Canvas.t num) (r : ref),
  canvasRef s = Some canvas ->
  getClickedImage
    ((clientX - Canvas.left canvas) / Canvas.rect_width canvas)
    ((clientY - Canvas.top canvas) / Canvas.rect_height canvas) s
  = Some (Some r) ->
  exists s',
    onMouseDown clientX clientY s = Some s'
    /\ isDrawing s' = isDrawing s
    /\ currentPath s' = currentPath s
    /\ isLineDrawingMode s' = isLineDrawingMode s
    /\ lineStartPoint s' = lineStartPoint s
    /\ ((selectedImage s' = Some r
         /\ images s' = images s
         /\ actions s' = actions s
         /\ redoActions s' = redoActions s)
        \/ (selectedImage s' = None
            /\ S (List.length (images s')) = List.length (images s)
            /\ actions s'
               = actions s ++ [imageAction ActionType.deleteImage r]
            /\ redoActions s' = [])).
Proof.
  intros cx cy s canvas r Hc Hclick.
  rewrite (onMouseDown_on_image cx cy s canvas r Hc Hclick). cbv zeta.
  assert (Hin : In r (images s)).
  { unfold getClickedImage in Hclick. rewrite Hc in Hclick.
    injection Hclick as Hclick.
    exact (clickedBelow_In _ _ _ _ _ _ _ (le_n _) Hclick). }
  destruct (isResizeHandle canvas _ _ (heap s r));
    [eexists; split; [reflexivity|]; simpl; auto 10|].
  destruct (isRotateHandle canvas _ _ (heap s r));
    [eexists; split; [reflexivity|]; simpl; auto 10|].
  destruct (isDeleteHandle canvas _ _ (heap s r));
    [|eexists; split; [reflexivity|]; simpl; auto 10].
  eexists. split; [reflexivity|].
  unfold deleteImage. simpl.
  pose proof (indexOf_In _ _ Hin) as Hidx. rewrite Hidx. simpl.
  destruct (splice_indexOf _ _ Hidx) as (l1 & l2 & El & _ & Es).
  repeat (split; [reflexivity|]). right.
  split; [reflexivity|]. split; [|auto].
  rewrite Es, El, !length_app. simpl. lia.
Qed.

End PressAndDrag.

Section Drag.

Local Open Scope R_scope.

(** X21: dragging.  After a press on the body of an image (with no
    manipulation under way before it), a move of the pointer shifts the
    image by the displacement of the pointer, in device pixels, keeps
    its size and rotation, and pushes no command. *)
Theorem drag_follows_the_pointer : forall (clientX clientY moveX moveY : R)
  (s s1 s2 : State R) (canvas : Canvas.t R) (r : ref),
  canvasRef s = Some canvas ->
  Canvas.width canvas <> 0 -> Canvas.height canvas <> 0 ->
  isDraggingImage s = false ->
  isResizingImage s = false ->
  isRotatingImage s = false ->
  let x0 := (clientX - Canvas.left canvas) / Canvas.rect_width canvas in
  let y0 := (clientY - Canvas.top canvas) / Canvas.rect_height canvas in
  let x1 := (moveX - Canvas.left canvas) / Canvas.rect_width canvas in
  let y1 := (moveY - Canvas.top canvas) / Canvas.rect_height canvas in
  getClickedImage x0 y0 s = Some (Some r) ->
  onMouseDown clientX clientY s = Some s1 ->
  isDraggingImage s1 = true ->
  onMouseMove moveX moveY s1 = Some s2 ->
  ImageElement.x (heap s2 r)
  = ImageElement.x (heap s r) + (x1 - x0) * Canvas.width canvas
  /\ ImageElement.y (heap s2 r)
     = ImageElement.y (heap s r) + (y1 - y0) * Canvas.height canvas
  /\ ImageElement.width (heap s2 r) = ImageElement.width (heap s r)
  /\ ImageElement.height (heap s2 r) = ImageElement.height (heap s r)
  /\ ImageElement.rotation (heap s2 r) = ImageElement.rotation (heap s r)
  /\ actions s2 = actions s
  /\ redoActions s2 = redoActions s
  /\ images s2 = images s.
Proof.
  intros cx cy mx my s s1 s2 canvas r Hc Hw Hh Hd Hrs Hrt x0 y0 x1 y1
    Hclick Hdown Hdrag Hmove.
  rewrite (onMouseDown_on_image cx cy s canvas r Hc Hclick) in Hdown.
  cbv zeta in Hdown.
  match type of Hdown with
  | context [isResizeHandle ?c ?a ?b ?o] =>
      destruct (isResizeHandle c a b o)
  end; [injection Hdown as <-; simpl in Hdrag; congruence|].
  match type of Hdown with
  | context [isRotateHandle ?c ?a ?b ?o] =>
      destruct (isRotateHandle c a b o)
  end; [injection Hdown as <-; simpl in Hdrag; congruence|].
  match type of Hdown with
  | context [isDeleteHandle ?c ?a ?b ?o] =>
      destruct (isDeleteHandle c a b o)
  end.
  { injection Hdown as <-. unfold deleteImage in Hdrag. simpl in Hdrag.
    destruct (-1 <? indexOf r (images s))%Z; simpl in Hdrag; congruence. }
  injection Hdown as <-.
  unfold onMouseMove, getCanvasCoordinates in Hmove. simpl in Hmove.
  rewrite Hc, Hrs, Hrt in Hmove. simpl in Hmove.
  injection Hmove as <-. simpl. rewrite heap_set_same. simpl.
  fold x0 x1 y0 y1. clearbody x0 x1 y0 y1.
  repeat split; try reflexivity.
  - field. exact Hw.
  - field. exact Hh.
Qed.

End Drag.

(** ** Snapping and coordinates, over the reals *)

Section SnappingAgain.

Local Open Scope R_scope.

Lemma R_rem_below : forall b : R, 0 <= b < 360 -> R_rem b 360 = b.
Proof.
  intros b [H0 H1]. unfold R_rem, Rtrunc.
  destruct (Rle_dec 0 (b / 360)) as [_|Hn]; [|exfalso; lra].
  rewrite <- (Int_part_spec (b / 360) 0).
  - lra.
  - lra.
Qed.

(** The angle, in degrees within [0, 360), that [getSnappedEndPoint]
    computes for the displacement [(dx, dy)]. *)
Lemma snap_unfold : forall sx sy ex ey : R,
  getSnappedEndPoint (Point.mk sx sy) (Point.mk ex ey)
  = let dx := ex - sx in
    let dy := ey - sy in
    let A := R_rem (R_atan2 dy dx * 180 / PI + 360) 360 in
    if (Rltb A 5 || Rltb (Rabs (A - 180)) 5) && Rltb (Rabs dy) (2 / 100)
    then Point.mk ex sy
    else if (Rltb (Rabs (A - 90)) 2 || Rltb (Rabs (A - 270)) 2)
            && Rltb (Rabs dx) (2 / 100)
    then Point.mk sx ey
    else Point.mk ex ey.
Proof. intros. reflexivity. Qed.

Lemma angle_of_horizontal : forall dx : R,
  R_rem (R_atan2 0 dx * 180 / PI + 360) 360 = 0
  \/ R_rem (R_atan2 0 dx * 180 / PI + 360) 360 = 180.
Proof.
  intros dx. pose proof PI_gt_3 as HPI. unfold R_atan2.
  destruct (Rlt_dec 0 dx) as [Hp|Hp].
  - left. replace (0 / dx) with 0 by (field; lra). rewrite atan_0.
    replace (0 * 180 / PI + 360) with (0 + 360) by (field; lra).
    apply R_rem_360. lra.
  - destruct (Rlt_dec dx 0) as [Hm|Hm].
    + right. destruct (Rle_dec 0 0) as [_|C]; [|exfalso; lra].
      replace (0 / dx) with 0 by (field; lra). rewrite atan_0.
      replace ((0 + PI) * 180 / PI + 360) with (180 + 360) by (field; lra).
      apply R_rem_360. lra.
    + left. destruct (Rlt_dec 0 0) as [C|_]; [exfalso; lra|].
      replace (0 * 180 / PI + 360) with (0 + 360) by (field; lra).
      apply R_rem_360. lra.
Qed.

Lemma angle_of_vertical : forall dy : R,
  let A := R_rem (R_atan2 dy 0 * 180 / PI + 360) 360 in
  (0 < dy -> A = 90) /\ (dy < 0 -> A = 270) /\ (dy = 0 -> A = 0).
Proof.
  intros dy A. subst A. pose proof PI_gt_3 as HPI. unfold R_atan2.
  destruct (Rlt_dec 0 0) as [C|_]; [exfalso; lra|].
  destruct (Rlt_dec 0 dy) as [Hp|Hp]; [|destruct (Rlt_dec dy 0) as [Hm|Hm]].
  - split; [|split]; intros H; try (exfalso; lra).
    replace (PI / 2 * 180 / PI + 360) with (90 + 360) by (field; lra).
    apply R_rem_360. lra.
  - split; [|split]; intros H; try (exfalso; lra).
    replace (- PI / 2 * 180 / PI + 360) with 270 by (field; lra).
    apply R_rem_below. lra.
  - split; [|split]; intros H; try (exfalso; lra).
    replace (0 * 180 / PI + 360) with (0 + 360) by (field; lra).
    apply R_rem_360. lra.
Qed.

(** X22: snapping is idempotent: an end point that has been snapped is
    returned as it is when it is snapped again from the same start. *)
Theorem snapping_is_idempotent : forall start end_ : Point.t R,
  getSnappedEndPoint start (getSnappedEndPoint start end_)
  = getSnappedEndPoint start end_.
Proof.
  intros [sx sy] [ex ey].
  rewrite (snap_unfold sx sy ex ey). cbv zeta.
  match goal with
  | |- context [if ?c then Point.mk ex sy else _] => destruct c eqn:C1
  end.
  - (* snapped to the horizontal *)
    rewrite snap_unfold. cbv zeta.
    replace (sy - sy) with 0 by ring.
    assert (H : (Rltb (R_rem (R_atan2 0 (ex - sx) * 180 / PI + 360) 360) 5
                 || Rltb (Rabs (R_rem (R_atan2 0 (ex - sx) * 180 / PI + 360)
                                  360 - 180)) 5) = true).
    { destruct (angle_of_horizontal (ex - sx)) as [E | E]; rewrite E.
      - rewrite (@Rltb_true 0 5) by lra. reflexivity.
      - rewrite (@Rltb_Rabs_true (180 - 180) 5) by lra.
        apply orb_true_r. }
    rewrite H. rewrite (@Rltb_Rabs_true 0 (2 / 100)) by lra.
    reflexivity.
  - match goal with
    | |- context [if ?c then Point.mk sx ey else _] => destruct c eqn:C2
    end.
    + (* snapped to the vertical *)
      rewrite snap_unfold. cbv zeta.
      replace (sx - sx) with 0 by ring.
      destruct (angle_of_vertical (ey - sy)) as (Vp & Vm & V0).
      cbv zeta in Vp, Vm, V0.
      destruct (Rtotal_order (ey - sy) 0) as [Hlt | [Heq | Hgt]].
      * rewrite (Vm Hlt).
        rewrite (@Rltb_false 270 5) by lra.
        rewrite (@Rltb_Rabs_false (270 - 180) 5) by lra.
        rewrite (@Rltb_Rabs_true (270 - 270) 2) by lra.
        rewrite (@Rltb_Rabs_true 0 (2 / 100)) by lra.
        rewrite orb_true_r. reflexivity.
      * rewrite (V0 Heq), Heq.
        rewrite (@Rltb_true 0 5) by lra.
        rewrite (@Rltb_Rabs_true 0 (2 / 100)) by lra.
        simpl. f_equal. lra.
      * rewrite (Vp Hgt).
        rewrite (@Rltb_false 90 5) by lra.
        rewrite (@Rltb_Rabs_false (90 - 180) 5) by lra.
        rewrite (@Rltb_Rabs_true (90 - 90) 2) by lra.
        rewrite (@Rltb_Rabs_true 0 (2 / 100)) by lra.
        reflexivity.
    + (* not snapped *)
      rewrite snap_unfold. cbv zeta. rewrite C1, C2. reflexivity.
Qed.

Lemma setDimension_floor : forall (d : Z) (v : R),
  0 < v < 2147483648 ->
  exists n : Z,
    setDimension d v = IZR n /\ IZR n <= v < IZR n + 1.
Proof.
  intros d v [Hpos Hmax].
  destruct (base_Int_part v) as [Hle Hgt].
  assert (H0 : (0 <= Int_part v)%Z).
  { assert (Hm : IZR (-1) < IZR (Int_part v)) by lra.
    apply lt_IZR in Hm. lia. }
  assert (H1 : (Int_part v < 2147483648)%Z).
  { apply lt_IZR. lra. }
  exists (Int_part v). split; [|lra].
  unfold setDimension. cbn [toUnsignedLong R_WebIDL of_Z R_Number].
  unfold Rtrunc. destruct (Rle_dec 0 v) as [_|Hn]; [|exfalso; lra].
  rewrite Z.mod_small by lia.
  destruct (Z.leb_spec (Int_part v) 2147483647); [reflexivity | lia].
Qed.

(** X23: [resizeCanvas] gives the canvas the size of its rectangle in
    whole pixels, the fractions cut off.  A captured point, scaled by the
    canvas size, is then the offset of the pointer within the rectangle
    when the rectangle measures whole pixels; otherwise, for a pointer
    within the rectangle, it lies less than one pixel to the left of and
    above that offset, and never beyond it. *)
Theorem captured_point_is_drawn_under_the_pointer :
  forall (clientX clientY : R) (s s1 : State R) (canvas : Canvas.t R),
    canvasRef s = Some canvas ->
    0 < Canvas.rect_width canvas < 2147483648 ->
    0 < Canvas.rect_height canvas < 2147483648 ->
    resizeCanvas s = Some s1 ->
    exists (canvas1 : Canvas.t R) (p : Point.t R) (w h : Z),
      canvasRef s1 = Some canvas1
      /\ Canvas.width canvas1 = IZR w
      /\ IZR w <= Canvas.rect_width canvas < IZR w + 1
      /\ Canvas.height canvas1 = IZR h
      /\ IZR h <= Canvas.rect_height canvas < IZR h + 1
      /\ currentPath (capturePoint clientX clientY s1)
         = currentPath s ++ [p]
      /\ (Canvas.rect_width canvas = IZR w ->
          Point.x p * Canvas.width canvas1 = clientX - Canvas.left canvas)
      /\ (Canvas.rect_height canvas = IZR h ->
          Point.y p * Canvas.height canvas1 = clientY - Canvas.top canvas)
      /\ (0 <= clientX - Canvas.left canvas <= Canvas.rect_width canvas ->
          clientX - Canvas.left canvas - 1
          < Point.x p * Canvas.width canvas1
          <= clientX - Canvas.left canvas)
      /\ (0 <= clientY - Canvas.top canvas <= Canvas.rect_height canvas ->
          clientY - Canvas.top canvas - 1
          < Point.y p * Canvas.height canvas1
          <= clientY - Canvas.top canvas).
Proof.
  intros cx cy s s1 canvas Hc Hw Hh Hrs.
  unfold resizeCanvas in Hrs. rewrite Hc in Hrs. injection Hrs as <-.
  destruct (setDimension_floor 300 _ Hw) as (w & Ew & Hw1 & Hw2).
  destruct (setDimension_floor 150 _ Hh) as (h & Eh & Hh1 & Hh2).
  eexists. exists (Point.mk ((cx - Canvas.left canvas)
                             / Canvas.rect_width canvas)
                            ((cy - Canvas.top canvas)
                             / Canvas.rect_height canvas)), w, h.
  split; [reflexivity|].
  cbn [Canvas.width Canvas.height Point.x Point.y].
  rewrite Ew, Eh.
  split; [reflexivity | split; [lra | split; [reflexivity | split; [lra|]]]].
  split; [reflexivity|].
  set (dx := cx - Canvas.left canvas).
  set (dy := cy - Canvas.top canvas).
  set (rw := Canvas.rect_width canvas) in *.
  set (rh := Canvas.rect_height canvas) in *.
  assert (Ex : dx / rw * IZR w = dx - dx / rw * (rw - IZR w))
    by (field; lra).
  assert (Ey : dy / rh * IZR h = dy - dy / rh * (rh - IZR h))
    by (field; lra).
  assert (Ux : forall a, 0 <= a <= rw -> 0 <= a / rw <= 1).
  { intros a [A0 A1]. split.
    - apply Rmult_le_pos; [lra|]. left. apply Rinv_0_lt_compat. lra.
    - apply (Rmult_le_reg_r rw); [lra|].
      replace (a / rw * rw) with a by (field; lra). lra. }
  assert (Uy : forall a, 0 <= a <= rh -> 0 <= a / rh <= 1).
  { intros a [A0 A1]. split.
    - apply Rmult_le_pos; [lra|]. left. apply Rinv_0_lt_compat. lra.
    - apply (Rmult_le_reg_r rh); [lra|].
      replace (a / rh * rh) with a by (field; lra). lra. }
  split; [intros E; rewrite <- E; field; lra|].
  split; [intros E; rewrite <- E; field; lra|].
  split.
  - intros Hin. rewrite Ex. destruct (Ux dx Hin) as [U0 U1].
    assert (0 <= dx / rw * (rw - IZR w)) by (apply Rmult_le_pos; lra).
    assert (dx / rw * (rw - IZR w) <= 1 * (rw - IZR w))
      by (apply Rmult_le_compat_r; lra).
    lra.
  - intros Hin. rewrite Ey. destruct (Uy dy Hin) as [U0 U1].
    assert (0 <= dy / rh * (rh - IZR h)) by (apply Rmult_le_pos; lra).
    assert (dy / rh * (rh - IZR h) <= 1 * (rh - IZR h))
      by (apply Rmult_le_compat_r; lra).
    lra.
Qed.

End SnappingAgain.

(** ** Strokes and the history keys *)

Section StrokesAndKeys.

Local Open Scope R_scope.

(** X24: ending a stroke of at least two captured points pushes one
    command whose path is the smoothed path of the specification over
    the captured points (so the captured points themselves when there
    are two), in the background colour and flagged as eraser when the
    eraser is on, in the current colour otherwise; it empties the redo
    stack and the current path. *)
Theorem stopDrawing_commits_the_smoothed_stroke : forall s : State R,
  isDrawing s = true ->
  (2 <= List.length (currentPath s))%nat ->
  actions (stopDrawing s)
  = actions s
    ++ [pathAction (smoothPathSpec (currentPath s))
          (if isEraser s then backgroundColor s else currentColor s)
          (brushSize s) (isEraser s)]
  /\ redoActions (stopDrawing s) = []
  /\ currentPath (stopDrawing s) = []
  /\ isDrawing (stopDrawing s) = false.
Proof.
  intros s Hd Hlen. unfold stopDrawing. rewrite Hd. simpl.
  assert (E : (1 <? List.length (currentPath s))%nat = true)
    by (apply Nat.ltb_lt; lia).
  rewrite E. simpl.
  rewrite (@createSmoothPath_refines sampleFuel (currentPath s))
    by (unfold sampleFuel; lia).
  auto.
Qed.

End StrokesAndKeys.

Section HistoryKeys.

Context {num : Type} {N : Number num} {T : Trig num}.

(** X25: Ctrl+Z is [undo] and Ctrl+Y is [redo]; when there is a command
    to undo, Ctrl+Z followed by Ctrl+Y leaves both stacks as they
    were. *)
Theorem ctrl_z_then_ctrl_y : forall s : State num,
  actions s <> [] ->
  handleKeyDown "z" true s = Some (undo s)
  /\ handleKeyDown "y" true (undo s) = Some (redo (undo s))
  /\ actions (redo (undo s)) = actions s
  /\ redoActions (redo (undo s)) = redoActions s.
Proof.
  intros s Hne.
  assert (Hz : forall u : State num, handleKeyDown "z" true u = Some (undo u)).
  { intros u. unfold handleKeyDown. simpl.
    destruct (selectedImage (undo u)); reflexivity. }
  assert (Hy : forall u : State num, handleKeyDown "y" true u = Some (redo u)).
  { intros u. unfold handleKeyDown. simpl.
    destruct (selectedImage (redo u)); reflexivity. }
  split; [apply Hz | split; [apply Hy|]].
  destruct (pop (actions s)) as [[a rest]|] eqn:E.
  - apply pop_Some in E.
    destruct (@undo_stacks _ s rest a E) as [Ha Hr].
    destruct (@redo_stacks _ (undo s) (redoActions s) a Hr) as [Hr' Ha'].
    rewrite Ha', Hr', Ha, E. auto.
  - apply pop_nil_inv in E. contradiction.
Qed.

End HistoryKeys.

(** ** The further properties at concrete states *)

Section HistoryGrowth.

Context {num : Type} {N : Number num} {T : Trig num}.

(** X26: none of the committing handlers (pointer release, delete,
    resize, rotate, flip, duplicate) takes a command off the undo stack,
    and none pushes more than one: after the handler the stack is the
    old one, or the old one with one command on top. *)
Theorem edit_pushes_at_most_one_command : forall (e : Edit num)
  (s s' : State num),
  runEdit e s = Some s' ->
  actions s' = actions s \/ exists a, actions s' = actions s ++ [a].
Proof.
  intros e s s' Hrun.
  destruct e as [cx cy | im | x y | x y | hz | ]; simpl in Hrun.
  - unfold onMouseUp, stopDrawing, getCanvasCoordinates in Hrun.
    simpl in Hrun.
    repeat match type of Hrun with
           | context [match ?c with _ => _ end] => destruct c; simpl in Hrun
           end;
      try discriminate; injection Hrun as <-; simpl;
      solve [left; reflexivity | right; eexists; reflexivity].
  - injection Hrun as <-. unfold deleteImage.
    destruct (-1 <? indexOf im (images s))%Z; simpl;
      [right; eexists; reflexivity | left; reflexivity].
  - unfold resizeSelectedImage in Hrun.
    repeat match type of Hrun with
           | context [match ?c with _ => _ end] => destruct c
           end;
      try discriminate; injection Hrun as <-; simpl;
      solve [left; reflexivity | right; eexists; reflexivity].
  - unfold rotateSelectedImage in Hrun.
    repeat match type of Hrun with
           | context [match ?c with _ => _ end] => destruct c
           end;
      try discriminate; injection Hrun as <-; simpl;
      solve [left; reflexivity | right; eexists; reflexivity].
  - injection Hrun as <-. unfold flipImage.
    destruct (selectedImage s); simpl;
      [right; eexists; reflexivity | left; reflexivity].
  - injection Hrun as <-. unfold duplicateImage.
    destruct (selectedImage s); simpl;
      [right; eexists; reflexivity | left; reflexivity].
Qed.

End HistoryGrowth.

(** ** The frame of the handle tests *)

Section HandleFrames.

Local Open Scope R_scope.

Ltac in_reals :=
  cbn [nleb nltb nadd nsub nmul ndiv nopp nabs of_Z R_Number
       Math_cos Math_sin Math_PI Math_atan2 nrem R_Trig] in *.

Lemma containsPoint_frame : forall (cv : Canvas.t R) (x y : R)
  (im : ImageElement.t R),
  containsPoint cv x y im = true
  <-> (ImageElement.x im <= frameX cv x y im
                         <= ImageElement.x im + ImageElement.width im)
      /\ (ImageElement.y im <= frameY cv x y im
                            <= ImageElement.y im + ImageElement.height im).
Proof.
  intros cv x y im. unfold containsPoint, frameX, frameY. in_reals.
  cbv zeta. repeat rewrite andb_true_iff. repeat rewrite Rleb_true_iff.
  tauto.
Qed.

(** Without rotation, or on a canvas as wide as it is high, the handle
    tests turn the pointer back in the frame of the image. *)
Lemma handle_frame : forall (cv : Canvas.t R) (x y : R)
  (im : ImageElement.t R),
  0 < Canvas.width cv -> 0 < Canvas.height cv ->
  ImageElement.rotation im = 0 \/ Canvas.width cv = Canvas.height cv ->
  rotatedX cv x y im * Canvas.width cv = frameX cv x y im
  /\ rotatedY cv x y im * Canvas.height cv = frameY cv x y im.
Proof.
  intros cv x y im Hw Hh Hc. unfold rotatedX, rotatedY, frameX, frameY.
  in_reals. cbv zeta.
  destruct Hc as [E | E].
  - rewrite E. replace (- 0 * PI / 180) with 0 by field.
    rewrite cos_0, sin_0. split; field; lra.
  - set (c := cos _). set (sn := sin _). rewrite E in *.
    split; field; lra.
Qed.

(** The rotation handle has been dragged to the point straight below the
    centre of the image: the image is turned by 90 degrees. *)
Lemma quarter_turn :
  exists s : State R,
    rotateSelectedImage (100 / 800) (300 / 600) wideImagePage = Some s
    /\ heap s 0%nat = ImageElement.mk 0%nat 0 0 200 100 90
    /\ canvasRef s = Some exampleCanvas
    /\ images s = [0%nat]
    /\ isResizingImage s = false.
Proof.
  unfold rotateSelectedImage.
  change (selectedImage wideImagePage) with (Some 0%nat).
  change (canvasRef wideImagePage) with (Some exampleCanvas).
  cbv beta iota zeta.
  eexists. split; [reflexivity|].
  split; [|repeat split; reflexivity].
  unfold set_redoActions, set_actions, set_heap. cbn [heap].
  rewrite heap_set_same.
  change (heap wideImagePage 0%nat) with (ImageElement.mk 0%nat 0 0 200 100 0).
  cbn [ImageElement.img ImageElement.x ImageElement.y ImageElement.width
       ImageElement.height ImageElement.rotation Canvas.width Canvas.height
       exampleCanvas].
  in_reals. f_equal.
  assert (Ea : R_atan2 (300 / 600 * 600 - (0 + 100 / 2))
                 (100 / 800 * 800 - (0 + 200 / 2)) = PI / 2).
  { unfold R_atan2.
    destruct (Rlt_dec 0 (100 / 800 * 800 - (0 + 200 / 2))); [lra|].
    destruct (Rlt_dec (100 / 800 * 800 - (0 + 200 / 2)) 0); [lra|].
    destruct (Rlt_dec 0 (300 / 600 * 600 - (0 + 100 / 2)));
      [reflexivity | lra]. }
  rewrite Ea. field. apply PI_neq0.
Qed.

(** The sine and the cosine of a quarter turn back. *)
Lemma quarter_turn_back :
  cos (Ropp 90 * PI / 180) = 0 /\ sin (Ropp 90 * PI / 180) = -1.
Proof.
  replace (Ropp 90 * PI / 180) with (- (PI / 2)) by field.
  rewrite cos_neg, sin_neg, cos_PI2, sin_PI2. split; reflexivity.
Qed.

(** C9 holds where the handle tests work in the frame of the image, and
    fails where they leave it.  The three tests turn the pointer back by
    the rotation of the image as [getClickedImage] does, but on unit
    coordinates, in which a step along x is a fraction of the width of the
    canvas and a step along y a fraction of its height.
    - Without rotation, or on a canvas as wide as it is high, that is the
      frame of the image; a pointer that picks the image then hits the
      resize handle exactly within 16 pixels of the bottom-right corner,
      the rotate handle within 30 pixels of the top-right corner and the
      delete handle within 16 pixels of the top-left corner, on both
      axes: squares of 16, 30 and 16 pixels on a side.
    - On the canvas of 800 by 600 pixels, the image of 200 by 100 pixels
      turned by 90 degrees is picked by a press that lies 4 pixels inside
      its bottom-right corner in its own frame, at (196, 96); the resize
      test fails there, and the press starts a drag. *)
Theorem handle_tests_leave_the_image_frame :
  (forall (cv : Canvas.t R) (x y : R) (im : ImageElement.t R),
     0 < Canvas.width cv -> 0 < Canvas.height cv ->
     ImageElement.rotation im = 0 \/ Canvas.width cv = Canvas.height cv ->
     containsPoint cv x y im = true ->
     let X := frameX cv x y im in
     let Y := frameY cv x y im in
     let left := ImageElement.x im in
     let right := ImageElement.x im + ImageElement.width im in
     let top := ImageElement.y im in
     let bottom := ImageElement.y im + ImageElement.height im in
     (left <= X <= right /\ top <= Y <= bottom)
     /\ (isResizeHandle cv x y im = true
         <-> right - 16 <= X /\ bottom - 16 <= Y)
     /\ (isRotateHandle cv x y im = true
         <-> right - 30 <= X /\ Y <= top + 30)
     /\ (isDeleteHandle cv x y im = true
         <-> X <= left + 16 /\ Y <= top + 16))
  /\ (exists s s' : State R,
        rotateSelectedImage (100 / 800) (300 / 600) wideImagePage = Some s
        /\ heap s 0%nat = ImageElement.mk 0%nat 0 0 200 100 90
        /\ getClickedImage (54 / 800) (146 / 600) s = Some (Some 0%nat)
        /\ frameX exampleCanvas (54 / 800) (146 / 600) (heap s 0%nat) = 196
        /\ frameY exampleCanvas (54 / 800) (146 / 600) (heap s 0%nat) = 96
        /\ isResizeHandle exampleCanvas (54 / 800) (146 / 600)
             (heap s 0%nat) = false
        /\ onMouseDown 54 146 s = Some s'
        /\ isResizingImage s' = false
        /\ isDraggingImage s' = true).
Proof.
  split.
  - intros cv x y im Hw Hh Hc Hpick. cbv zeta.
    destruct (handle_frame cv x y im Hw Hh Hc) as [EX EY].
    apply containsPoint_frame in Hpick.
    destruct Hpick as [[X0 X1] [Y0 Y1]].
    split; [repeat split; assumption|].
    rewrite (@resize_region cv x y im Hw Hh),
            (@rotate_region cv x y im Hw Hh),
            (@delete_region cv x y im Hw Hh).
    rewrite EX, EY.
    assert (K : forall a c h : R, Rabs (a - c) <= h <-> c - h <= a <= c + h).
    { intros a c h.
      split; intros A; [apply Rabs_le_between in A | apply Rabs_le]; lra. }
    rewrite !K.
    split; [|split]; split; intros [A B]; lra.
  - destruct quarter_turn as (s & Hrot & Hheap & Hcv & Himgs & Hflag).
    destruct quarter_turn_back as [Ec Es].
    assert (Hw : 0 < Canvas.width exampleCanvas) by (simpl; lra).
    assert (Hh : 0 < Canvas.height exampleCanvas) by (simpl; lra).
    assert (FX : frameX exampleCanvas (54 / 800) (146 / 600) (heap s 0%nat)
                 = 196).
    { rewrite Hheap. unfold frameX. in_reals. simpl. rewrite Ec, Es. lra. }
    assert (FY : frameY exampleCanvas (54 / 800) (146 / 600) (heap s 0%nat)
                 = 96).
    { rewrite Hheap. unfold frameY. in_reals. simpl. rewrite Ec, Es. lra. }
    assert (Hpick : getClickedImage (54 / 800) (146 / 600) s
                    = Some (Some 0%nat)).
    { unfold getClickedImage. rewrite Hcv, Himgs.
      cbn [List.length clickedBelow nth].
      rewrite (proj2 (containsPoint_frame exampleCanvas (54 / 800)
                        (146 / 600) (heap s 0%nat))); [reflexivity|].
      rewrite FX, FY, Hheap. simpl. lra. }
    assert (RX : rotatedX exampleCanvas (54 / 800) (146 / 600) (heap s 0%nat)
                 * 800 = 228).
    { rewrite Hheap. unfold rotatedX. in_reals. simpl. rewrite Ec, Es. lra. }
    assert (RY : rotatedY exampleCanvas (54 / 800) (146 / 600) (heap s 0%nat)
                 * 600 = 84.5).
    { rewrite Hheap. unfold rotatedY. in_reals. simpl. rewrite Ec, Es. lra. }
    assert (H1 : isResizeHandle exampleCanvas (54 / 800) (146 / 600)
                   (heap s 0%nat) = false).
    { destruct (isResizeHandle exampleCanvas (54 / 800) (146 / 600)
                  (heap s 0%nat)) eqn:E; [|reflexivity].
      apply (@resize_region exampleCanvas _ _ _ Hw Hh) in E.
      destruct E as [E _]. apply Rabs_le_between in E.
      change (Canvas.width exampleCanvas) with 800 in E.
      rewrite RX, Hheap in E. simpl in E. exfalso. lra. }
    assert (H2 : isRotateHandle exampleCanvas (54 / 800) (146 / 600)
                   (heap s 0%nat) = false).
    { destruct (isRotateHandle exampleCanvas (54 / 800) (146 / 600)
                  (heap s 0%nat)) eqn:E; [|reflexivity].
      apply (@rotate_region exampleCanvas _ _ _ Hw Hh) in E.
      destruct E as [_ E]. apply Rabs_le_between in E.
      change (Canvas.height exampleCanvas) with 600 in E.
      rewrite RY, Hheap in E. simpl in E. exfalso. lra. }
    assert (H3 : isDeleteHandle exampleCanvas (54 / 800) (146 / 600)
                   (heap s 0%nat) = false).
    { destruct (isDeleteHandle exampleCanvas (54 / 800) (146 / 600)
                  (heap s 0%nat)) eqn:E; [|reflexivity].
      apply (@delete_region exampleCanvas _ _ _ Hw Hh) in E.
      destruct E as [E _]. apply Rabs_le_between in E.
      change (Canvas.width exampleCanvas) with 800 in E.
      rewrite RX, Hheap in E. simpl in E. exfalso. lra. }
    assert (Hdown := @onMouseDown_on_image R R_Number R_Trig 54 146 s
                       exampleCanvas 0%nat Hcv).
    cbv zeta in Hdown.
    assert (Ex : (54 - Canvas.left exampleCanvas)
                 / Canvas.rect_width exampleCanvas = 54 / 800)
      by (simpl; lra).
    assert (Ey : (146 - Canvas.top exampleCanvas)
                 / Canvas.rect_height exampleCanvas = 146 / 600)
      by (simpl; lra).
    in_reals. rewrite Ex, Ey in Hdown.
    specialize (Hdown Hpick). rewrite H1, H2, H3 in Hdown.
    exists s. eexists.
    split; [exact Hrot|]. split; [exact Hheap|]. split; [exact Hpick|].
    split; [exact FX|]. split; [exact FY|]. split; [exact H1|].
    split; [exact Hdown|]. split; [exact Hflag | reflexivity].
Qed.

End HandleFrames.

Section MoreExamples.

Local Open Scope R_scope.

Lemma twoImages_wellFormed : wellFormedImages twoImages.
Proof.
  unfold wellFormedImages. simpl. split.
  - constructor; [simpl; intros [H | []]; discriminate|].
    constructor; [simpl; tauto | constructor].
  - intros [H | [H | []]]; discriminate.
Defined.

Lemma redo_after_undo_restores_commit_witness :
  sameDocument (redo (undo (deleteImage 0%nat twoImages)))
    (deleteImage 0%nat twoImages).
Proof.
  apply (@redo_after_undo_restores_commit R R_Number R_Trig (EDelete 0%nat)
           twoImages (deleteImage 0%nat twoImages)
           (imageAction ActionType.deleteImage 0%nat)
           eq_refl eq_refl twoImages_wellFormed).
Defined.

Lemma undo_restores_the_list_exactly_witness :
  images (undo (deleteImage 1%nat twoImages)) = images twoImages
  /\ actions (undo (deleteImage 1%nat twoImages)) = actions twoImages
  /\ (forall r, r <> nextRef twoImages ->
        heap (undo (deleteImage 1%nat twoImages)) r = heap twoImages r).
Proof.
  apply (@undo_restores_the_list_exactly R R_Number R_Trig (EDelete 1%nat)
           twoImages (deleteImage 1%nat twoImages)
           (imageAction ActionType.deleteImage 1%nat)
           eq_refl eq_refl twoImages_wellFormed).
  intros im H. injection H as <-. exists [0%nat]. reflexivity.
Defined.

Lemma rotate_command_touches_rotation_only_witness :
  exists s' a r0 r1,
    rotateSelectedImage (1 / 2) (1 / 2) firstSelected = Some s'
    /\ actions s' = actions firstSelected ++ [a]
    /\ a = transformAction ActionType.rotateImage 0%nat (rotationState r0)
             (rotationState r1)
    /\ r0 = ImageElement.rotation (heap firstSelected 0%nat)
    /\ r1 = ImageElement.rotation (heap s' 0%nat)
    /\ (forall (u : State R) rest, actions u = rest ++ [a] ->
          touchesRotationOnly 0%nat (heap u) (heap (undo u)))
    /\ (forall (u : State R) rest, redoActions u = rest ++ [a] ->
          touchesRotationOnly 0%nat (heap u) (heap (redo u))).
Proof.
  eexists.
  destruct (@rotate_command_touches_rotation_only R R_Number R_Trig
              firstSelected _ (1 / 2) (1 / 2) 0%nat eq_refl eq_refl)
    as (a & r0 & r1 & H).
  exists a, r0, r1. split; [reflexivity | exact H].
Defined.

Lemma getClickedImage_topmost_witness :
  exists picked,
    getClickedImage (1 / 2) (1 / 2) twoImages = Some picked
    /\ match picked with
       | Some r =>
           exists l1 l2,
             images twoImages = l1 ++ r :: l2
             /\ containsPoint exampleCanvas (1 / 2) (1 / 2)
                  (heap twoImages r) = true
             /\ (forall r', In r' l2 ->
                   containsPoint exampleCanvas (1 / 2) (1 / 2)
                     (heap twoImages r') = false)
       | None =>
           forall r, In r (images twoImages) ->
             containsPoint exampleCanvas (1 / 2) (1 / 2) (heap twoImages r)
             = false
       end.
Proof.
  exact (@getClickedImage_topmost R R_Number R_Trig (1 / 2) (1 / 2)
           twoImages exampleCanvas eq_refl).
Defined.

Lemma deleteImage_effect_witness :
  deleteImage 5%nat twoImages = twoImages
  /\ exists l1 l2,
       images twoImages = l1 ++ 0%nat :: l2
       /\ ~ In 0%nat l1
       /\ images (deleteImage 0%nat twoImages) = l1 ++ l2
       /\ actions (deleteImage 0%nat twoImages)
          = actions twoImages ++ [imageAction ActionType.deleteImage 0%nat]
       /\ redoActions (deleteImage 0%nat twoImages) = []
       /\ selectedImage (deleteImage 0%nat twoImages) = None
       /\ heap (deleteImage 0%nat twoImages) = heap twoImages.
Proof.
  split.
  - apply (proj1 (@deleteImage_effect R 5%nat twoImages)).
    simpl. intros [H | [H | []]]; discriminate.
  - apply (proj2 (@deleteImage_effect R 0%nat twoImages)).
    simpl. left. reflexivity.
Defined.

Lemma moveImageLayer_reorders_witness :
  exists s',
    moveImageLayer Direction.up firstSelected = Some s'
    /\ Permutation (images s') (images firstSelected)
    /\ actions s' = actions firstSelected
    /\ redoActions s' = redoActions firstSelected
    /\ heap s' = heap firstSelected
    /\ selectedImage s' = Some 0%nat.
Proof.
  apply (@moveImageLayer_reorders R Direction.up firstSelected 0%nat eq_refl).
  simpl. left. reflexivity.
Defined.

Lemma moveImageLayer_up_then_down_witness :
  exists s1,
    moveImageLayer Direction.up firstSelected = Some s1
    /\ images s1 = [] ++ 1%nat :: 0%nat :: []
    /\ moveImageLayer Direction.down s1 = Some firstSelected.
Proof.
  apply (@moveImageLayer_up_then_down R firstSelected 0%nat 1%nat [] []
           (proj1 twoImages_wellFormed) eq_refl eq_refl).
Defined.

Lemma moveImageLayer_of_absent_image_witness :
  selectedImage danglingSelection = Some 2%nat
  /\ images danglingSelection = [0%nat; 1%nat]
  /\ moveImageLayer Direction.up danglingSelection = None
  /\ moveImageLayer Direction.down danglingSelection = Some danglingSelection.
Proof.
  split; [reflexivity | split; [reflexivity|]].
  apply (@moveImageLayer_of_absent_image R danglingSelection 2%nat eq_refl).
  - simpl. intros [H | [H | []]]; discriminate.
  - simpl. discriminate.
Defined.

Lemma click_commits_nothing_witness :
  exists s1 s2,
    onMouseDown 100 100 emptyPage = Some s1
    /\ isDrawing s1 = true
    /\ currentPath s1 = [Point.mk ((100 - 0) / 800) ((100 - 0) / 600)]
    /\ onMouseUp 100 100 s1 = Some s2
    /\ actions s2 = actions emptyPage
    /\ redoActions s2 = redoActions emptyPage
    /\ images s2 = images emptyPage
    /\ isDrawing s2 = false
    /\ currentPath s2 = [].
Proof.
  exact (@click_commits_nothing R R_Number R_Trig 100 100 100 100 emptyPage
           exampleCanvas eq_refl eq_refl eq_refl eq_refl).
Defined.

Lemma shift_line_gesture_witness :
  exists s1 s2 s4,
    handleKeyDown "Shift" false emptyPage = Some s1
    /\ onMouseDown 100 100 s1 = Some s2
    /\ onMouseUp 400 300 (handleKeyUp "Shift" s2) = Some s4
    /\ actions s4
       = actions emptyPage
         ++ [pathAction
               [Point.mk ((100 - 0) / 800) ((100 - 0) / 600);
                getSnappedEndPoint
                  (Point.mk ((100 - 0) / 800) ((100 - 0) / 600))
                  (Point.mk ((400 - 0) / 800) ((300 - 0) / 600))]
               (currentColor emptyPage) (brushSize emptyPage) false]
    /\ redoActions s4 = redoActions emptyPage
    /\ isLineDrawingMode s4 = false
    /\ lineStartPoint s4 = None.
Proof.
  exact (@shift_line_gesture R R_Number R_Trig 100 100 400 300 emptyPage
           exampleCanvas eq_refl eq_refl).
Defined.

Lemma drawPath_compositing_witness :
  drawPath exampleCanvas [Point.mk 0 0] "#000000" 2 true = []
  /\ strokeModes
       (drawPath exampleCanvas [Point.mk 0 0; Point.mk 1 1] "#000000" 2 true)
       "source-over"
     = ["destination-out"%string]
  /\ compositeAfter
       (drawPath exampleCanvas [Point.mk 0 0; Point.mk 1 1] "#000000" 2 true)
       "source-over"
     = "source-over"%string
  /\ List.length
       (drawPath exampleCanvas [Point.mk 0 0; Point.mk 1 1] "#000000" 2 true)
     = (2 + 9)%nat.
Proof.
  split.
  - apply (proj1 (@drawPath_compositing R R_Number exampleCanvas
                    [Point.mk 0 0] "#000000" 2 true "source-over")).
    simpl. lia.
  - apply (proj2 (@drawPath_compositing R R_Number exampleCanvas
                    [Point.mk 0 0; Point.mk 1 1] "#000000" 2 true
                    "source-over")).
    simpl. lia.
Defined.

Lemma flipped_image_is_never_picked_witness :
  getClickedImage (50 / 800) (50 / 600) flippedOnce <> Some (Some 0%nat).
Proof.
  apply (proj2 flipped_image_is_never_picked true firstSelected 0%nat
           (50 / 800) (50 / 600) eq_refl).
  simpl. lra.
Defined.

Lemma centre_of_topmost_image_is_picked_witness :
  getClickedImage (50 / 800) (50 / 600) twoImages = Some (Some 1%nat).
Proof.
  apply (centre_of_topmost_image_is_picked twoImages exampleCanvas
           [0%nat] 1%nat (50 / 800) (50 / 600) eq_refl eq_refl);
    simpl; lra.
Defined.

Lemma loaded_image_is_picked_witness :
  getClickedImage (30 / 800) (60 / 600)
    (handleImageUpload 7%nat 100 100 emptyPage)
  = Some (Some 0%nat).
Proof.
  apply (loaded_image_is_picked 7%nat 100 100 emptyPage exampleCanvas
           (30 / 800) (60 / 600) eq_refl); simpl; lra.
Defined.

(** A resize whose two dimensions exceed 20 is accepted. *)
Lemma resize_accepted : forall (x y : R) (s : State R) (sel : ref)
  (canvas : Canvas.t R),
  selectedImage s = Some sel ->
  canvasRef s = Some canvas ->
  let o := heap s sel in
  let newWidth := x * Canvas.width canvas - ImageElement.x o in
  20 < newWidth ->
  20 < newWidth / (ImageElement.width o / ImageElement.height o) ->
  exists s' a,
    resizeSelectedImage x y s = Some s'
    /\ actions s' = actions s ++ [a].
Proof.
  intros x y s sel canvas Hsel Hc o newWidth H1 H2.
  unfold resizeSelectedImage. rewrite Hsel, Hc.
  cbn [nltb nsub nmul ndiv of_Z R_Number].
  fold o. fold newWidth.
  rewrite (@Rltb_true 20 newWidth H1).
  rewrite (@Rltb_true 20 _ H2).
  eexists. eexists. split; reflexivity.
Qed.

Lemma resize_accepted_example :
  exists s' a,
    resizeSelectedImage (200 / 800) 0 firstSelected = Some s'
    /\ actions s' = actions firstSelected ++ [a].
Proof.
  apply (resize_accepted (200 / 800) 0 firstSelected 0%nat exampleCanvas
           eq_refl eq_refl); simpl; lra.
Qed.

Lemma accepted_resize_geometry_witness :
  exists s',
    resizeSelectedImage (200 / 800) 0 firstSelected = Some s'
    /\ ImageElement.x (heap s' 0%nat) = ImageElement.x (heap firstSelected 0%nat)
    /\ ImageElement.y (heap s' 0%nat) = ImageElement.y (heap firstSelected 0%nat)
    /\ ImageElement.rotation (heap s' 0%nat)
       = ImageElement.rotation (heap firstSelected 0%nat)
    /\ ImageElement.x (heap s' 0%nat) + ImageElement.width (heap s' 0%nat)
       = 200 / 800 * Canvas.width exampleCanvas
    /\ ImageElement.width (heap s' 0%nat)
       * ImageElement.height (heap firstSelected 0%nat)
       = ImageElement.height (heap s' 0%nat)
         * ImageElement.width (heap firstSelected 0%nat)
    /\ 20 < ImageElement.width (heap s' 0%nat)
    /\ 20 < ImageElement.height (heap s' 0%nat).
Proof.
  destruct resize_accepted_example as (s' & a & Hrun & Hpush).
  exists s'. split; [exact Hrun|].
  apply (accepted_resize_geometry (200 / 800) 0 firstSelected s' 0%nat
           exampleCanvas a eq_refl eq_refl); try assumption; simpl; lra.
Defined.

Lemma once_flipped_image_cannot_be_resized_witness :
  resizeSelectedImage (200 / 800) 0 flippedOnce = Some flippedOnce.
Proof.
  apply (once_flipped_image_cannot_be_resized (200 / 800) 0 flippedOnce
           0%nat exampleCanvas eq_refl eq_refl).
  simpl. lra.
Defined.

Lemma flip_twice_restores_the_image_witness :
  heap (flipImage true (flipImage true firstSelected)) = heap firstSelected
  /\ images (flipImage true (flipImage true firstSelected))
     = images firstSelected
  /\ selectedImage (flipImage true (flipImage true firstSelected))
     = Some 0%nat
  /\ List.length (actions (flipImage true (flipImage true firstSelected)))
     = (List.length (actions firstSelected) + 2)%nat.
Proof.
  exact (flip_twice_restores_the_image true firstSelected 0%nat eq_refl).
Defined.

(** The second of the two images is under a pointer at (50, 50). *)
Lemma second_image_under_pointer :
  getClickedImage ((50 - 0) / 800) ((50 - 0) / 600) twoImages
  = Some (Some 1%nat).
Proof.
  unfold getClickedImage. simpl canvasRef. cbv iota.
  change (images twoImages) with [0%nat; 1%nat].
  cbn [List.length clickedBelow nth].
  assert (E : containsPoint exampleCanvas ((50 - 0) / 800) ((50 - 0) / 600)
                (heap twoImages 1%nat) = true).
  { apply containsPoint_unrotated; [reflexivity|]. simpl. lra. }
  rewrite E. reflexivity.
Qed.

Lemma press_on_image_witness :
  exists s',
    onMouseDown 50 50 twoImages = Some s'
    /\ isDrawing s' = isDrawing twoImages
    /\ currentPath s' = currentPath twoImages
    /\ isLineDrawingMode s' = isLineDrawingMode twoImages
    /\ lineStartPoint s' = lineStartPoint twoImages
    /\ ((selectedImage s' = Some 1%nat
         /\ images s' = images twoImages
         /\ actions s' = actions twoImages
         /\ redoActions s' = redoActions twoImages)
        \/ (selectedImage s' = None
            /\ S (List.length (images s')) = List.length (images twoImages)
            /\ actions s'
               = actions twoImages
                 ++ [imageAction ActionType.deleteImage 1%nat]
            /\ redoActions s' = [])).
Proof.
  exact (@press_on_image R R_Number R_Trig 50 50 twoImages exampleCanvas
           1%nat eq_refl second_image_under_pointer).
Defined.

(** At (50, 50) the pointer is on none of the handles of that image: the
    press starts a drag. *)
Lemma press_on_body_example :
  exists s1,
    onMouseDown 50 50 twoImages = Some s1
    /\ isDraggingImage s1 = true.
Proof.
  rewrite (@onMouseDown_on_image R R_Number R_Trig 50 50 twoImages
             exampleCanvas 1%nat eq_refl second_image_under_pointer).
  cbv zeta.
  change (heap twoImages 1%nat) with (ImageElement.mk 1%nat 0 0 100 100 0).
  set (x := @ndiv R R_Number (@nsub R R_Number 50 (Canvas.left exampleCanvas))
              (Canvas.rect_width exampleCanvas)).
  set (y := @ndiv R R_Number (@nsub R R_Number 50 (Canvas.top exampleCanvas))
              (Canvas.rect_height exampleCanvas)).
  set (o := ImageElement.mk 1%nat 0 0 100 100 0).
  assert (Hx : x = 50 / 800) by (unfold x; simpl; lra).
  assert (Hy : y = 50 / 600) by (unfold y; simpl; lra).
  assert (Hw : 0 < Canvas.width exampleCanvas) by (simpl; lra).
  assert (Hh : 0 < Canvas.height exampleCanvas) by (simpl; lra).
  destruct (@rotated_at_zero exampleCanvas x y o eq_refl) as [RX RY].
  destruct (isResizeHandle exampleCanvas x y o) eqn:E1.
  { apply (@resize_region exampleCanvas x y o Hw Hh) in E1.
    rewrite RX, Hx in E1. destruct E1 as [E1 _].
    apply Rabs_le_between in E1. simpl in E1. exfalso. lra. }
  destruct (isRotateHandle exampleCanvas x y o) eqn:E2.
  { apply (@rotate_region exampleCanvas x y o Hw Hh) in E2.
    rewrite RX, Hx in E2. destruct E2 as [E2 _].
    apply Rabs_le_between in E2. simpl in E2. exfalso. lra. }
  destruct (isDeleteHandle exampleCanvas x y o) eqn:E3.
  { apply (@delete_region exampleCanvas x y o Hw Hh) in E3.
    rewrite RX, Hx in E3. destruct E3 as [E3 _].
    apply Rabs_le_between in E3. simpl in E3. exfalso. lra. }
  eexists. split; reflexivity.
Qed.

Lemma drag_follows_the_pointer_witness :
  exists s1 s2,
    onMouseDown 50 50 twoImages = Some s1
    /\ onMouseMove 80 90 s1 = Some s2
    /\ ImageElement.x (heap s2 1%nat)
       = ImageElement.x (heap twoImages 1%nat)
         + ((80 - 0) / 800 - (50 - 0) / 800) * 800
    /\ ImageElement.y (heap s2 1%nat)
       = ImageElement.y (heap twoImages 1%nat)
         + ((90 - 0) / 600 - (50 - 0) / 600) * 600
    /\ ImageElement.width (heap s2 1%nat)
       = ImageElement.width (heap twoImages 1%nat)
    /\ ImageElement.height (heap s2 1%nat)
       = ImageElement.height (heap twoImages 1%nat)
    /\ ImageElement.rotation (heap s2 1%nat)
       = ImageElement.rotation (heap twoImages 1%nat)
    /\ actions s2 = actions twoImages
    /\ redoActions s2 = redoActions twoImages
    /\ images s2 = images twoImages.
Proof.
  destruct press_on_body_example as (s1 & Hdown & Hdrag).
  assert (Hmove : exists s2, onMouseMove 80 90 s1 = Some s2).
  { rewrite (@onMouseDown_on_image R R_Number R_Trig 50 50 twoImages
               exampleCanvas 1%nat eq_refl second_image_under_pointer)
      in Hdown.
    cbv zeta in Hdown.
    repeat match type of Hdown with
           | (if ?c then _ else _) = _ => destruct c
           end;
      injection Hdown as <-;
      try (unfold deleteImage; simpl;
           match goal with
           | |- context [(-1 <? ?i)%Z] => destruct (-1 <? i)%Z
           end);
      unfold onMouseMove, getCanvasCoordinates, resizeSelectedImage,
        rotateSelectedImage; simpl;
      repeat match goal with
             | |- context [if ?c then _ else _] => destruct c
             end;
      eexists; reflexivity. }
  destruct Hmove as (s2 & Hmove).
  exists s1, s2. split; [exact Hdown | split; [exact Hmove|]].
  exact (drag_follows_the_pointer 50 50 80 90 twoImages s1 s2 exampleCanvas
           1%nat eq_refl
           ltac:(simpl; lra) ltac:(simpl; lra) eq_refl eq_refl eq_refl
           second_image_under_pointer Hdown Hdrag Hmove).
Defined.

Lemma captured_point_is_drawn_under_the_pointer_witness :
  exists (s1 : State R) (canvas1 : Canvas.t R) (p : Point.t R) (w h : Z),
    resizeCanvas fractionalPage = Some s1
    /\ canvasRef s1 = Some canvas1
    /\ Canvas.width canvas1 = IZR w
    /\ IZR w <= 1601 / 2 < IZR w + 1
    /\ Canvas.height canvas1 = IZR h
    /\ IZR h <= 2401 / 4 < IZR h + 1
    /\ currentPath (capturePoint 120 90 s1) = currentPath fractionalPage ++ [p]
    /\ (1601 / 2 = IZR w -> Point.x p * Canvas.width canvas1 = 120 - 0)
    /\ (2401 / 4 = IZR h -> Point.y p * Canvas.height canvas1 = 90 - 0)
    /\ (0 <= 120 - 0 <= 1601 / 2 ->
        120 - 0 - 1 < Point.x p * Canvas.width canvas1 <= 120 - 0)
    /\ (0 <= 90 - 0 <= 2401 / 4 ->
        90 - 0 - 1 < Point.y p * Canvas.height canvas1 <= 90 - 0).
Proof.
  eexists.
  destruct (captured_point_is_drawn_under_the_pointer 120 90 fractionalPage _
              (Canvas.mk 0 0 (1601 / 2) (2401 / 4) 300 150) eq_refl
              ltac:(simpl; lra) ltac:(simpl; lra) eq_refl)
    as (canvas1 & p & w & h & H).
  exists canvas1, p, w, h. split; [reflexivity | exact H].
Defined.

Lemma stopDrawing_commits_the_smoothed_stroke_witness :
  actions (stopDrawing strokeInProgress)
  = actions strokeInProgress
    ++ [pathAction (smoothPathSpec (currentPath strokeInProgress))
          (if isEraser strokeInProgress then backgroundColor strokeInProgress
           else currentColor strokeInProgress)
          (brushSize strokeInProgress) (isEraser strokeInProgress)]
  /\ redoActions (stopDrawing strokeInProgress) = []
  /\ currentPath (stopDrawing strokeInProgress) = []
  /\ isDrawing (stopDrawing strokeInProgress) = false.
Proof.
  apply (stopDrawing_commits_the_smoothed_stroke strokeInProgress eq_refl).
  simpl. lia.
Defined.

Lemma ctrl_z_then_ctrl_y_witness :
  handleKeyDown "z" true (deleteImage 0%nat twoImages)
  = Some (undo (deleteImage 0%nat twoImages))
  /\ handleKeyDown "y" true (undo (deleteImage 0%nat twoImages))
     = Some (redo (undo (deleteImage 0%nat twoImages)))
  /\ actions (redo (undo (deleteImage 0%nat twoImages)))
     = actions (deleteImage 0%nat twoImages)
  /\ redoActions (redo (undo (deleteImage 0%nat twoImages)))
     = redoActions (deleteImage 0%nat twoImages).
Proof.
  apply (ctrl_z_then_ctrl_y (deleteImage 0%nat twoImages)).
  simpl. discriminate.
Defined.

Lemma edit_pushes_at_most_one_command_witness :
  actions (duplicateImage firstSelected) = actions firstSelected
  \/ exists a,
       actions (duplicateImage firstSelected) = actions firstSelected ++ [a].
Proof.
  exact (edit_pushes_at_most_one_command (@EDuplicate R) firstSelected
           (duplicateImage firstSelected) eq_refl).
Defined.

Lemma twoImages_allocated : allocatedImages twoImages.
Proof.
  split.
  - change (NoDup [0; 1]%nat).
    constructor; [simpl; intros [H | []]; discriminate|].
    constructor; [intros [] | constructor].
  - intros r Hr. change (In r [0; 1]%nat) in Hr. change (r < 2)%nat.
    destruct Hr as [<- | [<- | []]]; lia.
Qed.

(** The amended C2 at [twoImages], the first image deleted and the
    deletion undone: the image is back, at the end of the list. *)
Lemma commits_then_undos_witness :
  allocatedImages twoImages
  /\ undoneList ([imageAction ActionType.deleteImage 0%nat]
                 : list (DrawAction.t R)) (images twoImages) = [1; 0]%nat
  /\ let u := Nat.iter 1 undo (deleteImage 0%nat twoImages) in
     actions u = actions twoImages
     /\ Permutation (images u) (images twoImages)
     /\ (allocatedImages twoImages ->
         images u
         = undoneList ([imageAction ActionType.deleteImage 0%nat]
                       : list (DrawAction.t R)) (images twoImages))
     /\ (allocatedImages twoImages ->
         (forall im,
            In im (deletedImages
                     ([imageAction ActionType.deleteImage 0%nat]
                      : list (DrawAction.t R))) ->
            ~ In im (images twoImages)) ->
         images u = images twoImages)
     /\ (forall r, (r < nextRef twoImages)%nat -> heap u r = heap twoImages r)
     /\ redoActions u
        = redoActions (deleteImage 0%nat twoImages)
          ++ rev [imageAction ActionType.deleteImage 0%nat].
Proof.
  split; [exact twoImages_allocated | split; [reflexivity|]].
  exact (commits_then_undos _ _ _ deleteFirst_committed).
Defined.

(** The first part of C9 at [exampleImage], the pointer 10 pixels inside
    its bottom-right corner. *)
Lemma handle_tests_leave_the_image_frame_witness :
  containsPoint exampleCanvas (290 / 800) (190 / 600) exampleImage = true
  /\ let X := frameX exampleCanvas (290 / 800) (190 / 600) exampleImage in
     let Y := frameY exampleCanvas (290 / 800) (190 / 600) exampleImage in
     (100 <= X <= 100 + 200 /\ 100 <= Y <= 100 + 100)
     /\ (isResizeHandle exampleCanvas (290 / 800) (190 / 600) exampleImage
         = true
         <-> 100 + 200 - 16 <= X /\ 100 + 100 - 16 <= Y)
     /\ (isRotateHandle exampleCanvas (290 / 800) (190 / 600) exampleImage
         = true
         <-> 100 + 200 - 30 <= X /\ Y <= 100 + 30)
     /\ (isDeleteHandle exampleCanvas (290 / 800) (190 / 600) exampleImage
         = true
         <-> X <= 100 + 16 /\ Y <= 100 + 16).
Proof.
  assert (Hpick : containsPoint exampleCanvas (290 / 800) (190 / 600)
                    exampleImage = true).
  { apply containsPoint_unrotated; [reflexivity|]. simpl. lra. }
  split; [exact Hpick|].
  apply (proj1 handle_tests_leave_the_image_frame exampleCanvas
           (290 / 800) (190 / 600) exampleImage).
  - simpl. lra.
  - simpl. lra.
  - left. reflexivity.
  - exact Hpick.
Defined.

End MoreExamples.
